(** * The virtual list of [src/gui/base/List.js]

    A shallow embedding of the [List] class (the virtual-scrolling list of the
    mail client) and of its [SwipeHandler], with the properties of the list
    that the specification states.

    Conventions of the embedding.
    - The mutable fields of the [List] object, of the [SwipeHandler], of the
      virtual rows and of the promises in flight live in one record, [World];
      a method is a function in the monad [M], which threads the world and
      propagates a JavaScript exception.
    - Entities are immutable for the list: a value of the entity type stands
      for one JavaScript object, and [==] on entities is equality of values.
    - Numbers are integers ([Z]): pixel positions, indices and lengths.  [%] is
      [Z.rem] (sign of the dividend), [/] is exact where the list needs an
      array index.  The row height is a [positive].
    - Calls that leave the list (the callbacks of the configuration, the
      console, the animation service) are appended to [trace].  Style writes
      on DOM nodes that the list never reads back are left out.
    - The arrays of entities hold entities only.  Where the JavaScript would
      store [undefined] in such an array the outcome is [Unrepresented]. *)

From Stdlib Require Import ZArith Lia.
From stdpp Require Import prelude countable strings pretty sorting.

Local Open Scope Z_scope.

(** ** JavaScript arrays *)

Section Arrays.
Context {A : Type} `{EqDecision A}.

(** [arr[i]] for a number [i]: [None] is [undefined]. *)
Definition js_get (arr : list A) (i : Z) : option A :=
  if bool_decide (i < 0) then None else arr !! Z.to_nat i.

(** [arr.indexOf(x)]: the first index holding [x], or [-1]. *)
Definition js_indexOf (arr : list A) (x : A) : Z :=
  match list_find (λ y, y = x) arr with
  | Some (i, _) => Z.of_nat i
  | None => -1
  end.

(** [arr[i] = v] for [i : nat].  Writing at the length appends; writing past
    it would leave holes, which [list A] does not have: [None]. *)
Definition js_put (arr : list A) (i : nat) (v : A) : option (list A) :=
  if bool_decide (i < length arr)%nat then Some (<[i := v]> arr)
  else if bool_decide (i = length arr) then Some (arr ++ [v])
  else None.

(** [for (i = 0; i < items.length; i++) arr[start + i] = items[i]] *)
Fixpoint js_put_from (arr : list A) (start : nat) (items : list A) : option (list A) :=
  match items with
  | [] => Some arr
  | v :: items' =>
      match js_put arr start v with
      | Some arr' => js_put_from arr' (S start) items'
      | None => None
      end
  end.

(** [for (i = from; n times; i++) out.push(arr[i])]: [None] when some
    [arr[i]] is [undefined]. *)
Fixpoint js_collect (arr : list A) (from : Z) (n : nat) : option (list A) :=
  match n with
  | O => Some []
  | S n' =>
      match js_get arr from, js_collect arr (from + 1) n' with
      | Some x, Some rest => Some (x :: rest)
      | _, _ => None
      end
  end.

(** [arr.splice(i, 1, v)] at the position [i < arr.length] of a loop. *)
Definition js_splice1 (arr : list A) (i : nat) (v : A) : list A := <[i := v]> arr.

(** Modelled from the spec: [last] of api/common/utils/ArrayUtils, which is
    not among the sources: "the current last loaded entity", [None] on an
    empty array. *)
Definition last_ (arr : list A) : option A := last arr.

(** Modelled from the spec: [remove] of api/common/utils/ArrayUtils, which is
    not among the sources: "removes from loaded" the given element (its first
    occurrence) and "reports whether" something was removed. *)
Definition remove (arr : list A) (x : A) : bool * list A :=
  match list_find (λ y, y = x) arr with
  | Some (i, _) => (true, delete i arr)
  | None => (false, arr)
  end.

(** Modelled from the spec: [addAll] of api/common/utils/ArrayUtils, which is
    not among the sources: "add every entity ... to the selection", at the
    end and in order. *)
Definition addAll (arr items : list A) : list A := arr ++ items.

(** Modelled from the spec: [arrayEquals] of api/common/utils/ArrayUtils,
    which is not among the sources: the selection "already was exactly" the
    given array, element by element. *)
Definition arrayEquals (a1 a2 : list A) : bool := bool_decide (a1 = a2).

End Arrays.

(** [arr.sort(compare)]: [compare a b <= 0] keeps [a] before [b]. *)
Definition cmp_le {A} (compare : A → A → Z) : relation A := λ a b, compare a b ≤ 0.

Global Instance cmp_le_dec {A} (compare : A → A → Z) a b : Decision (cmp_le compare a b).
Proof. unfold cmp_le. apply _. Defined.

Definition js_sort {A} (compare : A → A → Z) (arr : list A) : list A :=
  merge_sort (cmp_le compare) arr.

(** [a / b] used as an array index: [None] when the quotient is no integer. *)
Definition js_div_index (a : Z) (b : positive) : option Z :=
  if bool_decide (Z.rem a (Z.pos b) = 0) then Some (Z.quot a (Z.pos b)) else None.

(** The truth value of [(a / b) % 2]: a quotient that is no integer has a
    remainder that is not zero. *)
Definition js_div_odd (a : Z) (b : positive) : bool :=
  match js_div_index a b with
  | Some q => negb (bool_decide (Z.rem q 2 = 0))
  | None => true
  end.

(** ** Entities and identifiers *)

Definition Id := string.
Definition IdTuple := (Id * Id)%type.

(** What the list imports from api/common/EntityFunctions, which is not among
    the sources, for its entity type [T] (the [T] of [List<T, R>]): [getLetId]
    returns the pair of list id and element id, [GENERATED_MAX_ID] is the
    sentinel "maximum identifier" cursor of the first page.  Both are
    parameters of the development. *)
Class Entity (T : Type) := {
  entity_eq_dec :: EqDecision T;
  getLetId : T → IdTuple;
  GENERATED_MAX_ID : Id
}.

(** [getLetId(e)[1]] *)
Definition elementId {T} `{Entity T} (e : T) : Id := (getLetId e).2.

(** [OperationType] of TutanotaConstants, as far as [entityEventReceived]
    looks at it. *)
Inductive OperationTypeEnum := CREATE | UPDATE | DELETE.

Global Instance OperationTypeEnum_eq_dec : EqDecision OperationTypeEnum.
Proof. solve_decision. Defined.

Definition ScrollBuffer : Z := 15.
Definition PageSize : nat := 100.
Definition ActionDistance : Z := 150.

(** ** The state *)

Section Model.
Context {T : Type} `{Entity T}.

(** [ListConfig<T, R>], the part the modelled methods read.  The callbacks
    ([fetch], [loadSingle], [elementSelected], [swipe]) are outbound calls and
    appear in the trace. *)
Record ListConfig := {
  rowHeight : positive;
  sortCompare : T → T → Z;
  multiSelectionAllowed : bool
}.

(** The DOM node of a row ([li.list-row]). *)
Record DomElement := {
  offsetHeight : Z;
  oddRow : bool;        (* class 'odd-row' present *)
  displayed : bool      (* style.display = 'list-item' (true) or 'none' *)
}.

(** A [VirtualRow<T>].  [updated] is the last [row.update(entity, selected)]
    the row has received. *)
Record VirtualRow := {
  top : Z;
  entity : option T;
  domElement : option DomElement;
  updated : option (T * bool)
}.

(** References to row objects and to promises: positions in [rows] and in
    [promises]. *)
Definition RowRef := nat.
Definition PromiseRef := nat.

(** What runs when [this._loading] is fulfilled. *)
Inductive AfterLoading :=
  | ApplyCreateUpdate (operation : OperationTypeEnum) (newEntity : T)
  | ApplyDelete (elementId : Id).

(** The continuation a pending promise carries. *)
Inductive Continuation :=
  | K_loadMore (start : nat) (count : nat)      (* fetch(..).then(..).finally(..) *)
  | K_loadSingle (operation : OperationTypeEnum) (* loadSingle(..).then(..) *)
  | K_afterLoading (loading : PromiseRef) (k : AfterLoading) (* this._loading.then(..) *)
  | K_swipe                                     (* swipePromise.catch(..) *)
  | K_swipeFinish (ve : RowRef).                (* Promise.all(animations).then(..) *)

Inductive PromiseState :=
  | Pending (k : Continuation)
  | Fulfilled
  | Rejected.

(** Outbound calls. *)
Inductive Effect :=
  | Fetch (startId : Id) (count : nat) (p : PromiseRef)
  | LoadSingle (elementId : Id) (p : PromiseRef)
  | ElementSelected (selection : list T) (explicit changed multi : bool)
  | SwipeLeft (e : T) (p : PromiseRef)
  | SwipeRight (e : T) (p : PromiseRef)
  | ConsoleLog (msg : string) (e : T)
  | AnimateFinish (ve : RowRef) (fromX toX : Z)
  | AnimateReset (ve : RowRef) (fromX : Z).

Record MouseEvent := { metaKey : bool; ctrlKey : bool; shiftKey : bool }.

(** [changedTouches[0]] of a [TouchEvent]. *)
Record TouchEvent := { clientX : Z; clientY : Z }.

Record World := {
  (* the fields of the List *)
  _config : ListConfig;
  _loadedEntities : list T;
  _virtualList : list RowRef;
  _width : Z;
  _loadedCompletely : bool;
  _loading : PromiseRef;
  currentPosition : Z;
  lastPosition : Z;
  updateLater : bool;
  _visibleElementsHeight : Z;
  bufferHeight : Z;
  ready : bool;
  _selectedEntities : list T;
  _idOfEntityToSelectWhenReceived : option Id;
  (* the fields of the SwipeHandler *)
  startPos : Z * Z;
  virtualElement : option RowRef;
  xoffset : Z;
  (* the row objects and the promises, by reference *)
  rows : list VirtualRow;
  promises : list PromiseState;
  (* the environment: _domListContainer.scrollTop (None before _init),
     touchArea.getBoundingClientRect().top, client.isMacOS *)
  scrollTop : option Z;
  touchAreaTop : Z;
  isMacOS : bool;
  (* the outbound calls, oldest first *)
  trace : list Effect
}.

Definition set_loadedEntities (v : list T) (w : World) : World :=
  {| _config := _config w; _loadedEntities := v; _virtualList := _virtualList w;
     _width := _width w; _loadedCompletely := _loadedCompletely w;
     _loading := _loading w; currentPosition := currentPosition w;
     lastPosition := lastPosition w; updateLater := updateLater w;
     _visibleElementsHeight := _visibleElementsHeight w; bufferHeight := bufferHeight w;
     ready := ready w; _selectedEntities := _selectedEntities w;
     _idOfEntityToSelectWhenReceived := _idOfEntityToSelectWhenReceived w;
     startPos := startPos w; virtualElement := virtualElement w; xoffset := xoffset w;
     rows := rows w; promises := promises w; scrollTop := scrollTop w;
     touchAreaTop := touchAreaTop w; isMacOS := isMacOS w; trace := trace w |}.

Definition set_virtualList (v : list RowRef) (w : World) : World :=
  {| _config := _config w; _loadedEntities := _loadedEntities w; _virtualList := v;
     _width := _width w; _loadedCompletely := _loadedCompletely w;
     _loading := _loading w; currentPosition := currentPosition w;
     lastPosition := lastPosition w; updateLater := updateLater w;
     _visibleElementsHeight := _visibleElementsHeight w; bufferHeight := bufferHeight w;
     ready := ready w; _selectedEntities := _selectedEntities w;
     _idOfEntityToSelectWhenReceived := _idOfEntityToSelectWhenReceived w;
     startPos := startPos w; virtualElement := virtualElement w; xoffset := xoffset w;
     rows := rows w; promises := promises w; scrollTop := scrollTop w;
     touchAreaTop := touchAreaTop w; isMacOS := isMacOS w; trace := trace w |}.

Definition set_width (v : Z) (w : World) : World :=
  {| _config := _config w; _loadedEntities := _loadedEntities w;
     _virtualList := _virtualList w; _width := v;
     _loadedCompletely := _loadedCompletely w; _loading := _loading w;
     currentPosition := currentPosition w; lastPosition := lastPosition w;
     updateLater := updateLater w; _visibleElementsHeight := _visibleElementsHeight w;
     bufferHeight := bufferHeight w; ready := ready w;
     _selectedEntities := _selectedEntities w;
     _idOfEntityToSelectWhenReceived := _idOfEntityToSelectWhenReceived w;
     startPos := startPos w; virtualElement := virtualElement w; xoffset := xoffset w;
     rows := rows w; promises := promises w; scrollTop := scrollTop w;
     touchAreaTop := touchAreaTop w; isMacOS := isMacOS w; trace := trace w |}.

Definition set_loadedCompletely (v : bool) (w : World) : World :=
  {| _config := _config w; _loadedEntities := _loadedEntities w;
     _virtualList := _virtualList w; _width := _width w; _loadedCompletely := v;
     _loading := _loading w; currentPosition := currentPosition w;
     lastPosition := lastPosition w; updateLater := updateLater w;
     _visibleElementsHeight := _visibleElementsHeight w; bufferHeight := bufferHeight w;
     ready := ready w; _selectedEntities := _selectedEntities w;
     _idOfEntityToSelectWhenReceived := _idOfEntityToSelectWhenReceived w;
     startPos := startPos w; virtualElement := virtualElement w; xoffset := xoffset w;
     rows := rows w; promises := promises w; scrollTop := scrollTop w;
     touchAreaTop := touchAreaTop w; isMacOS := isMacOS w; trace := trace w |}.

Definition set_loading (v : PromiseRef) (w : World) : World :=
  {| _config := _config w; _loadedEntities := _loadedEntities w;
     _virtualList := _virtualList w; _width := _width w;
     _loadedCompletely := _loadedCompletely w; _loading := v;
     currentPosition := currentPosition w; lastPosition := lastPosition w;
     updateLater := updateLater w; _visibleElementsHeight := _visibleElementsHeight w;
     bufferHeight := bufferHeight w; ready := ready w;
     _selectedEntities := _selectedEntities w;
     _idOfEntityToSelectWhenReceived := _idOfEntityToSelectWhenReceived w;
     startPos := startPos w; virtualElement := virtualElement w; xoffset := xoffset w;
     rows := rows w; promises := promises w; scrollTop := scrollTop w;
     touchAreaTop := touchAreaTop w; isMacOS := isMacOS w; trace := trace w |}.

Definition set_currentPosition (v : Z) (w : World) : World :=
  {| _config := _config w; _loadedEntities := _loadedEntities w;
     _virtualList := _virtualList w; _width := _width w;
     _loadedCompletely := _loadedCompletely w; _loading := _loading w;
     currentPosition := v; lastPosition := lastPosition w; updateLater := updateLater w;
     _visibleElementsHeight := _visibleElementsHeight w; bufferHeight := bufferHeight w;
     ready := ready w; _selectedEntities := _selectedEntities w;
     _idOfEntityToSelectWhenReceived := _idOfEntityToSelectWhenReceived w;
     startPos := startPos w; virtualElement := virtualElement w; xoffset := xoffset w;
     rows := rows w; promises := promises w; scrollTop := scrollTop w;
     touchAreaTop := touchAreaTop w; isMacOS := isMacOS w; trace := trace w |}.

Definition set_lastPosition (v : Z) (w : World) : World :=
  {| _config := _config w; _loadedEntities := _loadedEntities w;
     _virtualList := _virtualList w; _width := _width w;
     _loadedCompletely := _loadedCompletely w; _loading := _loading w;
     currentPosition := currentPosition w; lastPosition := v;
     updateLater := updateLater w; _visibleElementsHeight := _visibleElementsHeight w;
     bufferHeight := bufferHeight w; ready := ready w;
     _selectedEntities := _selectedEntities w;
     _idOfEntityToSelectWhenReceived := _idOfEntityToSelectWhenReceived w;
     startPos := startPos w; virtualElement := virtualElement w; xoffset := xoffset w;
     rows := rows w; promises := promises w; scrollTop := scrollTop w;
     touchAreaTop := touchAreaTop w; isMacOS := isMacOS w; trace := trace w |}.

Definition set_updateLater (v : bool) (w : World) : World :=
  {| _config := _config w; _loadedEntities := _loadedEntities w;
     _virtualList := _virtualList w; _width := _width w;
     _loadedCompletely := _loadedCompletely w; _loading := _loading w;
     currentPosition := currentPosition w; lastPosition := lastPosition w;
     updateLater := v; _visibleElementsHeight := _visibleElementsHeight w;
     bufferHeight := bufferHeight w; ready := ready w;
     _selectedEntities := _selectedEntities w;
     _idOfEntityToSelectWhenReceived := _idOfEntityToSelectWhenReceived w;
     startPos := startPos w; virtualElement := virtualElement w; xoffset := xoffset w;
     rows := rows w; promises := promises w; scrollTop := scrollTop w;
     touchAreaTop := touchAreaTop w; isMacOS := isMacOS w; trace := trace w |}.

Definition set_visibleElementsHeight (v : Z) (w : World) : World :=
  {| _config := _config w; _loadedEntities := _loadedEntities w;
     _virtualList := _virtualList w; _width := _width w;
     _loadedCompletely := _loadedCompletely w; _loading := _loading w;
     currentPosition := currentPosition w; lastPosition := lastPosition w;
     updateLater := updateLater w; _visibleElementsHeight := v;
     bufferHeight := bufferHeight w; ready := ready w;
     _selectedEntities := _selectedEntities w;
     _idOfEntityToSelectWhenReceived := _idOfEntityToSelectWhenReceived w;
     startPos := startPos w; virtualElement := virtualElement w; xoffset := xoffset w;
     rows := rows w; promises := promises w; scrollTop := scrollTop w;
     touchAreaTop := touchAreaTop w; isMacOS := isMacOS w; trace := trace w |}.

Definition set_ready (v : bool) (w : World) : World :=
  {| _config := _config w; _loadedEntities := _loadedEntities w;
     _virtualList := _virtualList w; _width := _width w;
     _loadedCompletely := _loadedCompletely w; _loading := _loading w;
     currentPosition := currentPosition w; lastPosition := lastPosition w;
     updateLater := updateLater w; _visibleElementsHeight := _visibleElementsHeight w;
     bufferHeight := bufferHeight w; ready := v;
     _selectedEntities := _selectedEntities w;
     _idOfEntityToSelectWhenReceived := _idOfEntityToSelectWhenReceived w;
     startPos := startPos w; virtualElement := virtualElement w; xoffset := xoffset w;
     rows := rows w; promises := promises w; scrollTop := scrollTop w;
     touchAreaTop := touchAreaTop w; isMacOS := isMacOS w; trace := trace w |}.

Definition set_selectedEntities (v : list T) (w : World) : World :=
  {| _config := _config w; _loadedEntities := _loadedEntities w;
     _virtualList := _virtualList w; _width := _width w;
     _loadedCompletely := _loadedCompletely w; _loading := _loading w;
     currentPosition := currentPosition w; lastPosition := lastPosition w;
     updateLater := updateLater w; _visibleElementsHeight := _visibleElementsHeight w;
     bufferHeight := bufferHeight w; ready := ready w; _selectedEntities := v;
     _idOfEntityToSelectWhenReceived := _idOfEntityToSelectWhenReceived w;
     startPos := startPos w; virtualElement := virtualElement w; xoffset := xoffset w;
     rows := rows w; promises := promises w; scrollTop := scrollTop w;
     touchAreaTop := touchAreaTop w; isMacOS := isMacOS w; trace := trace w |}.

Definition set_idOfEntityToSelectWhenReceived (v : option Id) (w : World) : World :=
  {| _config := _config w; _loadedEntities := _loadedEntities w;
     _virtualList := _virtualList w; _width := _width w;
     _loadedCompletely := _loadedCompletely w; _loading := _loading w;
     currentPosition := currentPosition w; lastPosition := lastPosition w;
     updateLater := updateLater w; _visibleElementsHeight := _visibleElementsHeight w;
     bufferHeight := bufferHeight w; ready := ready w;
     _selectedEntities := _selectedEntities w; _idOfEntityToSelectWhenReceived := v;
     startPos := startPos w; virtualElement := virtualElement w; xoffset := xoffset w;
     rows := rows w; promises := promises w; scrollTop := scrollTop w;
     touchAreaTop := touchAreaTop w; isMacOS := isMacOS w; trace := trace w |}.

Definition set_startPos (v : Z * Z) (w : World) : World :=
  {| _config := _config w; _loadedEntities := _loadedEntities w;
     _virtualList := _virtualList w; _width := _width w;
     _loadedCompletely := _loadedCompletely w; _loading := _loading w;
     currentPosition := currentPosition w; lastPosition := lastPosition w;
     updateLater := updateLater w; _visibleElementsHeight := _visibleElementsHeight w;
     bufferHeight := bufferHeight w; ready := ready w;
     _selectedEntities := _selectedEntities w;
     _idOfEntityToSelectWhenReceived := _idOfEntityToSelectWhenReceived w;
     startPos := v; virtualElement := virtualElement w; xoffset := xoffset w;
     rows := rows w; promises := promises w; scrollTop := scrollTop w;
     touchAreaTop := touchAreaTop w; isMacOS := isMacOS w; trace := trace w |}.

Definition set_virtualElement (v : option RowRef) (w : World) : World :=
  {| _config := _config w; _loadedEntities := _loadedEntities w;
     _virtualList := _virtualList w; _width := _width w;
     _loadedCompletely := _loadedCompletely w; _loading := _loading w;
     currentPosition := currentPosition w; lastPosition := lastPosition w;
     updateLater := updateLater w; _visibleElementsHeight := _visibleElementsHeight w;
     bufferHeight := bufferHeight w; ready := ready w;
     _selectedEntities := _selectedEntities w;
     _idOfEntityToSelectWhenReceived := _idOfEntityToSelectWhenReceived w;
     startPos := startPos w; virtualElement := v; xoffset := xoffset w; rows := rows w;
     promises := promises w; scrollTop := scrollTop w; touchAreaTop := touchAreaTop w;
     isMacOS := isMacOS w; trace := trace w |}.

Definition set_xoffset (v : Z) (w : World) : World :=
  {| _config := _config w; _loadedEntities := _loadedEntities w;
     _virtualList := _virtualList w; _width := _width w;
     _loadedCompletely := _loadedCompletely w; _loading := _loading w;
     currentPosition := currentPosition w; lastPosition := lastPosition w;
     updateLater := updateLater w; _visibleElementsHeight := _visibleElementsHeight w;
     bufferHeight := bufferHeight w; ready := ready w;
     _selectedEntities := _selectedEntities w;
     _idOfEntityToSelectWhenReceived := _idOfEntityToSelectWhenReceived w;
     startPos := startPos w; virtualElement := virtualElement w; xoffset := v;
     rows := rows w; promises := promises w; scrollTop := scrollTop w;
     touchAreaTop := touchAreaTop w; isMacOS := isMacOS w; trace := trace w |}.

Definition set_rows (v : list VirtualRow) (w : World) : World :=
  {| _config := _config w; _loadedEntities := _loadedEntities w;
     _virtualList := _virtualList w; _width := _width w;
     _loadedCompletely := _loadedCompletely w; _loading := _loading w;
     currentPosition := currentPosition w; lastPosition := lastPosition w;
     updateLater := updateLater w; _visibleElementsHeight := _visibleElementsHeight w;
     bufferHeight := bufferHeight w; ready := ready w;
     _selectedEntities := _selectedEntities w;
     _idOfEntityToSelectWhenReceived := _idOfEntityToSelectWhenReceived w;
     startPos := startPos w; virtualElement := virtualElement w; xoffset := xoffset w;
     rows := v; promises := promises w; scrollTop := scrollTop w;
     touchAreaTop := touchAreaTop w; isMacOS := isMacOS w; trace := trace w |}.

Definition set_promises (v : list PromiseState) (w : World) : World :=
  {| _config := _config w; _loadedEntities := _loadedEntities w;
     _virtualList := _virtualList w; _width := _width w;
     _loadedCompletely := _loadedCompletely w; _loading := _loading w;
     currentPosition := currentPosition w; lastPosition := lastPosition w;
     updateLater := updateLater w; _visibleElementsHeight := _visibleElementsHeight w;
     bufferHeight := bufferHeight w; ready := ready w;
     _selectedEntities := _selectedEntities w;
     _idOfEntityToSelectWhenReceived := _idOfEntityToSelectWhenReceived w;
     startPos := startPos w; virtualElement := virtualElement w; xoffset := xoffset w;
     rows := rows w; promises := v; scrollTop := scrollTop w;
     touchAreaTop := touchAreaTop w; isMacOS := isMacOS w; trace := trace w |}.

Definition set_scrollTop (v : option Z) (w : World) : World :=
  {| _config := _config w; _loadedEntities := _loadedEntities w;
     _virtualList := _virtualList w; _width := _width w;
     _loadedCompletely := _loadedCompletely w; _loading := _loading w;
     currentPosition := currentPosition w; lastPosition := lastPosition w;
     updateLater := updateLater w; _visibleElementsHeight := _visibleElementsHeight w;
     bufferHeight := bufferHeight w; ready := ready w;
     _selectedEntities := _selectedEntities w;
     _idOfEntityToSelectWhenReceived := _idOfEntityToSelectWhenReceived w;
     startPos := startPos w; virtualElement := virtualElement w; xoffset := xoffset w;
     rows := rows w; promises := promises w; scrollTop := v;
     touchAreaTop := touchAreaTop w; isMacOS := isMacOS w; trace := trace w |}.

Definition set_trace (v : list Effect) (w : World) : World :=
  {| _config := _config w; _loadedEntities := _loadedEntities w;
     _virtualList := _virtualList w; _width := _width w;
     _loadedCompletely := _loadedCompletely w; _loading := _loading w;
     currentPosition := currentPosition w; lastPosition := lastPosition w;
     updateLater := updateLater w; _visibleElementsHeight := _visibleElementsHeight w;
     bufferHeight := bufferHeight w; ready := ready w;
     _selectedEntities := _selectedEntities w;
     _idOfEntityToSelectWhenReceived := _idOfEntityToSelectWhenReceived w;
     startPos := startPos w; virtualElement := virtualElement w; xoffset := xoffset w;
     rows := rows w; promises := promises w; scrollTop := scrollTop w;
     touchAreaTop := touchAreaTop w; isMacOS := isMacOS w; trace := v |}.

(** ** The monad of methods *)

(** A call returns, throws, or leaves the model (see the header). *)
Inductive Outcome (A : Type) :=
  | Returns (a : A) (w : World)
  | Throws (msg : string) (w : World)
  | Unrepresented.
Global Arguments Returns {A} a w.
Global Arguments Throws {A} msg w.
Global Arguments Unrepresented {A}.

Definition M (A : Type) : Type := World → Outcome A.

Definition ret {A} (a : A) : M A := λ w, Returns a w.

Definition bind {A B} (m : M A) (f : A → M B) : M B := λ w,
  match m w with
  | Returns a w' => f a w'
  | Throws msg w' => Throws msg w'
  | Unrepresented => Unrepresented
  end.

Definition throw {A} (msg : string) : M A := λ w, Throws msg w.
Definition unrepresented {A} : M A := λ _, Unrepresented.
Definition get : M World := λ w, Returns w w.
Definition modify (f : World → World) : M unit := λ w, Returns tt (f w).

(** An outbound call. *)
Definition emit (e : Effect) : M unit := modify (λ w, set_trace (trace w ++ [e]) w).

(** A callback run by a promise: an exception rejects the promise instead of
    propagating.  The result says whether the callback returned. *)
Definition settled (m : M unit) : M bool := λ w,
  match m w with
  | Returns _ w' => Returns true w'
  | Throws _ w' => Returns false w'
  | Unrepresented => Unrepresented
  end.

End Model.

Global Arguments ListConfig T : clear implicits.
Global Arguments World T : clear implicits.
Global Arguments VirtualRow T : clear implicits.
Global Arguments Effect T : clear implicits.
Global Arguments Continuation T : clear implicits.
Global Arguments AfterLoading T : clear implicits.
Global Arguments PromiseState T : clear implicits.
Global Arguments Outcome T A : clear implicits.
Global Arguments M T A : clear implicits.

Global Instance M_ret {T} `{Entity T} : MRet (M T) := λ A a, ret a.
Global Instance M_bind {T} `{Entity T} : MBind (M T) := λ A B f m, bind m f.

(** ** The methods of [List] *)

Section Methods.
Context {T : Type} `{Entity T}.

(** Dereferences.  A reference without a row reads as [undefined], and the
    access to a field of it throws. *)
Definition readRow (r : RowRef) : M T (VirtualRow T) :=
  w ← get;
  match rows w !! r with
  | Some row => mret row
  | None => throw "TypeError: the row is undefined"
  end.

Definition writeRow (r : RowRef) (row : VirtualRow T) : M T unit :=
  modify (λ w, set_rows (<[r := row]> (rows w)) w).

(** A new promise with its continuation. *)
Definition newPromise (k : Continuation T) : M T PromiseRef :=
  w ← get;
  modify (set_promises (promises w ++ [Pending k]));;
  mret (length (promises w)).

Definition settle (p : PromiseRef) (ok : bool) : M T unit :=
  modify (λ w, set_promises (<[p := if ok then Fulfilled else Rejected]> (promises w)) w).

(** [promise.isFulfilled()] *)
Definition isFulfilled (w : World T) (p : PromiseRef) : bool :=
  match promises w !! p with
  | Some Fulfilled => true
  | _ => false
  end.

(** [arr.find(e => getLetId(e)[1] == id)] *)
Definition findById (arr : list T) (id : Id) : option T :=
  snd <$> list_find (λ e, elementId e = id) arr.

Definition getEntity (w : World T) (id : Id) : option T :=
  findById (_loadedEntities w) id.

Definition isEntitySelected (w : World T) (id : Id) : bool :=
  bool_decide (is_Some (findById (_selectedEntities w) id)).

(** Returns a copy; lists are values. *)
Definition getSelectedEntities (w : World T) : list T := _selectedEntities w.

(** [this._config.elementSelected(this.getSelectedEntities(), ...)] *)
Definition elementSelected (explicit changed multi : bool) : M T unit :=
  w ← get;
  emit (ElementSelected (getSelectedEntities w) explicit changed multi).

Definition rowHeightZ (w : World T) : Z := Z.pos (rowHeight (_config w)).

(** [_getListElement(row.top / rowHeight)] *)
Definition _getListElement (w : World T) (index : option Z) : option T :=
  i ← index; js_get (_loadedEntities w) i.

Definition setLoadedCompletely : M T unit :=
  modify (set_loadedCompletely true).

(** [_updateVirtualRow(row, entity, odd)] *)
Definition _updateVirtualRow (r : RowRef) (e : option T) (odd : bool) : M T unit :=
  row ← readRow r;
  w ← get;
  writeRow r {| top := top row; entity := e; domElement := domElement row;
                updated := updated row |};;
  match domElement row with
  | None => throw "TypeError: row.domElement is undefined"
  | Some dom =>
      writeRow r
        {| top := top row;
           entity := e;
           domElement :=
             Some {| offsetHeight := offsetHeight dom;
                     oddRow := negb odd;
                     displayed := bool_decide (is_Some e) |};
           updated :=
             match e with
             | Some x => Some (x, isEntitySelected w (elementId x))
             | None => updated row
             end |}
  end.

(** The loop of [_reposition] over [this._virtualList]. *)
Fixpoint _reposition_rows (rs : list RowRef) (nextPosition : Z) : M T unit :=
  match rs with
  | [] => mret tt
  | r :: rs' =>
      row ← readRow r;
      w ← get;
      writeRow r {| top := nextPosition; entity := entity row;
                    domElement := domElement row; updated := updated row |};;
      match domElement row with
      | None => throw "undefined dom element for virtual dom element"
      | Some _ =>
          _updateVirtualRow r
            (_getListElement w (js_div_index nextPosition (rowHeight (_config w))))
            (js_div_odd nextPosition (rowHeight (_config w)));;
          _reposition_rows rs' (nextPosition + rowHeightZ w)
      end
  end.

(** The first offset [_reposition] gives to the pool. *)
Definition startPosition (w : World T) (scroll : Z) : Z :=
  let rowHeight := rowHeightZ w in
  let maxStartPosition :=
    rowHeight * Z.of_nat (length (_loadedEntities w)) - bufferHeight w * 2
    - _visibleElementsHeight w in
  let nextPosition := scroll - Z.rem scroll rowHeight - bufferHeight w in
  if bool_decide (nextPosition < 0) then 0
  else if bool_decide (nextPosition > maxStartPosition) then maxStartPosition
  else nextPosition.

Definition _reposition : M T unit :=
  w ← get;
  match scrollTop w with
  | None => throw "TypeError: this._domListContainer is undefined"
  | Some scroll =>
      modify (set_currentPosition scroll);;
      _reposition_rows (_virtualList w) (startPosition w scroll);;
      modify (set_updateLater false)
  end.

Definition redraw : M T unit := _reposition.

Definition _entitySelected (e : T) (addToSelection : bool) : M T unit :=
  w ← get;
  if addToSelection then
    if bool_decide (js_indexOf (_selectedEntities w) e = -1) then
      modify (set_selectedEntities
                (js_sort (sortCompare (_config w)) (_selectedEntities w ++ [e])));;
      _reposition;;
      elementSelected false true true
    else mret tt
  else
    let selectionChanged :=
      bool_decide (length (_selectedEntities w) ≠ 1%nat)
      || bool_decide (_selectedEntities w !! 0%nat ≠ Some e) in
    (if selectionChanged then
       modify (set_selectedEntities [e]);; _reposition
     else mret tt);;
    elementSelected false selectionChanged false.

(** The loop of [_scrollToLoadedEntityAndSelect] over the pool: whether the
    first row bound to [scrollTarget] lies inside the visible part. *)
Fixpoint isVisible (rs : list RowRef) (scrollTarget : T) : M T bool :=
  match rs with
  | [] => mret false
  | r :: rs' =>
      row ← readRow r;
      w ← get;
      if bool_decide (entity row = Some scrollTarget) then
        mret (bool_decide (top row - currentPosition w > 0)
              && bool_decide (top row - currentPosition w
                              < _visibleElementsHeight w - rowHeightZ w))
      else isVisible rs' scrollTarget
  end.

Definition _scrollToLoadedEntityAndSelect (scrollTarget : T) (addToSelection : bool)
  : M T unit :=
  w ← get;
  visible ← isVisible (_virtualList w) scrollTarget;
  if visible : bool then _entitySelected scrollTarget addToSelection
  else
    match scrollTop w with
    | None => throw "TypeError: this._domListContainer is undefined"
    | Some _ =>
        modify (set_scrollTop
                  (Some (js_indexOf (_loadedEntities w) scrollTarget * rowHeightZ w)));;
        _entitySelected scrollTarget addToSelection
    end.

(** The loop of [_elementClicked] that looks for the selected entity nearest
    to the clicked one; [None] is [null]. *)
Fixpoint nearestSelected (loaded : list T) (clickedItemIndex : Z) (selected : list T)
    (nearestSelectedIndex : option Z) : option Z :=
  match selected with
  | [] => nearestSelectedIndex
  | s :: selected' =>
      let currentSelectedItemIndex := js_indexOf loaded s in
      nearestSelected loaded clickedItemIndex selected'
        (match nearestSelectedIndex with
         | None => Some currentSelectedItemIndex
         | Some n =>
             if bool_decide (Z.abs (clickedItemIndex - currentSelectedItemIndex)
                             < Z.abs (clickedItemIndex - n))
             then Some currentSelectedItemIndex else Some n
         end)
  end.

(** [neverNull] of api/common/utils/Utils returns its argument; a [null]
    counts as 0 in the comparisons and sums that follow. *)
Definition neverNull (n : option Z) : Z := default 0 n.

(** [itemsToAddToSelection] of [_elementClicked]. *)
Definition itemsToAddToSelection (loaded : list T) (clickedItemIndex : Z)
    (nearestSelectedIndex : option Z) : option (list T) :=
  let nearest := neverNull nearestSelectedIndex in
  if bool_decide (nearest < clickedItemIndex) then
    js_collect loaded (nearest + 1) (Z.to_nat (clickedItemIndex - nearest))
  else
    js_collect loaded clickedItemIndex (Z.to_nat (nearest - clickedItemIndex)).

(** The end of [_elementClicked], after the branches have set
    [selectionChanged] and [multiSelect]. *)
Definition _elementClicked_end (selectionChanged multiSelect : bool) : M T unit :=
  (if selectionChanged then
     w ← get;
     modify (set_selectedEntities
               (js_sort (sortCompare (_config w)) (_selectedEntities w)));;
     _reposition
   else mret tt);;
  elementSelected true selectionChanged multiSelect.

Definition _elementClicked (clickedEntity : T) (event : MouseEvent) : M T unit :=
  w ← get;
  let mobileMultiSelectionActive := false in
  let selected := _selectedEntities w in
  if multiSelectionAllowed (_config w)
     && (mobileMultiSelectionActive
         || (if isMacOS w then metaKey event else ctrlKey event)) then
    (if bool_decide (js_indexOf selected clickedEntity ≠ -1) then
       modify (set_selectedEntities (remove selected clickedEntity).2)
     else
       modify (set_selectedEntities (selected ++ [clickedEntity])));;
    _elementClicked_end true true
  else if multiSelectionAllowed (_config w) && shiftKey event then
    if bool_decide (length selected = 0%nat) then
      modify (set_selectedEntities (selected ++ [clickedEntity]));;
      _elementClicked_end true true
    else if bool_decide (length selected = 1%nat)
            && bool_decide (selected !! 0%nat = Some clickedEntity) then
      _elementClicked_end false true
    else
      let clickedItemIndex := js_indexOf (_loadedEntities w) clickedEntity in
      let nearestSelectedIndex :=
        nearestSelected (_loadedEntities w) clickedItemIndex selected None in
      match itemsToAddToSelection (_loadedEntities w) clickedItemIndex
              nearestSelectedIndex with
      | None => unrepresented
      | Some items =>
          modify (set_selectedEntities (addAll selected items));;
          _elementClicked_end (bool_decide (0 < length items)%nat) true
      end
  else
    if negb (arrayEquals selected [clickedEntity]) then
      modify (set_selectedEntities [clickedEntity]);;
      _elementClicked_end true false
    else _elementClicked_end false false.

(** [_loadMore()]: the call of [fetch]; [this._loading] becomes the promise
    that [_loadMore_settled] settles. *)
Definition _loadMore : M T PromiseRef :=
  w ← get;
  let start := length (_loadedEntities w) in
  let startId :=
    match last (_loadedEntities w) with   (* loaded[loaded.length - 1] *)
    | None => GENERATED_MAX_ID            (* loaded.length === 0 *)
    | Some e => elementId e
    end in
  let count := PageSize in
  p ← newPromise (K_loadMore start count);
  emit (Fetch startId count p);;
  modify (set_loading p);;
  mret p.

(** The [then] callback of [_loadMore], with the [start] and [count] it has
    captured. *)
Definition _loadMore_then (start count : nat) (newItems : list T) : M T unit :=
  (if bool_decide (length newItems < count)%nat then setLoadedCompletely else mret tt);;
  w ← get;
  match js_put_from (_loadedEntities w) start newItems with
  | None => unrepresented
  | Some loaded =>
      modify (set_loadedEntities (js_sort (sortCompare (_config w)) loaded))
  end.

(** The [finally] callback of [_loadMore]. *)
Definition _loadMore_finally : M T unit :=
  w ← get;
  if ready w then _reposition else mret tt.

(** The promise [p] of a [fetch] settles: with a page ([Some]) or with a
    failure ([None]).  [p] is fulfilled when both callbacks return. *)
Definition _loadMore_settled (p : PromiseRef) (page : option (list T)) : M T unit :=
  w ← get;
  match promises w !! p with
  | Some (Pending (K_loadMore start count)) =>
      ok1 ← match page with
            | Some newItems => settled (_loadMore_then start count newItems)
            | None => mret false
            end;
      ok2 ← settled _loadMore_finally;
      settle p (ok1 && ok2)
  | _ => mret tt
  end.

(** [_scroll()], as far as the store and the pagination go: the statements
    that decide on loading the next page, and the assignment of
    [lastPosition].  What follows in the source shifts rows of the pool or
    calls [_reposition]; it reads the loaded entities, writes rows,
    [updateLater] and a timer, and calls neither [fetch] nor a callback of
    the configuration.  The whole method is [_scroll_all] below. *)
Definition _scroll : M T unit :=
  w ← get;
  let lastBunchVisible :=
    bool_decide (currentPosition w
                 > Z.of_nat (length (_loadedEntities w)) * rowHeightZ w
                   - _visibleElementsHeight w * 2) in
  (if lastBunchVisible && isFulfilled w (_loading w) && negb (_loadedCompletely w)
   then _loadMore;; mret tt
   else mret tt);;
  modify (set_lastPosition (currentPosition w)).

(** The scroll listener of [_init]: the browser has moved the container to
    [scroll]; the frame the listener requests is run at once. *)
Definition onScroll (scroll : Z) : M T unit :=
  modify (set_scrollTop (Some scroll));;
  modify (set_currentPosition scroll);;
  w ← get;
  if bool_decide (lastPosition w ≠ currentPosition w) then _scroll else mret tt.

(** The loop of [_scroll] for scrolling down: while the first row of the
    pool is above the buffer and the last row is not the row of the last
    loaded entity, the first row is moved below the last one and bound to
    the entity there.  [topElement] is the variable of the source;
    [bottomElement], which this loop assigns and never reads, is left out.
    The result tells whether the loop has ended within [fuel] iterations. *)
Fixpoint _scroll_down (fuel : nat) (topElement : RowRef) : M T bool :=
  match fuel with
  | O => mret false
  | S fuel' =>
      w ← get;
      topRow ← readRow topElement;
      if bool_decide (top topRow + rowHeightZ w < currentPosition w - bufferHeight w) then
        match last (_virtualList w) with
        | None => throw "TypeError: the last row is undefined"
        | Some lastElement =>
            lastRow ← readRow lastElement;
            if bool_decide (top lastRow
                            < rowHeightZ w * Z.of_nat (length (_loadedEntities w))
                              - rowHeightZ w) then
              let nextPosition := top lastRow + rowHeightZ w in
              if bool_decide (nextPosition < currentPosition w) then
                _reposition;;
                _scroll_down fuel' topElement
              else
                writeRow topElement {| top := nextPosition; entity := entity topRow;
                                       domElement := domElement topRow;
                                       updated := updated topRow |};;
                _updateVirtualRow topElement
                  (_getListElement w (js_div_index nextPosition (rowHeight (_config w))))
                  (js_div_odd nextPosition (rowHeight (_config w)));;
                (* this._virtualList.push(this._virtualList.shift()) *)
                match _virtualList w with
                | first :: rest =>
                    modify (set_virtualList (rest ++ [first]));;
                    match (rest ++ [first]) !! 0%nat with
                    | Some topElement' => _scroll_down fuel' topElement'
                    | None => unrepresented
                    end
                | [] => unrepresented
                end
            else mret true
        end
      else mret true
  end.

(** The loop of [_scroll] for scrolling up: while the last row is below the
    buffer and the first row is not at the top, the last row is moved above
    the first one. *)
Fixpoint _scroll_up (fuel : nat) (topElement bottomElement : RowRef) : M T bool :=
  match fuel with
  | O => mret false
  | S fuel' =>
      w ← get;
      bottomRow ← readRow bottomElement;
      if bool_decide (top bottomRow
                      > currentPosition w + _visibleElementsHeight w + bufferHeight w) then
        topRow ← readRow topElement;
        if bool_decide (top topRow > 0) then
          match _virtualList w !! 0%nat with
          | None => throw "TypeError: the first row is undefined"
          | Some firstElement =>
              firstRow ← readRow firstElement;
              let nextPosition := top firstRow - rowHeightZ w in
              if bool_decide (nextPosition > currentPosition w) then
                _reposition;;
                _scroll_up fuel' topElement bottomElement
              else
                writeRow bottomElement {| top := nextPosition; entity := entity bottomRow;
                                          domElement := domElement bottomRow;
                                          updated := updated bottomRow |};;
                _updateVirtualRow bottomElement
                  (_getListElement w (js_div_index nextPosition (rowHeight (_config w))))
                  (js_div_odd nextPosition (rowHeight (_config w)));;
                (* this._virtualList.unshift(this._virtualList.pop()) *)
                match last (_virtualList w) with
                | Some popped =>
                    let rotated := popped :: take (length (_virtualList w) - 1) (_virtualList w) in
                    modify (set_virtualList rotated);;
                    match last rotated with
                    | Some bottomElement' => _scroll_up fuel' bottomElement bottomElement'
                    | None => unrepresented
                    end
                | None => unrepresented
                end
          end
        else mret true
      else mret true
  end.

(** [_scroll()], all of it.  [isDesktopDevice] is [client.isDesktopDevice()];
    [fuel] bounds the iterations of the two loops.  The status line and the
    timer of [repositionTimeout] are left out: the timer ends in a call of
    [_reposition], the event [E_redraw]. *)
Definition _scroll_all (isDesktopDevice : bool) (fuel : nat) : M T bool :=
  w ← get;
  let up := bool_decide (currentPosition w < lastPosition w) in
  let scrollDiff :=
    if up then lastPosition w - currentPosition w
    else currentPosition w - lastPosition w in
  let rowHeight := rowHeightZ w in
  let lastBunchVisible :=
    bool_decide (currentPosition w
                 > Z.of_nat (length (_loadedEntities w)) * rowHeightZ w
                   - _visibleElementsHeight w * 2) in
  (if lastBunchVisible && isFulfilled w (_loading w) && negb (_loadedCompletely w)
   then _loadMore;; mret tt
   else mret tt);;
  match _virtualList w !! 0%nat, last (_virtualList w) with
  | Some topElement, Some bottomElement =>
      topRow ← readRow topElement;
      bottomRow ← readRow bottomElement;
      let bufferUp := (currentPosition w - top topRow) `div` rowHeight in
      let bufferDown :=
        ((top bottomRow + rowHeight) - (currentPosition w + _visibleElementsHeight w))
          `div` rowHeight in
      modify (set_lastPosition (currentPosition w));;
      if updateLater w then
        if bool_decide (scrollDiff < 50) || bool_decide (currentPosition w = 0)
           || bool_decide (currentPosition w + _visibleElementsHeight w
                           = Z.of_nat (length (_loadedEntities w)) * rowHeight)
        then _reposition;; mret true
        else mret true
      else if bool_decide (bufferDown ≤ 5)
              && bool_decide (currentPosition w + _visibleElementsHeight w
                              < Z.of_nat (length (_loadedEntities w)) * rowHeight
                                - 6 * rowHeight)
              || bool_decide (bufferUp ≤ 5) && bool_decide (currentPosition w > 6 * rowHeight)
      then
        if isDesktopDevice then _reposition;; mret true
        else modify (set_updateLater true);; mret true
      else if negb up then _scroll_down fuel topElement
      else _scroll_up fuel topElement bottomElement
  | _, _ => throw "TypeError: topElement is undefined"
  end.

(** The scroll listener of [_init] with the whole of [_scroll] in the frame
    it requests.  When [fuel] does not suffice for the loops of [_scroll]
    the model says nothing about the turn. *)
Definition onScroll_all (isDesktopDevice : bool) (fuel : nat) (scroll : Z) : M T unit :=
  modify (set_scrollTop (Some scroll));;
  modify (set_currentPosition scroll);;
  w ← get;
  if bool_decide (lastPosition w ≠ currentPosition w) then
    ended ← _scroll_all isDesktopDevice fuel;
    if ended : bool then mret tt else unrepresented
  else mret tt.

Definition _addToLoadedEntities (e : T) : M T unit :=
  w ← get;
  match list_find (λ x, elementId e = elementId x) (_loadedEntities w) with
  | Some _ => emit (ConsoleLog "entity already in list" e)
  | None =>
      modify (set_loadedEntities
                (js_sort (sortCompare (_config w)) (_loadedEntities w ++ [e])));;
      (if ready w then _reposition else mret tt);;
      match _idOfEntityToSelectWhenReceived w with
      | Some id =>
          if bool_decide (id ≠ "") && bool_decide (id = elementId e) then
            modify (set_idOfEntityToSelectWhenReceived None);;
            _scrollToLoadedEntityAndSelect e false
          else mret tt
      | None => mret tt
      end
  end.

Definition _updateLoadedEntity (e : T) : M T unit :=
  w ← get;
  match list_find (λ x, elementId e = elementId x) (_loadedEntities w) with
  | Some (positionToUpdate, _) =>
      modify (set_loadedEntities
                (js_sort (sortCompare (_config w))
                   (js_splice1 (_loadedEntities w) positionToUpdate e)));;
      if ready w then _reposition else mret tt
  | None => mret tt
  end;;
  w ← get;
  match list_find (λ x, elementId e = elementId x) (_selectedEntities w) with
  | Some (i, _) => modify (set_selectedEntities (<[i := e]> (_selectedEntities w)))
  | None => mret tt
  end.

(** The callback of [_deleteLoadedEntity], run when the loading it waits for
    is fulfilled. *)
Definition _deleteLoadedEntity_then (id : Id) : M T unit :=
  w ← get;
  match findById (_loadedEntities w) id with
  | None => mret tt
  | Some e =>
      let loaded := _loadedEntities w in
      nextElementSelected ←
        (if bool_decide (length (_selectedEntities w) = 1%nat)
            && bool_decide (_selectedEntities w !! 0%nat = Some e)
            && bool_decide (1 < length loaded)%nat then
           match (if bool_decide (Some e = last_ loaded)
                  then js_get loaded (Z.of_nat (length loaded) - 2)
                  else js_get loaded (js_indexOf loaded e + 1)) with
           | Some nextSelection =>
               modify (set_selectedEntities (_selectedEntities w ++ [nextSelection]));;
               mret true
           | None => unrepresented
           end
         else mret false);
      modify (set_loadedEntities (remove loaded e).2);;
      w1 ← get;
      let selectionChanged := (remove (_selectedEntities w1) e).1 in
      modify (set_selectedEntities (remove (_selectedEntities w1) e).2);;
      (if ready w then _reposition else mret tt);;
      if selectionChanged then elementSelected false true (negb nextElementSelected)
      else mret tt
  end.

(** [_deleteLoadedEntity(elementId)]: the promise waits for [this._loading]. *)
Definition _deleteLoadedEntity (id : Id) : M T PromiseRef :=
  w ← get;
  newPromise (K_afterLoading (_loading w) (ApplyDelete id)).

(** The innermost callback of [entityEventReceived] for CREATE and UPDATE,
    run when the entity is there and the loading it waits for is fulfilled. *)
Definition entityEventReceived_then (operation : OperationTypeEnum) (newEntity : T)
  : M T unit :=
  w ← get;
  match operation with
  | CREATE =>
      if _loadedCompletely w then _addToLoadedEntities newEntity
      else
        match last_ (_loadedEntities w) with
        | Some l =>
            if bool_decide (0 < length (_loadedEntities w))%nat
               && bool_decide (sortCompare (_config w) newEntity l < 0)
            then _addToLoadedEntities newEntity
            else mret tt
        | None => mret tt
        end
  | UPDATE => _updateLoadedEntity newEntity
  | DELETE => mret tt
  end.

Definition entityEventReceived (id : Id) (operation : OperationTypeEnum)
  : M T PromiseRef :=
  match operation with
  | CREATE | UPDATE =>
      p ← newPromise (K_loadSingle operation);
      emit (LoadSingle id p);;
      mret p
  | DELETE => _deleteLoadedEntity id
  end.

(** [loadSingle] settles: without an entity the promise is fulfilled at
    once, with one it waits for [this._loading]. *)
Definition loadSingle_settled (p : PromiseRef) (result : option (option T)) : M T unit :=
  w ← get;
  match promises w !! p with
  | Some (Pending (K_loadSingle operation)) =>
      match result with
      | None => settle p false
      | Some None => settle p true
      | Some (Some e) =>
          modify (λ w, set_promises
             (<[p := Pending (K_afterLoading (_loading w) (ApplyCreateUpdate operation e))]>
                (promises w)) w)
      end
  | _ => mret tt
  end.

(** A promise that waits for a loading runs its callback once that loading
    is fulfilled, and is rejected with it. *)
Definition loading_settled (p : PromiseRef) : M T unit :=
  w ← get;
  match promises w !! p with
  | Some (Pending (K_afterLoading loading k)) =>
      match promises w !! loading with
      | Some Fulfilled =>
          ok ← settled (match k with
                        | ApplyCreateUpdate operation e => entityEventReceived_then operation e
                        | ApplyDelete id => _deleteLoadedEntity_then id
                        end);
          settle p ok
      | Some Rejected => settle p false
      | _ => mret tt
      end
  | _ => mret tt
  end.

(** [_createVirtualElements()]: the pool holds an even number of visible rows
    and the scroll buffer on both sides; [Math.ceil] of the quotient is the
    negated floor of the negated quotient. *)
Definition _createVirtualElements (clientHeight : Z) : M T unit :=
  w ← get;
  let visibleElements := 2 * - ((- clientHeight) `div` (2 * rowHeightZ w)) in
  let n := Z.to_nat (visibleElements + ScrollBuffer * 2) in
  modify (set_virtualList (seq (length (rows w)) n));;
  modify (set_visibleElementsHeight (visibleElements * rowHeightZ w));;
  modify (set_rows
            (rows w ++ map (λ i : nat, {| top := Z.of_nat i * rowHeightZ w; entity := None;
                                         domElement := None; updated := None |})
                         (seq 0 n))).

(** [_init(domElement)], up to the frames it requests. *)
Definition _init (clientWidth clientHeight : Z) : M T unit :=
  modify (set_scrollTop (Some 0));;
  modify (set_width clientWidth);;
  _createVirtualElements clientHeight.

(** [_initRow(virtualRow, domElement)] *)
Definition _initRow (r : RowRef) (dom : DomElement) : M T unit :=
  row ← readRow r;
  writeRow r {| top := top row; entity := entity row; domElement := Some dom;
                updated := updated row |}.

(** The second frame of [_init]. *)
Definition _init_frame : M T unit :=
  _reposition;;
  modify (set_ready true).

(** The constructor. *)
Definition newList (config : ListConfig T) (mac : bool) (touchTop : Z) : World T :=
  {| _config := config; _loadedEntities := []; _virtualList := []; _width := 0;
     _loadedCompletely := false; _loading := 0%nat; currentPosition := 0;
     lastPosition := 0; updateLater := false; _visibleElementsHeight := 0;
     bufferHeight := Z.pos (rowHeight config) * ScrollBuffer; ready := false;
     _selectedEntities := []; _idOfEntityToSelectWhenReceived := None;
     startPos := (0, 0); virtualElement := None; xoffset := 0;
     rows := []; promises := [Fulfilled];   (* this._loading = Promise.resolve() *)
     scrollTop := None; touchAreaTop := touchTop; isMacOS := mac; trace := [] |}.

(** ** The methods of [SwipeHandler] *)

Definition start (e : TouchEvent) : M T unit :=
  modify (set_startPos (clientX e, clientY e)).

Definition getDelta (w : World T) (e : TouchEvent) : Z * Z :=
  (clientX e - (startPos w).1, clientY e - (startPos w).2).

(** [this.list._virtualList.find(ve => ve.top === targetElementPosition)] *)
Fixpoint findRowAt (rs : list RowRef) (targetElementPosition : Z) : M T (option RowRef) :=
  match rs with
  | [] => mret None
  | r :: rs' =>
      row ← readRow r;
      if bool_decide (top row = targetElementPosition) then mret (Some r)
      else findRowAt rs' targetElementPosition
  end.

Definition getVirtualElement : M T (option RowRef) :=
  w ← get;
  match virtualElement w with
  | Some r => mret (Some r)
  | None =>
      let relativeYposition := currentPosition w + (startPos w).2 - touchAreaTop w in
      let targetElementPosition :=
        (relativeYposition `div` rowHeightZ w) * rowHeightZ w in
      found ← findRowAt (_virtualList w) targetElementPosition;
      modify (set_virtualElement found);;
      mret found
  end.

Definition reset : M T unit :=
  w ← get;
  (if bool_decide (xoffset w ≠ 0) then
     match virtualElement w with
     | Some r =>
         row ← readRow r;
         if bool_decide (is_Some (domElement row)) && bool_decide (is_Some (entity row))
         then emit (AnimateReset r (xoffset w))
         else mret tt
     | None => mret tt
     end;;
     modify (set_xoffset 0)
   else mret tt);;
  modify (set_virtualElement None).

Definition finish : M T unit :=
  w ← get;
  (if bool_decide (xoffset w ≠ 0) then
     match virtualElement w with
     | Some r =>
         let listTargetPosition :=
           if bool_decide (xoffset w < 0) then - _width w else _width w in
         emit (AnimateFinish r (xoffset w) listTargetPosition);;
         newPromise (K_swipeFinish r);;
         mret tt
     | None => throw "TypeError: ve is null"
     end
   else mret tt);;
  modify (set_virtualElement None).

(** [move(e)]; the frame it requests is run at once. *)
Definition move (e : TouchEvent) : M T unit :=
  w ← get;
  let delta := getDelta w e in
  if bool_decide (Z.abs delta.2 > 40) then reset
  else if bool_decide (Z.abs delta.1 > 10) && bool_decide (Z.abs delta.1 > Z.abs delta.2)
  then
    modify (set_xoffset (if bool_decide (delta.1 < 0)
                         then Z.max delta.1 (- ActionDistance)
                         else Z.min delta.1 ActionDistance));;
    getVirtualElement;;
    mret tt
  else mret tt.

(** [end(e)] *)
Definition end_ (e : TouchEvent) : M T unit :=
  w ← get;
  let delta := getDelta w e in
  match virtualElement w with
  | None => reset
  | Some r =>
      row ← readRow r;
      match entity row with
      | None => reset
      | Some x =>
          if bool_decide (Z.abs delta.1 > ActionDistance) then
            match domElement row with
            | None => throw "TypeError: domElement is undefined"
            | Some dom =>
                if bool_decide (Z.abs delta.2 < offsetHeight dom) then
                  p ← newPromise K_swipe;
                  emit (if bool_decide (delta.1 < 0) then SwipeLeft x p else SwipeRight x p);;
                  finish
                else reset
            end
          else reset
      end
  end.

Definition cancel : M T unit := reset.

(** The promise of a swipe action settles: [catch] redraws on a failure. *)
Definition swipe_settled (p : PromiseRef) (ok : bool) : M T unit :=
  w ← get;
  match promises w !! p with
  | Some (Pending K_swipe) =>
      if ok then settle p true
      else ok' ← settled redraw; settle p ok'
  | _ => mret tt
  end.

(** The animations of [finish] are over. *)
Definition finish_settled (p : PromiseRef) : M T unit :=
  w ← get;
  match promises w !! p with
  | Some (Pending (K_swipeFinish _)) =>
      modify (set_xoffset 0);;
      settle p true
  | _ => mret tt
  end.

(** ** Events *)

(** What can happen to a list between two turns of the event loop. *)
Inductive Event :=
  | E_init (clientWidth clientHeight : Z)
  | E_initRow (r : RowRef) (dom : DomElement)
  | E_initFrame
  | E_loadMore                                   (* loadInitial(null) *)
  | E_fetchSettled (p : PromiseRef) (page : option (list T))
  | E_scroll (scroll : Z)               (* a scroll, the pagination of [_scroll] only *)
  | E_scrollAll (isDesktopDevice : bool) (fuel : nat) (scroll : Z)
                                        (* a scroll, the whole of [_scroll] *)
  | E_click (e : T) (event : MouseEvent)
  | E_redraw
  | E_entityEvent (id : Id) (operation : OperationTypeEnum)
  | E_loadSingleSettled (p : PromiseRef) (result : option (option T))
  | E_loadingSettled (p : PromiseRef)
  | E_touchStart (e : TouchEvent)
  | E_touchMove (e : TouchEvent)
  | E_touchEnd (e : TouchEvent)
  | E_touchCancel
  | E_swipeSettled (p : PromiseRef) (ok : bool)
  | E_finishSettled (p : PromiseRef).

Definition dispatch (ev : Event) : M T unit :=
  match ev with
  | E_init cw ch => _init cw ch
  | E_initRow r dom => _initRow r dom
  | E_initFrame => _init_frame
  | E_loadMore => _loadMore;; mret tt
  | E_fetchSettled p page => _loadMore_settled p page
  | E_scroll scroll => onScroll scroll
  | E_scrollAll isDesktopDevice fuel scroll => onScroll_all isDesktopDevice fuel scroll
  | E_click e event => _elementClicked e event
  | E_redraw => redraw
  | E_entityEvent id operation => entityEventReceived id operation;; mret tt
  | E_loadSingleSettled p result => loadSingle_settled p result
  | E_loadingSettled p => loading_settled p
  | E_touchStart e => start e
  | E_touchMove e => move e
  | E_touchEnd e => end_ e
  | E_touchCancel => cancel
  | E_swipeSettled p ok => swipe_settled p ok
  | E_finishSettled p => finish_settled p
  end.

(** The world a call leaves behind: an exception ends the turn, the
    mutations made before it stay. *)
Definition after {A} (o : Outcome T A) : option (World T) :=
  match o with
  | Returns _ w | Throws _ w => Some w
  | Unrepresented => None
  end.

Fixpoint run (evs : list Event) (w : World T) : option (World T) :=
  match evs with
  | [] => Some w
  | ev :: evs' =>
      match after (dispatch ev w) with
      | Some w' => run evs' w'
      | None => None
      end
  end.

(** The operations of the store, as the reconciliation applies them. *)
Inductive StoreOp :=
  | Insert (e : T)        (* _addToLoadedEntities *)
  | Replace (e : T)       (* _updateLoadedEntity *)
  | Remove (id : Id).     (* _deleteLoadedEntity *)

Definition applyOp (op : StoreOp) : M T unit :=
  match op with
  | Insert e => _addToLoadedEntities e
  | Replace e => _updateLoadedEntity e
  | Remove id => _deleteLoadedEntity_then id
  end.

Fixpoint applyOps (ops : list StoreOp) (w : World T) : option (World T) :=
  match ops with
  | [] => Some w
  | op :: ops' =>
      match after (applyOp op w) with
      | Some w' => applyOps ops' w'
      | None => None
      end
  end.

(** The outbound [fetch] calls of a trace. *)
Definition isFetch (e : Effect T) : bool :=
  match e with Fetch _ _ _ => true | _ => false end.
Definition fetches (tr : list (Effect T)) : list (Effect T) := filter isFetch tr.

(** The [swipeLeft] and [swipeRight] calls of a trace. *)
Definition isSwipe (e : Effect T) : bool :=
  match e with SwipeLeft _ _ | SwipeRight _ _ => true | _ => false end.
Definition swipes (tr : list (Effect T)) : list (Effect T) := filter isSwipe tr.

(** The [elementSelected] calls of a trace. *)
Definition isSelection (e : Effect T) : bool :=
  match e with ElementSelected _ _ _ _ => true | _ => false end.
Definition selections (tr : list (Effect T)) : list (Effect T) := filter isSelection tr.

End Methods.

Global Arguments Event T : clear implicits.
Global Arguments StoreOp T : clear implicits.

(** ** Predicates on worlds *)

Section Predicates.
Context {T : Type} `{Entity T}.

(** [m] relates the world it starts in to every world it leaves behind. *)
Definition frame {A} (R : relation (World T)) (m : M T A) : Prop :=
  ∀ w, match m w with
       | Returns _ w' | Throws _ w' => R w w'
       | Unrepresented => True
       end.

(** The worlds differ at most in the rows, [currentPosition] and
    [updateLater]: what [_reposition] writes. *)
Definition repositioned (w w' : World T) : Prop :=
  w' = set_rows (rows w')
         (set_currentPosition (currentPosition w')
            (set_updateLater (updateLater w') w)).

(** The list is mounted, the pool is a list of distinct rows and every one
    of them has its DOM node: the state [_init] establishes before it sets
    [ready]. *)
Definition rendered (w : World T) : Prop :=
  is_Some (scrollTop w) ∧ NoDup (_virtualList w) ∧
  Forall (λ r, is_Some (rows w !! r ≫= domElement)) (_virtualList w).

Global Instance rendered_dec w : Decision (rendered w).
Proof. unfold rendered. apply _. Defined.

(** The offsets of the pool, in the order of [_virtualList]. *)
Definition offsets (w : World T) : option (list Z) :=
  mapM (λ r, top <$> rows w !! r) (_virtualList w).

(** The configuration, the loaded entities and [_loadedCompletely] are the
    same. *)
Definition sameStore : relation (World T) := λ w w',
  _config w' = _config w ∧ _loadedEntities w' = _loadedEntities w
  ∧ _loadedCompletely w' = _loadedCompletely w.

(** The configuration is the same and [_loadedCompletely], once set, stays. *)
Definition completelyStays : relation (World T) := λ w w',
  _config w' = _config w ∧ (_loadedCompletely w = true → _loadedCompletely w' = true).

(** A call leaves a world behind. *)
Definition total {A} (m : M T A) : Prop := ∀ w, is_Some (after (m w)).

(** [n] offsets from [a] in steps of [d]. *)
Definition arithmetic (a d : Z) (n : nat) : list Z :=
  (λ i : nat, a + Z.of_nat i * d) <$> seq 0 n.

(** [maxStart] of the specification. *)
Definition maxStart (w : World T) : Z :=
  Z.of_nat (length (_loadedEntities w)) * rowHeightZ w
  - 2 * bufferHeight w - _visibleElementsHeight w.

(** The scroll position rounded down to a row boundary, less the buffer. *)
Definition rawStart (w : World T) (scroll : Z) : Z :=
  scroll - Z.rem scroll (rowHeightZ w) - bufferHeight w.

(** The comparator is a total preorder: what "sorted by" needs. *)
Definition consistent (compare : T → T → Z) : Prop :=
  (∀ a b, compare a b ≤ 0 ∨ compare b a ≤ 0) ∧
  (∀ a b c, compare a b ≤ 0 → compare b c ≤ 0 → compare a c ≤ 0).

(** The loaded entities are sorted and no identifier occurs twice. *)
Definition storeOk (w : World T) : Prop :=
  StronglySorted (cmp_le (sortCompare (_config w))) (_loadedEntities w) ∧
  NoDup (elementId <$> _loadedEntities w).

(** A fetch is in flight: the promise [this._loading] is pending. *)
Definition loadingInFlight (w : World T) : Prop :=
  ∃ k, promises w !! _loading w = Some (Pending k).

End Predicates.

(** ** A list of mails, for the scenarios *)

Record Mail := { mail_id : IdTuple; received : Z }.

Global Instance Mail_eq_dec : EqDecision Mail.
Proof. solve_decision. Defined.

Global Instance Mail_Entity : Entity Mail :=
  {| getLetId := mail_id; GENERATED_MAX_ID := "zzzzzzzzzzzz" |}.

(** Newest first. *)
Definition newestFirst (a b : Mail) : Z :=
  match received a ?= received b with
  | Gt => -1
  | Eq => 0
  | Lt => 1
  end.

Definition mailConfig : ListConfig Mail :=
  {| rowHeight := 10; sortCompare := newestFirst; multiSelectionAllowed := true |}.

Definition mail (id : Id) (date : Z) : Mail := {| mail_id := ("inbox", id); received := date |}.

Definition E1 := mail "e1" 50.
Definition E2 := mail "e2" 40.
Definition E3 := mail "e3" 30.
Definition E4 := mail "e4" 20.
Definition E5 := mail "e5" 10.

(** A page of [n] mails, newest first. *)
Definition page (n : nat) : list Mail :=
  (λ i : nat, mail (pretty i) (1000 - Z.of_nat i)) <$> seq 0 n.

Definition aRowNode : DomElement := {| offsetHeight := 10; oddRow := false; displayed := false |}.

(** The list after the constructor. *)
Definition created : World Mail := newList mailConfig false 0.

(** The list once mounted in a container of 300 by 100 pixels: 10 visible
    rows, a pool of 40. *)
Definition mounted : World Mail :=
  default created
    (run ([E_init 300 100] ++ ((λ r, E_initRow r aRowNode) <$> seq 0 40) ++ [E_initFrame])
       created).

(** The mounted list with 30 mails loaded, scrolled to the pixel 160. *)
Definition shortList : World Mail :=
  set_scrollTop (Some 160) (set_loadedEntities (page 30) mounted).

(** Five mails loaded in the mounted list. *)
Definition fiveLoaded : World Mail := set_loadedEntities [E1; E2; E3; E4; E5] mounted.

(** Scenario B: E1 and E2 are selected. *)
Definition scenarioB : World Mail := set_selectedEntities [E1; E2] fiveLoaded.

(** Scenario C: E2 is selected. *)
Definition scenarioC : World Mail := set_selectedEntities [E2] fiveLoaded.

(** Scenario D: E2 is the only selected mail and three other mails are
    loaded. *)
Definition scenarioD : World Mail :=
  set_selectedEntities [E2] (set_loadedEntities [E1; E2; E3; E4] mounted).

(** E3 alone is selected. *)
Definition onlyE3 : World Mail := set_selectedEntities [E3] fiveLoaded.

(** The mounted list after [loadInitial]: the first fetch is in flight. *)
Definition loadingFirstPage : World Mail :=
  default mounted (run [E_loadMore] mounted).

(** The new list after [loadInitial], before it is mounted. *)
Definition createdLoading : World Mail :=
  default created (run [E_loadMore] created).

(** Scenario E: 30 mails are loaded; a touch starts on the third row and has
    moved 160 pixels to the right and 5 down. *)
Definition swiping : World Mail :=
  default mounted
    (run [E_loadMore; E_fetchSettled 1%nat (Some (page 30));
          E_touchStart {| clientX := 10; clientY := 25 |};
          E_touchMove {| clientX := 170; clientY := 30 |}] mounted).

Definition endAt160 : TouchEvent := {| clientX := 170; clientY := 30 |}.
Definition endAt100 : TouchEvent := {| clientX := 110; clientY := 30 |}.

(** Inserts, replacements and removals on the store. *)
Definition someOps : list (StoreOp Mail) :=
  [Insert E3; Insert E1; Insert E2; Insert (mail "e1" 7); Replace (mail "e3" 60);
   Remove "e2"; Remove "e9"; Insert E5].

Definition plainClick : MouseEvent := {| metaKey := false; ctrlKey := false; shiftKey := false |}.
Definition shiftClick : MouseEvent := {| metaKey := false; ctrlKey := false; shiftKey := true |}.

(** ** More of the list: the keyboard, the comparators, the pending selection *)

Section Keyboard.
Context {T : Type} `{Entity T}.

(** [selectNext(shiftPressed)].  The field [_lastMultiSelectWasKeyUp] is no
    part of [World]: its value before the call is the argument [keyUp], its
    value after the call is [selectNext_keyUp], whatever the outcome (the
    only assignment precedes every call that can throw). *)
Definition selectNext (shiftPressed keyUp : bool) : M T unit :=
  w ← get;
  let selected := _selectedEntities w in
  let loaded := _loadedEntities w in
  if shiftPressed && keyUp && bool_decide (1 < length selected)%nat then
    modify (set_selectedEntities (drop 1 selected));;     (* splice(0, 1) *)
    _reposition;;
    elementSelected false true true;;
    w1 ← get;
    match _selectedEntities w1 !! 0%nat with
    | Some e => _scrollToLoadedEntityAndSelect e true
    | None => unrepresented
    end
  else if bool_decide (length selected = 0%nat) && bool_decide (0 < length loaded)%nat then
    match loaded !! 0%nat with
    | Some e => _entitySelected e shiftPressed
    | None => unrepresented
    end
  else if bool_decide (length selected ≠ 0%nat) && bool_decide (0 < length loaded)%nat then
    let selectedIndex := from_option (js_indexOf loaded) (-1) (last_ selected) in
    let selectedIndex :=
      if negb shiftPressed && bool_decide (selectedIndex = Z.of_nat (length loaded) - 1)
      then selectedIndex - 1 else selectedIndex in
    if bool_decide (selectedIndex ≠ Z.of_nat (length loaded) - 1) then
      match js_get loaded (selectedIndex + 1) with
      | Some e => _scrollToLoadedEntityAndSelect e shiftPressed
      | None => unrepresented
      end
    else mret tt
  else mret tt.

Definition selectNext_keyUp (shiftPressed keyUp : bool) (w : World T) : bool :=
  if shiftPressed && keyUp && bool_decide (1 < length (_selectedEntities w))%nat
  then keyUp else false.

(** [selectPrevious(shiftPressed)], with [_lastMultiSelectWasKeyUp] as in
    [selectNext]. *)
Definition selectPrevious (shiftPressed keyUp : bool) : M T unit :=
  w ← get;
  let selected := _selectedEntities w in
  let loaded := _loadedEntities w in
  if shiftPressed && negb keyUp && bool_decide (1 < length selected)%nat then
    modify (set_selectedEntities (take (length selected - 1) selected));;  (* splice(-1, 1) *)
    _reposition;;
    elementSelected false true true;;
    w1 ← get;
    match last_ (_selectedEntities w1) with
    | Some e => _scrollToLoadedEntityAndSelect e true
    | None => unrepresented
    end
  else if bool_decide (length selected = 0%nat) && bool_decide (0 < length loaded)%nat then
    match loaded !! 0%nat with
    | Some e => _entitySelected e shiftPressed
    | None => unrepresented
    end
  else if bool_decide (length selected ≠ 0%nat) && bool_decide (0 < length loaded)%nat then
    let selectedIndex := from_option (js_indexOf loaded) (-1) (selected !! 0%nat) in
    let selectedIndex :=
      if negb shiftPressed && bool_decide (selectedIndex = 0)
      then selectedIndex + 1 else selectedIndex in
    if bool_decide (selectedIndex ≠ 0) then
      match js_get loaded (selectedIndex - 1) with
      | Some e => _scrollToLoadedEntityAndSelect e shiftPressed
      | None => unrepresented
      end
    else mret tt
  else mret tt.

Definition selectPrevious_keyUp (shiftPressed keyUp : bool) (w : World T) : bool :=
  if shiftPressed && negb keyUp && bool_decide (1 < length (_selectedEntities w))%nat
  then keyUp else true.

(** [scrollToIdAndSelectWhenReceived(listElementId)] *)
Definition scrollToIdAndSelectWhenReceived (listElementId : Id) : M T unit :=
  w ← get;
  match getEntity w listElementId with
  | Some e => _scrollToLoadedEntityAndSelect e false
  | None => modify (set_idOfEntityToSelectWhenReceived (Some listElementId))
  end.

(** [sortCompareByReverseId] and [sortCompareById].  [firstBiggerThanSecond]
    of api/common/EntityFunctions is not among the sources and is a
    parameter. *)
Definition sortCompareByReverseId (firstBiggerThanSecond : Id → Id → bool)
    (entity1 entity2 : T) : Z :=
  if bool_decide (elementId entity1 = elementId entity2) then 0
  else if firstBiggerThanSecond (elementId entity1) (elementId entity2) then -1 else 1.

Definition sortCompareById (firstBiggerThanSecond : Id → Id → bool)
    (entity1 entity2 : T) : Z :=
  if bool_decide (elementId entity1 = elementId entity2) then 0
  else if firstBiggerThanSecond (elementId entity1) (elementId entity2) then 1 else -1.

(** [firstBiggerThanSecond] is a strict total order on identifiers. *)
Definition strictTotal (bigger : Id → Id → bool) : Prop :=
  (∀ a, bigger a a = false) ∧
  (∀ a b, a ≠ b → bigger a b = true ∨ bigger b a = true) ∧
  (∀ a b c, bigger a b = true → bigger b c = true → bigger a c = true).

End Keyboard.

(** ** More predicates *)

Section MorePredicates.
Context {T : Type} `{Entity T}.

(** The selected entities are loaded entities, each selected once. *)
Definition selectionOk (w : World T) : Prop :=
  NoDup (_selectedEntities w) ∧ _selectedEntities w ⊆ _loadedEntities w.

(** What a row shows after [_updateVirtualRow]: the loaded entity at the
    index its offset stands for; the row is hidden when there is none,
    striped by the parity of the index, and updated with the entity and
    whether it is selected. *)
Definition shows (w : World T) (row : VirtualRow T) : Prop :=
  entity row = _getListElement w (js_div_index (top row) (rowHeight (_config w)))
  ∧ (∃ dom, domElement row = Some dom
            ∧ displayed dom = bool_decide (is_Some (entity row))
            ∧ oddRow dom = negb (js_div_odd (top row) (rowHeight (_config w))))
  ∧ ∀ x, entity row = Some x →
         updated row = Some (x, isEntitySelected w (elementId x)).

(** The events that mount a list: [_init], the creation of the DOM node of
    every row of the pool, and the second frame of [_init]. *)
Definition mountEvents (clientWidth clientHeight : Z) (pool : list RowRef)
    (doms : RowRef → DomElement) : list (Event T) :=
  [E_init clientWidth clientHeight] ++ ((λ r, E_initRow r (doms r)) <$> pool)
  ++ [E_initFrame].

Definition isInit (ev : Event T) : bool :=
  match ev with E_init _ _ => true | _ => false end.

(** A call keeps the list rendered and the horizontal offset of a swipe
    within the action distance. *)
Definition steady (w w' : World T) : Prop :=
  (rendered w → rendered w')
  ∧ (Z.abs (xoffset w) ≤ ActionDistance → Z.abs (xoffset w') ≤ ActionDistance).

(** The rows of the pool exist, and so does the row bound to a swipe. *)
Definition poolExists (w : World T) : Prop :=
  Forall (λ r, is_Some (rows w !! r)) (_virtualList w)
  ∧ from_option (λ r, is_Some (rows w !! r)) True (virtualElement w).

Global Instance poolExists_dec w : Decision (poolExists w).
Proof. unfold poolExists. destruct (virtualElement w); apply _. Defined.

Global Instance storeOk_dec w : Decision (storeOk w).
Proof. unfold storeOk. apply _. Defined.

Global Instance selectionOk_dec w : Decision (selectionOk w).
Proof. unfold selectionOk. apply _. Defined.

End MorePredicates.

(** ** Scrolling *)

Section Scrolling.
Context {T : Type} `{Entity T}.

(** The pool is a window on the loaded entities that starts at the offset
    [a]: its rows, in the order of [_virtualList], are at the offsets [a],
    [a + rowHeight], ... and each shows the entity of its offset. *)
Definition windowAt (w : World T) (a : Z) : Prop :=
  ∀ (i : nat) r, _virtualList w !! i = Some r →
    ∃ row, rows w !! r = Some row
           ∧ top row = a + Z.of_nat i * rowHeightZ w ∧ shows w row.

(** The pool is as high as the visible part and the two buffers. *)
Definition poolFits (w : World T) : Prop :=
  Z.of_nat (length (_virtualList w)) * rowHeightZ w
  = _visibleElementsHeight w + 2 * bufferHeight w.

Global Instance poolFits_dec w : Decision (poolFits w).
Proof. unfold poolFits. apply _. Defined.

(** The worlds differ at most in the rows and their order in the pool,
    [currentPosition] and [updateLater]: what the loops of [_scroll]
    write. *)
Definition scrolled (w w' : World T) : Prop :=
  w' = set_virtualList (_virtualList w')
         (set_rows (rows w')
            (set_currentPosition (currentPosition w')
               (set_updateLater (updateLater w') w)))
  ∧ _virtualList w' ≡ₚ _virtualList w.

(** The fuel the loop for scrolling down needs: the rows between the last
    row of the pool and the row of the last loaded entity, and two. *)
Definition fuelDown (w : World T) (a : Z) : nat :=
  Z.to_nat (rowHeightZ w * Z.of_nat (length (_loadedEntities w)) - rowHeightZ w
            - (a + (Z.of_nat (length (_virtualList w)) - 1) * rowHeightZ w)) + 2.

(** What the pagination reads and writes is the same in both worlds: the
    store, [_loadedCompletely], [_loading], the promises and the outbound
    calls. *)
Definition samePagination : relation (World T) := λ w w',
  sameStore w w' ∧ _loading w' = _loading w ∧ promises w' = promises w
  ∧ trace w' = trace w.

Global Instance shows_dec (w : World T) (row : VirtualRow T) : Decision (shows w row).
Proof.
  unfold shows. apply and_dec; [apply _|]. apply and_dec.
  - destruct (domElement row) as [dom|].
    + destruct (decide (displayed dom = bool_decide (is_Some (entity row))
                        ∧ oddRow dom = negb (js_div_odd (top row) (rowHeight (_config w)))))
        as [Hd|Hd].
      * left. exists dom. split; [done|exact Hd].
      * right. intros (d & Heq & Hd'). injection Heq as <-. by apply Hd.
    + right. intros (d & Heq & _). discriminate Heq.
  - destruct (entity row) as [x|].
    + destruct (decide (updated row = Some (x, isEntitySelected w (elementId x))))
        as [Hu|Hu].
      * left. intros y Hy. injection Hy as <-. exact Hu.
      * right. intros Hall. apply Hu. by apply Hall.
    + left. intros y Hy. discriminate Hy.
Defined.

(** Row [ir.2], the [ir.1]-th of the pool, is [ir.1] rows below [a]. *)
Definition rowAt (w : World T) (a : Z) (ir : nat * RowRef) : Prop :=
  match rows w !! ir.2 with
  | Some row => top row = a + Z.of_nat ir.1 * rowHeightZ w ∧ shows w row
  | None => False
  end.

Global Instance rowAt_dec (w : World T) (a : Z) (ir : nat * RowRef) :
  Decision (rowAt w a ir).
Proof. unfold rowAt. destruct (rows w !! ir.2); apply _. Defined.

Global Instance windowAt_dec (w : World T) (a : Z) : Decision (windowAt w a).
Proof.
  destruct (decide (Forall (rowAt w a) (imap pair (_virtualList w))))
    as [Hall|Hn]; [left|right].
  - unfold windowAt. intros i r Hi. rewrite Forall_forall in Hall.
    specialize (Hall (i, r)). unfold rowAt in Hall. cbn in Hall.
    destruct (rows w !! r) as [row|].
    + exists row. split; [done|]. apply Hall. apply elem_of_lookup_imap. eauto.
    + destruct Hall. apply elem_of_lookup_imap. eauto.
  - unfold windowAt. intros Hw. apply Hn. apply Forall_forall.
    intros [i r] (i' & r' & [= -> ->] & Hi)%elem_of_lookup_imap.
    unfold rowAt. cbn.
    destruct (Hw i' r' Hi) as (row & -> & ? & ?). done.
Defined.

End Scrolling.

(** ** More scenarios *)

(** A mail that sorts between E2 and E3. *)
Definition E9 := mail "e9" 35.

Definition ctrlClick : MouseEvent := {| metaKey := false; ctrlKey := true; shiftKey := false |}.

(** A list without multi-selection. *)
Definition singleConfig : ListConfig Mail :=
  {| rowHeight := 10; sortCompare := newestFirst; multiSelectionAllowed := false |}.
Definition singleList : World Mail := newList singleConfig false 0.

(** The list after [_init] alone: the rows of the pool have no DOM node. *)
Definition unmountedPool : World Mail := default created (run [E_init 300 100] created).

(** The events of scenario E, from the constructor on. *)
Definition swipeEvents : list (Event Mail) :=
  mountEvents 300 100 (seq 0 40) (λ _, aRowNode)
  ++ [E_loadMore; E_fetchSettled 1%nat (Some (page 30));
      E_touchStart {| clientX := 10; clientY := 25 |};
      E_touchMove {| clientX := 170; clientY := 30 |}].

(** 30 mails are loaded and a touch has started on the third row. *)
Definition touching : World Mail :=
  default mounted
    (run [E_loadMore; E_fetchSettled 1%nat (Some (page 30));
          E_touchStart {| clientX := 10; clientY := 25 |}] mounted).

(** An order on identifiers, for the comparators. *)
Definition idOrder (a b : Id) : bool := bool_decide (encode b < encode a)%positive.

(** 100 mails are loaded and the list has been scrolled to 600 on a desktop
    device, which repositions the pool: its 40 rows start at the offset
    450. *)
Definition longList : World Mail :=
  default mounted
    (run [E_loadMore; E_fetchSettled 1%nat (Some (page 100)); E_scrollAll true 5 600]
       mounted).

(** The browser has scrolled on to 620. *)
Definition scrolling : World Mail :=
  set_currentPosition 620 (set_scrollTop (Some 620) longList).

(** Scenario C on a list that does not allow multi-selection: the list is
    mounted, E1..E5 arrive as its first page, and a click selects E2. *)
Definition scenarioC_single : World Mail :=
  default singleList
    (run (mountEvents 300 100 (seq 0 40) (λ _, aRowNode)
          ++ [E_loadMore; E_fetchSettled 1%nat (Some [E1; E2; E3; E4; E5]);
              E_click E2 plainClick]) singleList).

(** Scenario D once the DELETE notification for E2 has been received. *)
Definition deleting : World Mail :=
  default scenarioD (run [E_entityEvent "e2" DELETE] scenarioD).

(** 100 mails are loaded and the first is selected; the list is scrolled
    towards its end, and the fetch of the second page fails. *)
Definition failedSecondPage : World Mail :=
  default mounted
    (run [E_loadMore; E_fetchSettled 1%nat (Some (page 100));
          E_click (mail "0" 1000) plainClick;
          E_scrollAll true 10 900; E_fetchSettled 2%nat None] mounted).

(** A session on the mounted list: 100 mails arrive; the list is scrolled
    slowly down, further down and up again, which recycles rows; then it is
    scrolled towards its end, the fetch of the second page fails, and a mail
    is clicked. *)
Definition sessionEvents : list (Event Mail) :=
  [E_loadMore; E_fetchSettled 1%nat (Some (page 100));
   E_scrollAll false 5 200; E_scrollAll false 5 230; E_scrollAll false 5 200;
   E_scrollAll false 5 900; E_fetchSettled 2%nat None;
   E_click (mail "50" 950) plainClick].

Definition session : World Mail := default mounted (run sessionEvents mounted).

(** * Proofs *)

Ltac munfold :=
  unfold mbind, M_bind, bind, mret, M_ret, ret, get, modify, throw,
    unrepresented, emit, settled in *.

(** ** Rules for [frame] and [total] *)

Section Rules.
Context {T : Type} `{Entity T}.
Implicit Types (w : World T) (R : relation (World T)).

Lemma frame_ret {A} R `{!Reflexive R} (a : A) : frame R (mret a).
Proof. intros w. munfold. reflexivity. Qed.

Lemma frame_throw {A} R `{!Reflexive R} msg : frame R (throw (T := T) (A := A) msg).
Proof. intros w. munfold. reflexivity. Qed.

Lemma frame_unrepresented {A} R : frame R (unrepresented (T := T) (A := A)).
Proof. by intros w. Qed.

Lemma frame_get R `{!Reflexive R} : frame R get.
Proof. intros w. munfold. reflexivity. Qed.

Lemma frame_modify R f : (∀ w, R w (f w)) → frame R (modify f).
Proof. intros Hf w. munfold. apply Hf. Qed.

Lemma frame_bind {A B} R `{!Transitive R} (m : M T A) (f : A → M T B) :
  frame R m → (∀ a, frame R (f a)) → frame R (m ≫= f).
Proof.
  intros Hm Hf w. specialize (Hm w). munfold.
  destruct (m w) as [a w1|msg w1|]; [|done..].
  specialize (Hf a w1). destruct (f a w1); [etrans; eauto..|done].
Qed.

Lemma frame_settled R (m : M T unit) : frame R m → frame R (settled m).
Proof. intros Hm w. specialize (Hm w). munfold. by destruct (m w). Qed.

Lemma frame_weaken {A} R1 R2 (m : M T A) :
  (∀ w w', R1 w w' → R2 w w') → frame R1 m → frame R2 m.
Proof. intros HR Hm w. specialize (Hm w). destruct (m w); auto. Qed.

Lemma total_ret {A} (a : A) : total (mret a).
Proof. by intros w. Qed.

Lemma total_throw {A} msg : total (throw (T := T) (A := A) msg).
Proof. by intros w. Qed.

Lemma total_get : total (get (T := T)).
Proof. by intros w. Qed.

Lemma total_modify f : total (modify (T := T) f).
Proof. by intros w. Qed.

Lemma total_bind {A B} (m : M T A) (f : A → M T B) :
  total m → (∀ a, total (f a)) → total (m ≫= f).
Proof.
  intros Hm Hf w. specialize (Hm w). munfold.
  destruct (m w) as [a w1|msg w1|]; [apply Hf|done|by destruct Hm].
Qed.

Lemma total_settled (m : M T unit) : total m → total (settled m).
Proof. intros Hm w. specialize (Hm w). munfold. by destruct (m w). Qed.

Global Instance repositioned_preorder : PreOrder (repositioned (T := T)).
Proof.
  split.
  - intros w. by destruct w.
  - intros w1 w2 w3. unfold repositioned. intros -> ->. by destruct w1.
Qed.

End Rules.

Ltac frame_step :=
  first
    [ apply frame_ret; apply _
    | apply frame_throw; apply _
    | apply frame_unrepresented
    | apply frame_get; apply _
    | apply frame_settled
    | apply frame_bind; [apply _ | | intros ?]
    | apply total_ret | apply total_throw | apply total_get | apply total_modify
    | apply total_settled
    | apply total_bind; [ | intros ?]
    | match goal with
      | |- frame _ (match ?x with _ => _ end) => destruct x
      | |- total (match ?x with _ => _ end) => destruct x
      end ].

Section Reposition.
Context {T : Type} `{Entity T}.
Implicit Types (w : World T) (r : RowRef) (rs : list RowRef) (R : relation (World T)).

Lemma frame_readRow R `{!Reflexive R} r : frame R (readRow r).
Proof. unfold readRow. intros w. munfold. destruct (rows w !! r); reflexivity. Qed.

Lemma total_readRow r : total (readRow r).
Proof. unfold readRow. intros w. munfold. by destruct (rows w !! r). Qed.

Lemma frame_writeRow r (row : VirtualRow T) : frame repositioned (writeRow r row).
Proof. apply frame_modify. intros w. by destruct w. Qed.

Lemma frame__updateVirtualRow r e odd : frame repositioned (_updateVirtualRow r e odd).
Proof.
  unfold _updateVirtualRow.
  apply frame_bind; [apply _|apply frame_readRow; apply _|intros row].
  repeat first [apply frame_writeRow | frame_step].
Qed.

Lemma total__updateVirtualRow r e odd : total (_updateVirtualRow r e odd).
Proof.
  unfold _updateVirtualRow.
  apply total_bind; [apply total_readRow|intros row].
  repeat frame_step.
Qed.

Lemma frame__reposition_rows rs : ∀ next, frame repositioned (_reposition_rows rs next).
Proof.
  induction rs as [|r rs IH]; intros next; cbn [_reposition_rows].
  - apply frame_ret, _.
  - apply frame_bind; [apply _|apply frame_readRow; apply _|intros row].
    apply frame_bind; [apply _|apply frame_get; apply _|intros w].
    apply frame_bind; [apply _|apply frame_writeRow|intros _].
    destruct (domElement row); [|apply frame_throw, _].
    apply frame_bind; [apply _|apply frame__updateVirtualRow|intros _]. apply IH.
Qed.

Lemma total__reposition_rows rs : ∀ next, total (_reposition_rows rs next).
Proof.
  induction rs as [|r rs IH]; intros next; cbn [_reposition_rows].
  - apply total_ret.
  - apply total_bind; [apply total_readRow|intros row].
    apply total_bind; [apply total_get|intros w].
    apply total_bind; [apply total_modify|intros _].
    destruct (domElement row); [|apply total_throw].
    apply total_bind; [apply total__updateVirtualRow|intros _]. apply IH.
Qed.

Lemma frame__reposition : frame repositioned (_reposition (T := T)).
Proof.
  unfold _reposition.
  apply frame_bind; [apply _|apply frame_get; apply _|intros w].
  destruct (scrollTop w); [|apply frame_throw, _].
  apply frame_bind; [apply _| |intros _].
  { apply frame_modify. intros w'. by destruct w'. }
  apply frame_bind; [apply _|apply frame__reposition_rows|intros _].
  apply frame_modify. intros w'. by destruct w'.
Qed.

Lemma total__reposition : total (_reposition (T := T)).
Proof.
  unfold _reposition. repeat frame_step. apply total__reposition_rows.
Qed.

Lemma rendered_rows (rws : list (VirtualRow T)) rs :
  Forall (λ r, is_Some (rws !! r ≫= domElement)) rs ↔
  ∀ r, r ∈ rs → ∃ row, rws !! r = Some row ∧ is_Some (domElement row).
Proof.
  rewrite Forall_forall. apply forall_proper; intros r.
  apply forall_proper; intros _. split.
  - intros [d Hd]. apply bind_Some in Hd as (row & ? & ?). eauto.
  - intros (row & -> & Hd). done.
Qed.

Lemma world_eta w :
  w = set_rows (rows w) w.
Proof. by destruct w. Qed.

Lemma readRow_lookup w r row :
  rows w !! r = Some row → readRow r w = Returns row w.
Proof. intros Hr. unfold readRow. munfold. by rewrite Hr. Qed.

Lemma _updateVirtualRow_rendered w r row dom e odd :
  rows w !! r = Some row → domElement row = Some dom →
  ∃ row', _updateVirtualRow r e odd w = Returns tt (set_rows (<[r := row']> (rows w)) w)
          ∧ top row' = top row ∧ is_Some (domElement row') ∧ entity row' = e.
Proof.
  intros Hr Hd. unfold _updateVirtualRow. munfold.
  rewrite (readRow_lookup _ _ _ Hr). rewrite Hd. unfold writeRow. munfold. cbn.
  rewrite list_insert_insert_eq.
  eexists. split; [by destruct w|]. cbn. eauto.
Qed.

Lemma _reposition_rows_rendered rs : ∀ next w,
  NoDup rs →
  (∀ r, r ∈ rs → ∃ row, rows w !! r = Some row ∧ is_Some (domElement row)) →
  ∃ w', _reposition_rows rs next w = Returns tt w'
        ∧ w' = set_rows (rows w') w
        ∧ (∀ (i : nat) r, rs !! i = Some r →
             ∃ row, rows w' !! r = Some row
                    ∧ top row = next + Z.of_nat i * rowHeightZ w
                    ∧ is_Some (domElement row)
                    ∧ entity row = _getListElement w (js_div_index (top row) (rowHeight (_config w))))
        ∧ (∀ r, r ∉ rs → rows w' !! r = rows w !! r).
Proof.
  induction rs as [|r rs IH]; intros next w Hnd Hrs.
  - exists w. cbn. split; [done|]. split; [apply world_eta|]. split; [|done].
    intros i r Hi. by rewrite lookup_nil in Hi.
  - apply NoDup_cons in Hnd as [Hr Hnd].
    destruct (Hrs r) as (row & Hrow & dom & Hdom); [left|].
    cbn [_reposition_rows]. munfold.
    rewrite (readRow_lookup _ _ _ Hrow). unfold writeRow at 1. munfold. rewrite Hdom.
    set (w1 := set_rows _ w).
    assert (Hlt : (r < length (rows w))%nat) by (by eapply lookup_lt_Some).
    edestruct (_updateVirtualRow_rendered w1 r) as (row' & -> & Htop & Hdom' & Hent).
    { subst w1. cbn. by apply list_lookup_insert_eq. }
    { cbn. done. }
    set (w2 := set_rows _ w1).
    destruct (IH (next + rowHeightZ w) w2 Hnd) as (w' & Hrun & Heq & Hin & Hout).
    { intros r' Hr'. subst w2 w1. cbn.
      assert (r ≠ r') by (intros ->; done).
      rewrite !list_lookup_insert_ne by done. apply Hrs. by right. }
    exists w'. split; [done|]. split.
    { rewrite Heq. subst w2 w1. by destruct w. }
    split.
    + intros [|i] r' Hi; cbn in Hi.
      * inversion Hi; subst r'. rewrite (Hout _ Hr). subst w2 w1. cbn.
        rewrite list_lookup_insert_eq by (by rewrite length_insert).
        eexists. split; [done|]. cbn in Htop. rewrite Htop.
        split; [lia|]. split; [done|]. by rewrite Hent.
      * destruct (Hin i r' Hi) as (row2 & ? & ? & ? & ?).
        exists row2. split; [done|]. split; [|done].
        subst w2 w1. unfold rowHeightZ in *. cbn in *. lia.
    + intros r' Hr'. apply not_elem_of_cons in Hr' as [? ?].
      rewrite (Hout r') by done. subst w2 w1. cbn.
      by rewrite !list_lookup_insert_ne.
Qed.

Lemma arithmetic_lookup a d n (i : nat) :
  (i < n)%nat → arithmetic a d n !! i = Some (a + Z.of_nat i * d).
Proof.
  intros Hi. unfold arithmetic. rewrite list_lookup_fmap, lookup_seq_lt by done. done.
Qed.

(** What [_reposition] does to a rendered list. *)
Lemma _reposition_rendered w scroll :
  scrollTop w = Some scroll → rendered w →
  ∃ w', _reposition w = Returns tt w'
        ∧ repositioned w w'
        ∧ currentPosition w' = scroll
        ∧ rendered w'
        ∧ offsets w' = Some (arithmetic (startPosition w scroll) (rowHeightZ w)
                               (length (_virtualList w))).
Proof.
  intros Hs (_ & Hnd & Hrows).
  pose proof (proj1 (rendered_rows _ _) Hrows) as Hrows'.
  unfold _reposition. munfold. rewrite Hs.
  destruct (_reposition_rows_rendered (_virtualList w) (startPosition w scroll)
              (set_currentPosition scroll w) Hnd)
    as (w' & Hrun & Heq & Hin & Hout); [done|].
  rewrite Hrun. eexists. split; [done|].
  split. { rewrite Heq. unfold repositioned. by destruct w. }
  split. { rewrite Heq. done. }
  split.
  { rewrite Heq. split; [cbn; by rewrite Hs|]. split; [done|].
    apply rendered_rows. intros r Hr. cbn. apply list_elem_of_lookup in Hr as [i Hi].
    destruct (Hin i r Hi) as (row & ? & ? & ? & ?). eauto. }
  assert (Hvl : _virtualList w' = _virtualList w) by (by rewrite Heq).
  unfold offsets. cbn. rewrite Hvl. apply mapM_Some. apply Forall2_same_length_lookup.
  split. { unfold arithmetic. by rewrite length_fmap, length_seq. }
  intros i r z Hi Hz.
  destruct (Hin i r Hi) as (row & -> & Htop & _). cbn. f_equal.
  rewrite arithmetic_lookup in Hz by (by eapply lookup_lt_Some).
  injection Hz as <-. by rewrite Htop.
Qed.

End Reposition.

(** ** Full reposition *)

Section RepositionClaims.
Context {T : Type} `{Entity T}.
Implicit Types (w : World T).

Lemma startPosition_cases w scroll :
  startPosition w scroll =
    if bool_decide (rawStart w scroll < 0) then 0
    else Z.min (rawStart w scroll) (maxStart w).
Proof.
  unfold startPosition, rawStart, maxStart.
  repeat case_bool_decide; lia.
Qed.

Lemma startPosition_repositioned w w' scroll :
  repositioned w w' → startPosition w' scroll = startPosition w scroll.
Proof. intros ->. done. Qed.

(** C7, amended.  On a rendered list [_reposition] returns and leaves the
    offsets of the pool as the arithmetic sequence of step [rowHeight] that
    starts at [startPosition]: 0 when the scroll position, rounded down to a
    row boundary, less the buffer height is negative, and otherwise the
    smaller of that value and [maxStart].  This is the clamp to
    [[0, maxStart]] whenever [maxStart] is not negative.  Consecutive offsets
    ascend by [rowHeight], and a second [_reposition] with nothing changed in
    between yields the same offsets. *)
Theorem reposition_offsets w scroll :
  scrollTop w = Some scroll → rendered w →
  ∃ w1 offs,
    _reposition w = Returns tt w1
    ∧ offsets w1 = Some offs
    ∧ offs = arithmetic (startPosition w scroll) (rowHeightZ w) (length (_virtualList w))
    ∧ startPosition w scroll =
        (if bool_decide (rawStart w scroll < 0) then 0
         else Z.min (rawStart w scroll) (maxStart w))
    ∧ (0 ≤ maxStart w →
         0 ≤ startPosition w scroll ≤ maxStart w
         ∧ startPosition w scroll = Z.max 0 (Z.min (rawStart w scroll) (maxStart w)))
    ∧ (∀ (i : nat) a b, offs !! i = Some a → offs !! S i = Some b →
         b = a + rowHeightZ w ∧ a < b)
    ∧ ∃ w2, _reposition w1 = Returns tt w2 ∧ offsets w2 = Some offs.
Proof.
  intros Hs Hr.
  destruct (_reposition_rendered w scroll Hs Hr) as (w1 & Hrun & Hrep & Hcur & Hr1 & Hoff).
  exists w1, (arithmetic (startPosition w scroll) (rowHeightZ w) (length (_virtualList w))).
  split; [done|]. split; [done|]. split; [done|].
  split; [apply startPosition_cases|].
  split. { intros Hmax. rewrite startPosition_cases. case_bool_decide; lia. }
  split.
  { intros i a b Ha Hb.
    assert (S i < length (_virtualList w))%nat as Hi.
    { apply lookup_lt_Some in Hb. unfold arithmetic in Hb.
      by rewrite length_fmap, length_seq in Hb. }
    rewrite arithmetic_lookup in Ha by lia. rewrite arithmetic_lookup in Hb by lia.
    injection Ha as <-. injection Hb as <-. unfold rowHeightZ. lia. }
  assert (Hs1 : scrollTop w1 = Some scroll) by (by rewrite Hrep).
  destruct (_reposition_rendered w1 scroll Hs1 Hr1) as (w2 & Hrun2 & Hrep2 & _ & _ & Hoff2).
  exists w2. split; [done|]. rewrite Hoff2.
  rewrite (startPosition_repositioned w w1) by done. by rewrite Hrep.
Qed.

End RepositionClaims.

(** ** Arrays *)

Section ArrayFacts.
Context {A : Type} `{EqDecision A}.
Implicit Types (l : list A) (x : A).

Lemma list_find_eq_NoDup l (i : nat) x :
  NoDup l → l !! i = Some x → list_find (λ y, y = x) l = Some (i, x).
Proof.
  intros Hnd Hi. apply list_find_Some. split; [done|]. split; [done|].
  intros j y Hj Hlt ->. pose proof (NoDup_lookup l i j x Hnd Hi Hj). lia.
Qed.

Lemma js_indexOf_NoDup l (i : nat) x :
  NoDup l → l !! i = Some x → js_indexOf l x = Z.of_nat i.
Proof. intros Hnd Hi. unfold js_indexOf. by rewrite (list_find_eq_NoDup l i x). Qed.

Lemma js_indexOf_elem_of l x :
  x ∈ l → ∃ i : nat, js_indexOf l x = Z.of_nat i ∧ l !! i = Some x.
Proof.
  intros Hx. unfold js_indexOf.
  destruct (list_find (λ y, y = x) l) as [[i y]|] eqn:Hf.
  - apply list_find_Some in Hf as (Hi & -> & _). eauto.
  - apply list_find_None in Hf. rewrite Forall_forall in Hf. by destruct (Hf x Hx).
Qed.

Lemma remove_NoDup l (i : nat) x :
  NoDup l → l !! i = Some x → remove l x = (true, delete i l).
Proof. intros Hnd Hi. unfold remove. by rewrite (list_find_eq_NoDup l i x). Qed.

Lemma remove_head x l : remove (x :: l) x = (true, l).
Proof. unfold remove. cbn. by rewrite decide_True. Qed.

Lemma js_get_nat l (i : nat) : js_get l (Z.of_nat i) = l !! i.
Proof. unfold js_get. rewrite bool_decide_eq_false_2 by lia. by rewrite Nat2Z.id. Qed.

Lemma last_lookup_NoDup l (i : nat) x :
  NoDup l → l !! i = Some x → last l = Some x → S i = length l.
Proof.
  intros Hnd Hi Hl. rewrite last_lookup in Hl.
  pose proof (NoDup_lookup l _ _ x Hnd Hi Hl). apply lookup_lt_Some in Hi. lia.
Qed.

End ArrayFacts.

Section StoreClaims.
Context {T : Type} `{Entity T}.
Implicit Types (w : World T) (e : T).

Lemma findById_Some (l : list T) id e :
  findById l id = Some e → ∃ i : nat, l !! i = Some e ∧ elementId e = id.
Proof.
  unfold findById. intros Hf. apply fmap_Some in Hf as ([i y] & Hf & ->).
  apply list_find_Some in Hf as (? & ? & _). eauto.
Qed.

(** [if (this.ready) this._reposition()] on a list that is rendered once it
    is ready. *)
Lemma reposition_if_ready (b : bool) w :
  (b = true → rendered w) →
  ∃ w', (if b then _reposition else λ w0, Returns tt w0) w = Returns tt w'
        ∧ repositioned w w'.
Proof.
  intros Hr. destruct b.
  - destruct Hr as ([scroll Hs] & Hr); [done|].
    destruct (_reposition_rendered w scroll Hs) as (w' & ? & ? & _); [by split|]. eauto.
  - exists w. split; [done|]. reflexivity.
Qed.

(** C8.  Inserting an entity whose identifier is already loaded returns
    normally and changes nothing but the trace, which gets the diagnostic:
    the loaded entities, the selection, [_loadedCompletely] and the rows stay
    as they are (no sort, no reposition) and no selection callback is made. *)
Theorem insert_duplicate_is_noop w e x :
  x ∈ _loadedEntities w → elementId x = elementId e →
  _addToLoadedEntities e w
  = Returns tt (set_trace (trace w ++ [ConsoleLog "entity already in list" e]) w).
Proof.
  intros Hx Hid. unfold _addToLoadedEntities. munfold.
  destruct (list_find _ _) as [[i y]|] eqn:Hf; [done|].
  apply list_find_None in Hf. rewrite Forall_forall in Hf.
  by destruct (Hf x Hx).
Qed.


(** C5, amended.  A click without modifier keys on [X] leaves the selection
    as [[X]].  If it was [[X]] already, nothing changes but the trace: the
    selection callback is made all the same, with explicit = true, changed =
    false, multi = false.  Otherwise, on a rendered list, the callback is
    made with explicit = true, changed = true, multi = false. *)
Theorem plain_click_selects_clicked w X event :
  metaKey event = false → ctrlKey event = false → shiftKey event = false →
  (_selectedEntities w = [X] →
     _elementClicked X event w
     = Returns tt (set_trace (trace w ++ [ElementSelected [X] true false false]) w))
  ∧ (_selectedEntities w ≠ [X] → rendered w →
     ∃ w', _elementClicked X event w = Returns tt w'
           ∧ _selectedEntities w' = [X]
           ∧ _loadedEntities w' = _loadedEntities w
           ∧ trace w' = trace w ++ [ElementSelected [X] true true false]).
Proof.
  intros Hm Hc Hs.
  assert (Hkey : (if isMacOS w then metaKey event else ctrlKey event) = false)
    by (by destruct (isMacOS w)).
  split.
  - intros Hsel. unfold _elementClicked. munfold.
    rewrite Hkey, Hs, !andb_false_r. unfold arrayEquals.
    rewrite bool_decide_eq_true_2 by done. cbn.
    unfold elementSelected, getSelectedEntities. munfold. by rewrite Hsel.
  - intros Hsel ([scroll Hscroll] & Hr).
    unfold _elementClicked. munfold.
    rewrite Hkey, Hs, !andb_false_r. unfold arrayEquals.
    rewrite bool_decide_eq_false_2 by done. cbn. unfold _elementClicked_end. munfold. cbn.
    destruct (_reposition_rendered (set_selectedEntities [X] w) scroll Hscroll)
      as (w' & Hrun & Hrep & _); [by split|].
    change (js_sort (sortCompare (_config w)) [X]) with [X].
    replace (set_selectedEntities [X] (set_selectedEntities [X] w))
      with (set_selectedEntities [X] w) by (by destruct w).
    rewrite Hrun. unfold elementSelected, getSelectedEntities. munfold.
    eexists. split; [done|]. rewrite Hrep. done.
Qed.

End StoreClaims.

Section RemoveClaims.
Context {T : Type} `{Entity T}.
Implicit Types (w : World T) (e : T).

(** The entity that follows the one at [i], or the one before it when [i] is
    the last index. *)
Lemma next_or_previous (l : list T) (i : nat) e :
  NoDup l → l !! i = Some e → (1 < length l)%nat →
  ∃ nxt,
    (if bool_decide (Some e = last_ l)
     then js_get l (Z.of_nat (length l) - 2)
     else js_get l (js_indexOf l e + 1)) = Some nxt
    ∧ l !! (if bool_decide (S i < length l)%nat then S i else pred i) = Some nxt.
Proof.
  intros Hnd Hi Hlen. unfold last_.
  pose proof (lookup_lt_Some _ _ _ Hi) as Hlt.
  case_bool_decide as Hlast.
  - symmetry in Hlast. pose proof (last_lookup_NoDup l i e Hnd Hi Hlast) as Hil.
    rewrite bool_decide_eq_false_2 by lia.
    replace (Z.of_nat (length l) - 2) with (Z.of_nat (pred i)) by lia.
    rewrite js_get_nat.
    destruct (lookup_lt_is_Some_2 l (pred i)) as [nxt Hn]; [lia|]. eauto.
  - assert (S i < length l)%nat as Hs.
    { destruct (decide (S i = length l)) as [Heq|]; [|lia].
      exfalso. apply Hlast. rewrite last_lookup. rewrite <- Hi. f_equal. lia. }
    rewrite bool_decide_eq_true_2 by lia.
    rewrite (js_indexOf_NoDup l i e) by done.
    replace (Z.of_nat i + 1) with (Z.of_nat (S i)) by lia.
    rewrite js_get_nat.
    destruct (lookup_lt_is_Some_2 l (S i)) as [nxt Hn]; [lia|]. eauto.
Qed.

(** The callback of [_deleteLoadedEntity] on a selected entity. *)
Lemma _deleteLoadedEntity_then_selected w id e (i : nat) :
  findById (_loadedEntities w) id = Some e →
  _loadedEntities w !! i = Some e →
  NoDup (_loadedEntities w) →
  (ready w = true → rendered w) →
  (_selectedEntities w = [e] → (1 < length (_loadedEntities w))%nat →
   ∃ nxt w',
     _loadedEntities w
       !! (if bool_decide (S i < length (_loadedEntities w))%nat then S i else pred i)
       = Some nxt
     ∧ _deleteLoadedEntity_then id w = Returns tt w'
     ∧ _loadedEntities w' = delete i (_loadedEntities w)
     ∧ _selectedEntities w' = [nxt]
     ∧ trace w' = trace w ++ [ElementSelected [nxt] false true false]
     ∧ promises w' = promises w)
  ∧ (e ∈ _selectedEntities w →
     length (_selectedEntities w) ≠ 1%nat ∨ length (_loadedEntities w) = 1%nat →
     ∃ w',
       _deleteLoadedEntity_then id w = Returns tt w'
       ∧ _loadedEntities w' = delete i (_loadedEntities w)
       ∧ _selectedEntities w' = (remove (_selectedEntities w) e).2
       ∧ trace w' = trace w ++ [ElementSelected (remove (_selectedEntities w) e).2
                                  false true true]
       ∧ promises w' = promises w).
Proof.
  intros Hfind Hi Hnd Hready. split.
  - intros Hsel Hlen.
    destruct (next_or_previous _ i e Hnd Hi Hlen) as (nxt & Hnext & Hlook).
    exists nxt. unfold _deleteLoadedEntity_then. munfold.
    rewrite Hfind, Hsel. cbn.
    rewrite (bool_decide_eq_true_2 (1%nat = 1%nat)) by done.
    rewrite (bool_decide_eq_true_2 (Some e = Some e)) by done.
    rewrite (bool_decide_eq_true_2 (1 < _)%nat) by done. cbn. rewrite Hnext.
    rewrite (remove_NoDup (_loadedEntities w) i e) by done. cbn. rewrite remove_head. cbn.
    match goal with
    | |- context [(if ready w then _reposition else _) ?W] =>
        destruct (reposition_if_ready (ready w) W) as (w' & Hrun & Hrep); [exact Hready|]
    end.
    rewrite Hrun.
    unfold elementSelected, getSelectedEntities. munfold.
    eexists. split; [done|]. split; [done|]. rewrite Hrep. done.
  - intros Hin Hcase.
    unfold _deleteLoadedEntity_then. munfold. rewrite Hfind.
    assert (bool_decide (length (_selectedEntities w) = 1%nat)
            && bool_decide (_selectedEntities w !! 0%nat = Some e)
            && bool_decide (1 < length (_loadedEntities w))%nat = false) as ->.
    { destruct Hcase as [Hn|Hn].
      - by rewrite (bool_decide_eq_false_2 _ Hn).
      - rewrite (bool_decide_eq_false_2 (1 < _)%nat) by lia. by rewrite andb_false_r. }
    cbn. rewrite (remove_NoDup (_loadedEntities w) i e) by done. cbn.
    assert ((remove (_selectedEntities w) e).1 = true) as Hrem.
    { unfold remove. destruct (list_find _ _) as [[j y]|] eqn:Hf; [done|].
      apply list_find_None in Hf. rewrite Forall_forall in Hf. by destruct (Hf e Hin). }
    match goal with
    | |- context [(if ready w then _reposition else _) ?W] =>
        destruct (reposition_if_ready (ready w) W) as (w' & Hrun & Hrep); [exact Hready|]
    end.
    rewrite Hrun, Hrem.
    unfold elementSelected, getSelectedEntities. munfold.
    eexists. split; [done|]. rewrite Hrep. done.
Qed.

(** C3, amended.  [_deleteLoadedEntity] removes nothing itself: it returns
    a promise that waits for the loading of the moment.  When that loading
    is fulfilled the callback runs; if the entity to delete is then the only
    selected one and another entity is loaded, the selection moves to the
    entity after it in the loaded order, or to the one before it when it was
    the last, and the selection callback is made with explicit = false,
    changed = true and multi = false; in every other removal of a selected
    entity the callback gets multi = true.  As long as that loading is in
    flight nothing is removed yet, and when it has failed nothing is removed
    at all: the selection stays and no callback is made. *)
Theorem remove_sole_selected_selects_next w id e (i : nat) p loading :
  promises w !! p = Some (Pending (K_afterLoading loading (ApplyDelete id))) →
  findById (_loadedEntities w) id = Some e →
  _loadedEntities w !! i = Some e →
  NoDup (_loadedEntities w) →
  (ready w = true → rendered w) →
  (∀ w0, _deleteLoadedEntity id w0
         = Returns (length (promises w0))
             (set_promises
                (promises w0 ++ [Pending (K_afterLoading (_loading w0) (ApplyDelete id))])
                w0))
  ∧ (promises w !! loading = Some Fulfilled →
     (_selectedEntities w = [e] → (1 < length (_loadedEntities w))%nat →
      ∃ nxt w',
        _loadedEntities w
          !! (if bool_decide (S i < length (_loadedEntities w))%nat then S i else pred i)
          = Some nxt
        ∧ loading_settled p w = Returns tt w'
        ∧ _loadedEntities w' = delete i (_loadedEntities w)
        ∧ _selectedEntities w' = [nxt]
        ∧ trace w' = trace w ++ [ElementSelected [nxt] false true false]
        ∧ promises w' = <[p := Fulfilled]> (promises w))
     ∧ (e ∈ _selectedEntities w →
        length (_selectedEntities w) ≠ 1%nat ∨ length (_loadedEntities w) = 1%nat →
        ∃ w',
          loading_settled p w = Returns tt w'
          ∧ _loadedEntities w' = delete i (_loadedEntities w)
          ∧ _selectedEntities w' = (remove (_selectedEntities w) e).2
          ∧ trace w' = trace w ++ [ElementSelected (remove (_selectedEntities w) e).2
                                     false true true]
          ∧ promises w' = <[p := Fulfilled]> (promises w)))
  ∧ (promises w !! loading ≠ Some Fulfilled →
     ∃ w', loading_settled p w = Returns tt w'
           ∧ _loadedEntities w' = _loadedEntities w
           ∧ _selectedEntities w' = _selectedEntities w
           ∧ trace w' = trace w
           ∧ promises w' !! p ≠ Some Fulfilled).
Proof.
  intros Hp Hfind Hi Hnd Hready.
  destruct (_deleteLoadedEntity_then_selected w id e i Hfind Hi Hnd Hready)
    as [Hsole Hother].
  split; [|split].
  - intros w0. reflexivity.
  - intros Hl. split.
    + intros Hsel Hlen.
      destruct (Hsole Hsel Hlen) as (nxt & w' & Hlook & Hrun & Hle & Hse & Htr & Hpr).
      exists nxt. unfold loading_settled. munfold. rewrite Hp, Hl, Hrun.
      eexists. split; [done|]. split; [reflexivity|].
      cbn. by rewrite Hpr.
    + intros Hin Hcase.
      destruct (Hother Hin Hcase) as (w' & Hrun & Hle & Hse & Htr & Hpr).
      unfold loading_settled. munfold. rewrite Hp, Hl, Hrun.
      eexists. split; [reflexivity|]. cbn. by rewrite Hpr.
  - intros Hl. unfold loading_settled. munfold. rewrite Hp.
    destruct (promises w !! loading) as [[k| |]|] eqn:Hld.
    + exists w. split; [done|]. split_and!; [done..|]. by rewrite Hp.
    + done.
    + eexists. split; [reflexivity|]. cbn. split_and!; [done..|].
      rewrite list_lookup_insert_eq by (by eapply lookup_lt_Some). done.
    + exists w. split; [done|]. split_and!; [done..|]. by rewrite Hp.
Qed.

End RemoveClaims.

Section RangeFacts.
Context {A : Type} `{EqDecision A}.
Implicit Types (l : list A) (x : A).

Lemma js_collect_take_drop (n : nat) : ∀ l (from : nat),
  (from + n ≤ length l)%nat →
  js_collect l (Z.of_nat from) n = Some (take n (drop from l)).
Proof.
  induction n as [|n IH]; intros l from Hlen; cbn [js_collect].
  - done.
  - destruct (lookup_lt_is_Some_2 l from) as [x Hx]; [lia|].
    rewrite js_get_nat, Hx.
    replace (Z.of_nat from + 1) with (Z.of_nat (S from)) by lia.
    rewrite IH by lia. by rewrite (drop_S l x from Hx).
Qed.

Lemma js_collect_range l (from : Z) (n : nat) :
  0 ≤ from → (Z.to_nat from + n ≤ length l)%nat →
  js_collect l from n = Some (take n (drop (Z.to_nat from) l)).
Proof.
  intros H0 Hlen. rewrite <- (Z2Nat.id from) at 1 by done.
  by apply js_collect_take_drop.
Qed.

Lemma elem_of_take_drop l (from n : nat) x :
  x ∈ take n (drop from l) ↔ ∃ j : nat, l !! j = Some x ∧ (from ≤ j < from + n)%nat.
Proof.
  rewrite elem_of_take. split.
  - intros (i & Hi & Hlt). rewrite lookup_drop in Hi. exists (from + i)%nat. split; [done|lia].
  - intros (j & Hj & Hlt). exists (j - from)%nat. rewrite lookup_drop.
    replace (from + (j - from))%nat with j by lia. split; [done|lia].
Qed.

End RangeFacts.

Section ShiftClick.
Context {T : Type} `{Entity T}.
Implicit Types (w : World T) (e : T) (loaded selected : list T).

Lemma nearestSelected_from loaded ci selected : ∀ a,
  ∃ n, nearestSelected loaded ci selected (Some a) = Some n
       ∧ (n = a ∨ ∃ s, s ∈ selected ∧ js_indexOf loaded s = n)
       ∧ Z.abs (ci - n) ≤ Z.abs (ci - a)
       ∧ ∀ s, s ∈ selected → Z.abs (ci - n) ≤ Z.abs (ci - js_indexOf loaded s).
Proof.
  induction selected as [|s selected IH]; intros a; cbn [nearestSelected].
  - exists a. split; [done|]. split; [by left|]. split; [lia|]. intros s Hs. by apply elem_of_nil in Hs.
  - case_bool_decide as Hlt.
    + destruct (IH (js_indexOf loaded s)) as (n & -> & Hn & Hle & Hall).
      exists n. split; [done|]. split.
      { right. destruct Hn as [->|(s' & ? & ?)]; [exists s; split; [left|done]|].
        exists s'. split; [by right|done]. }
      split; [lia|]. intros s' [->|Hs']%elem_of_cons; [done|by apply Hall].
    + destruct (IH a) as (n & -> & Hn & Hle & Hall).
      exists n. split; [done|]. split.
      { destruct Hn as [->|(s' & ? & ?)]; [by left|]. right. exists s'. split; [by right|done]. }
      split; [lia|]. intros s' [->|Hs']%elem_of_cons; [lia|by apply Hall].
Qed.

Lemma nearestSelected_nearest loaded ci selected :
  selected ≠ [] →
  ∃ n s, nearestSelected loaded ci selected None = Some n
         ∧ s ∈ selected ∧ js_indexOf loaded s = n
         ∧ ∀ s', s' ∈ selected → Z.abs (ci - n) ≤ Z.abs (ci - js_indexOf loaded s').
Proof.
  destruct selected as [|s0 selected]; [done|]. intros _. cbn [nearestSelected].
  destruct (nearestSelected_from loaded ci selected (js_indexOf loaded s0))
    as (n & -> & Hn & Hle & Hall).
  destruct Hn as [->|(s & Hs & Hidx)].
  - exists (js_indexOf loaded s0), s0. split; [done|]. split; [left|]. split; [done|].
    intros s' [->|Hs']%elem_of_cons; [done|by apply Hall].
  - exists n, s. split; [done|]. split; [by right|]. split; [done|].
    intros s' [->|Hs']%elem_of_cons; [done|by apply Hall].
Qed.

(** The entities [itemsToAddToSelection] collects between the index [n] of
    a loaded entity and the index [ci] of the clicked one. *)
Lemma itemsToAddToSelection_between loaded (ci n : nat) :
  (ci < length loaded)%nat → (n < length loaded)%nat →
  ∃ items,
    itemsToAddToSelection loaded (Z.of_nat ci) (Some (Z.of_nat n)) = Some items
    ∧ ∀ x, x ∈ items ↔
           ∃ j : nat, loaded !! j = Some x ∧ ((n < j ≤ ci)%nat ∨ (ci ≤ j < n)%nat).
Proof.
  intros Hci Hn. unfold itemsToAddToSelection, neverNull, default, id. cbn [from_option].
  case_bool_decide as Hlt.
  - rewrite js_collect_range by lia. eexists. split; [done|].
    intros x. rewrite elem_of_take_drop. apply exist_proper; intros j.
    split; (intros [? ?]; split; [done|lia]).
  - rewrite js_collect_range by lia. eexists. split; [done|].
    intros x. rewrite elem_of_take_drop. apply exist_proper; intros j.
    split; (intros [? ?]; split; [done|lia]).
Qed.

(** C6, amended.  A shift-click on the loaded entity [c] with a selection
    that is neither empty nor [[c]].  When the list allows multi-selection
    and the toggle key is not pressed, there is a selected entity [s], at
    the loaded index [n], that no selected entity beats in the distance of
    its index to the index [ci] of [c]; the entities at the indices strictly
    between [n] and [ci], and [c] itself when [n] differs from [ci], are
    added to the selection and nothing else is; the callback is made with
    explicit = true and multi = true.  When the list does not allow
    multi-selection the shift key is ignored: the selection becomes [[c]]
    and the callback is made with changed = true and multi = false. *)
Theorem shift_click_extends_to_nearest w c event (ci : nat) :
  shiftKey event = true →
  _selectedEntities w ≠ [] → _selectedEntities w ≠ [c] →
  NoDup (_loadedEntities w) →
  _loadedEntities w !! ci = Some c →
  _selectedEntities w ⊆ _loadedEntities w →
  rendered w →
  (multiSelectionAllowed (_config w) = true →
   (if isMacOS w then metaKey event else ctrlKey event) = false →
   ∃ (n : nat) s items w',
     s ∈ _selectedEntities w ∧ _loadedEntities w !! n = Some s
     ∧ (∀ s' (j : nat), s' ∈ _selectedEntities w → _loadedEntities w !! j = Some s' →
          Z.abs (Z.of_nat ci - Z.of_nat n) ≤ Z.abs (Z.of_nat ci - Z.of_nat j))
     ∧ (∀ x, x ∈ items ↔
             ∃ j : nat, _loadedEntities w !! j = Some x
                        ∧ ((n < j ≤ ci)%nat ∨ (ci ≤ j < n)%nat))
     ∧ _elementClicked c event w = Returns tt w'
     ∧ _selectedEntities w' ≡ₚ _selectedEntities w ++ items
     ∧ _loadedEntities w' = _loadedEntities w
     ∧ trace w' = trace w ++ [ElementSelected (_selectedEntities w') true
                                (bool_decide (items ≠ [])) true])
  ∧ (multiSelectionAllowed (_config w) = false →
     ∃ w', _elementClicked c event w = Returns tt w'
           ∧ _selectedEntities w' = [c]
           ∧ _loadedEntities w' = _loadedEntities w
           ∧ trace w' = trace w ++ [ElementSelected [c] true true false]).
Proof.
  intros Hshift Hne Hnc Hnd Hci Hsub ([scroll Hscroll] & Hr). split.
  - intros Hmulti Hkey.
    destruct (nearestSelected_nearest (_loadedEntities w) (Z.of_nat ci)
                (_selectedEntities w) Hne) as (nz & s & Hnear & Hs & Hidx & Hmin).
    destruct (js_indexOf_elem_of (_loadedEntities w) s) as (n & Hn & Hsn); [by apply Hsub|].
    rewrite Hn in Hidx. subst nz.
    destruct (itemsToAddToSelection_between (_loadedEntities w) ci n)
      as (items & Hitems & Hchar); [by eapply lookup_lt_Some..|].
    exists n, s, items.
    assert (Hexec : ∃ w', _elementClicked c event w = Returns tt w'
              ∧ _selectedEntities w' ≡ₚ _selectedEntities w ++ items
              ∧ _loadedEntities w' = _loadedEntities w
              ∧ trace w' = trace w ++ [ElementSelected (_selectedEntities w') true
                                         (bool_decide (items ≠ [])) true]).
    { unfold _elementClicked. munfold. rewrite Hmulti, Hkey, Hshift. cbn.
      rewrite (bool_decide_eq_false_2 (length _ = 0%nat))
        by (by destruct (_selectedEntities w)).
      assert (bool_decide (length (_selectedEntities w) = 1%nat)
              && bool_decide (_selectedEntities w !! 0%nat = Some c) = false) as ->.
      { apply andb_false_iff. destruct (_selectedEntities w) as [|x [|y l]] eqn:Hsel.
        - done.
        - right. apply bool_decide_eq_false_2. cbn. intros [= ->]. done.
        - left. by apply bool_decide_eq_false_2. }
      rewrite (js_indexOf_NoDup _ ci c) by done. rewrite Hnear, Hitems.
      unfold _elementClicked_end, addAll. munfold. cbn.
      destruct items as [|x items].
      - cbn. unfold elementSelected, getSelectedEntities. munfold.
        eexists. split; [done|]. cbn. done.
      - rewrite bool_decide_eq_true_2 by (cbn; lia).
        match goal with
        | |- context [_reposition ?W] =>
            destruct (_reposition_rendered W scroll Hscroll) as (w' & Hrun & Hrep & _);
              [by split|]
        end.
        rewrite Hrun. unfold elementSelected, getSelectedEntities. munfold.
        eexists. split; [done|]. rewrite Hrep. cbn.
        split; [apply merge_sort_Permutation|done]. }
    destruct Hexec as (w' & ? & ? & ? & ?). exists w'.
    split; [done|]. split; [done|]. split; [|done].
    intros s' j Hs' Hj. specialize (Hmin s' Hs').
    by rewrite (js_indexOf_NoDup _ j s') in Hmin.
  - intros Hmulti. unfold _elementClicked. munfold. rewrite Hmulti. cbn.
    unfold arrayEquals. rewrite bool_decide_eq_false_2 by done. cbn.
    unfold _elementClicked_end. munfold. cbn.
    destruct (_reposition_rendered (set_selectedEntities [c] w) scroll Hscroll)
      as (w' & Hrun & Hrep & _); [by split|].
    change (js_sort (sortCompare (_config w)) [c]) with [c].
    replace (set_selectedEntities [c] (set_selectedEntities [c] w))
      with (set_selectedEntities [c] w) by (by destruct w).
    rewrite Hrun. unfold elementSelected, getSelectedEntities. munfold.
    eexists. split; [done|]. rewrite Hrep. done.
Qed.

End ShiftClick.

Section Frames.
Context {T : Type} `{Entity T}.
Implicit Types (w : World T) (e : T) (R : relation (World T)).

Global Instance sameStore_preorder : PreOrder (sameStore (T := T)).
Proof.
  split.
  - by intros w.
  - intros w1 w2 w3 (? & ? & ?) (? & ? & ?). unfold sameStore. split_and!; congruence.
Qed.

Global Instance completelyStays_preorder : PreOrder (completelyStays (T := T)).
Proof.
  split.
  - by intros w.
  - intros w1 w2 w3 (? & ?) (? & ?). unfold completelyStays. split; [congruence|auto].
Qed.

Lemma sameStore_completelyStays w w' : sameStore w w' → completelyStays w w'.
Proof. intros (? & ? & Hc). split; [done|]. by rewrite Hc. Qed.

Lemma repositioned_sameStore w w' : repositioned w w' → sameStore w w'.
Proof. by intros ->. Qed.

Lemma frame_total_after {A} R (m : M T A) w :
  frame R m → total m → ∃ w', after (m w) = Some w' ∧ R w w'.
Proof.
  intros Hf Ht. specialize (Hf w). specialize (Ht w).
  destruct (m w); cbn in *; [eauto..|by destruct Ht].
Qed.

Lemma sameStore__reposition : frame sameStore (_reposition (T := T)).
Proof. eapply frame_weaken; [apply repositioned_sameStore|apply frame__reposition]. Qed.

End Frames.

Create HintDb frames.
Global Hint Resolve sameStore__reposition total__reposition total_readRow : frames.
Global Hint Extern 1 (frame _ (readRow _)) => apply frame_readRow; apply _ : frames.

Ltac frame_auto :=
  repeat first
    [ solve [eauto 3 with frames]
    | frame_step
    | apply frame_modify; intros ?; by (hnf; cbn) ].

Section Frames2.
Context {T : Type} `{Entity T}.
Implicit Types (w : World T) (e : T) (R : relation (World T)).

Lemma sameStore_elementSelected a b c : frame sameStore (elementSelected (T := T) a b c).
Proof. unfold elementSelected, emit. frame_auto. Qed.

Lemma total_elementSelected a b c : total (elementSelected (T := T) a b c).
Proof. unfold elementSelected, emit. frame_auto. Qed.

#[local] Hint Resolve sameStore_elementSelected total_elementSelected : frames.

Lemma sameStore__entitySelected e b : frame sameStore (_entitySelected e b).
Proof. unfold _entitySelected. frame_auto. Qed.

Lemma total__entitySelected e b : total (_entitySelected e b).
Proof. unfold _entitySelected. frame_auto. Qed.

Lemma sameStore_isVisible rs e : frame sameStore (isVisible rs e).
Proof. induction rs; cbn [isVisible]; frame_auto. Qed.

Lemma total_isVisible rs e : total (isVisible rs e).
Proof. induction rs; cbn [isVisible]; frame_auto. Qed.

#[local] Hint Resolve sameStore__entitySelected total__entitySelected sameStore_isVisible
  total_isVisible : frames.

Lemma sameStore__scrollToLoadedEntityAndSelect e b :
  frame sameStore (_scrollToLoadedEntityAndSelect e b).
Proof. unfold _scrollToLoadedEntityAndSelect. frame_auto. Qed.

Lemma total__scrollToLoadedEntityAndSelect e b :
  total (_scrollToLoadedEntityAndSelect e b).
Proof. unfold _scrollToLoadedEntityAndSelect. frame_auto. Qed.

End Frames2.

Global Hint Resolve sameStore_elementSelected total_elementSelected
  sameStore__entitySelected total__entitySelected sameStore_isVisible total_isVisible
  sameStore__scrollToLoadedEntityAndSelect total__scrollToLoadedEntityAndSelect : frames.

Section SortFacts.
Context {A : Type} (compare : A → A → Z).
Implicit Types (l : list A).

Lemma cmp_le_total : consistent compare → Total (cmp_le compare).
Proof. intros [Ht _] a b. apply Ht. Qed.

Lemma cmp_le_trans : consistent compare → Transitive (cmp_le compare).
Proof. intros [_ Ht] a b c. apply Ht. Qed.

Lemma js_sort_sorted l :
  consistent compare → StronglySorted (cmp_le compare) (js_sort compare l).
Proof.
  intros Hc. unfold js_sort.
  apply (@StronglySorted_merge_sort _ _ _ (cmp_le_trans Hc) (cmp_le_total Hc)).
Qed.

Lemma js_sort_perm l : js_sort compare l ≡ₚ l.
Proof. apply merge_sort_Permutation. Qed.

Lemma StronglySorted_delete (R : relation A) l (i : nat) :
  StronglySorted R l → StronglySorted R (delete i l).
Proof.
  intros Hs. revert i. induction Hs as [|x l Hs IH Hx]; intros [|i]; cbn.
  - constructor.
  - constructor.
  - done.
  - constructor; [apply IH|].
    rewrite Forall_forall in *. intros y Hy. apply Hx.
    by eapply list_elem_of_delete_inv.
Qed.

End SortFacts.

Section StoreInvariant.
Context {T : Type} `{Entity T}.
Implicit Types (w : World T) (e : T).

Lemma storeOk_sorted_perm w w' l :
  consistent (sortCompare (_config w)) →
  _config w' = _config w →
  _loadedEntities w' = js_sort (sortCompare (_config w)) l →
  NoDup (elementId <$> l) →
  storeOk w'.
Proof.
  intros Hc Hcfg Hl Hnd. unfold storeOk. rewrite Hcfg, Hl. split.
  - by apply js_sort_sorted.
  - by rewrite js_sort_perm.
Qed.

Lemma storeOk_NoDup w : storeOk w → NoDup (_loadedEntities w).
Proof. intros [_ Hnd]. by eapply NoDup_fmap_1. Qed.

Lemma bind_get {A} (k : World T → M T A) w : (get ≫= k) w = k w w.
Proof. done. Qed.

Lemma bind_assoc {A B C} (m : M T A) (f : A → M T B) (g : B → M T C) w :
  ((m ≫= f) ≫= g) w = (m ≫= λ a, f a ≫= g) w.
Proof. munfold. by destruct (m w). Qed.

Lemma after_modify_then {A} (R : relation (World T)) f (rest : M T A) w :
  frame R rest → total rest →
  ∃ w', after ((modify f ≫= λ _, rest) w) = Some w' ∧ R (f w) w'.
Proof. intros Hf Ht. apply (frame_total_after R rest (f w) Hf Ht). Qed.

(** What the three operations of the store do to the loaded entities. *)
Lemma after__addToLoadedEntities e w :
  ∃ w', after (_addToLoadedEntities e w) = Some w'
        ∧ _config w' = _config w
        ∧ (_loadedEntities w' = _loadedEntities w
           ∨ (elementId e ∉ (elementId <$> _loadedEntities w))
             ∧ _loadedEntities w'
               = js_sort (sortCompare (_config w)) (_loadedEntities w ++ [e])).
Proof.
  unfold _addToLoadedEntities. rewrite bind_get.
  destruct (list_find _ _) as [[i x]|] eqn:Hf.
  - eexists. split; [done|]. split; [done|]. by left.
  - assert (Hnew : elementId e ∉ (elementId <$> _loadedEntities w)).
    { apply list_find_None in Hf. rewrite Forall_forall in Hf.
      intros (x & Hx & Hin)%list_elem_of_fmap. by apply (Hf x). }
    match goal with
    | |- context [after ((modify ?f ≫= ?k) ?W)] =>
        destruct (after_modify_then sameStore f (k tt) W) as (w' & Hafter & Hcfg & Hl & _);
          [frame_auto..|]
    end.
    exists w'. split; [exact Hafter|].
    split; [done|]. right. by rewrite Hl.
Qed.

Lemma after__updateLoadedEntity e w :
  ∃ w', after (_updateLoadedEntity e w) = Some w'
        ∧ _config w' = _config w
        ∧ (_loadedEntities w' = _loadedEntities w
           ∨ ∃ (i : nat) x, _loadedEntities w !! i = Some x ∧ elementId e = elementId x
               ∧ _loadedEntities w'
                 = js_sort (sortCompare (_config w)) (<[i := e]> (_loadedEntities w))).
Proof.
  unfold _updateLoadedEntity. rewrite bind_get.
  destruct (list_find _ _) as [[i x]|] eqn:Hf.
  - apply list_find_Some in Hf as (Hi & Hid & _). rewrite bind_assoc.
    match goal with
    | |- context [after ((modify ?f ≫= ?k) ?W)] =>
        destruct (after_modify_then sameStore f (k tt) W) as (w' & Hafter & Hcfg & Hl & _);
          [frame_auto..|]
    end.
    exists w'. split; [exact Hafter|].
    split; [done|]. right. exists i, x. by rewrite Hl.
  - match goal with
    | |- context [after (?m ?W)] =>
        destruct (frame_total_after sameStore m W) as (w' & Hafter & Hcfg & Hl & _);
          [frame_auto..|]
    end.
    exists w'. split; [exact Hafter|].
    split; [done|]. by left.
Qed.

Lemma after__deleteLoadedEntity_then id w :
  NoDup (_loadedEntities w) →
  ∃ w', after (_deleteLoadedEntity_then id w) = Some w'
        ∧ _config w' = _config w
        ∧ (_loadedEntities w' = _loadedEntities w
           ∨ ∃ i : nat, _loadedEntities w' = delete i (_loadedEntities w)).
Proof.
  intros Hnd. unfold _deleteLoadedEntity_then. munfold.
  destruct (findById _ _) as [e|] eqn:Hf.
  2:{ eexists. split; [done|]. split; [done|]. by left. }
  apply findById_Some in Hf as (i & Hi & _).
  rewrite (remove_NoDup (_loadedEntities w) i e) by done.
  assert (Hrest : ∀ (b c : bool) W,
    _config W = _config w → _loadedEntities W = delete i (_loadedEntities w) →
    ∃ w', after (match (if ready w then _reposition else λ w0, Returns () w0) W with
                 | Returns _ w1 =>
                     (if c then elementSelected false true b else λ w0, Returns () w0) w1
                 | Throws msg w1 => Throws msg w1
                 | Unrepresented => Unrepresented
                 end) = Some w'
          ∧ _config w' = _config w
          ∧ _loadedEntities w' = delete i (_loadedEntities w)).
  { intros b c W Hcfg Hl.
    destruct (frame_total_after sameStore
                ((if ready w then _reposition else mret tt)
                 ≫= λ _, if c then elementSelected false true b else mret tt) W)
      as (w' & Hafter & Hc' & Hl' & _); [frame_auto..|].
    exists w'. split; [exact Hafter|]. split; congruence. }
  destruct (bool_decide (length (_selectedEntities w) = 1%nat)
            && bool_decide (_selectedEntities w !! 0%nat = Some e)
            && bool_decide (1 < length (_loadedEntities w))%nat) eqn:Hcond.
  - apply andb_true_iff in Hcond as [_ Hlen%bool_decide_eq_true_1].
    destruct (next_or_previous _ i e Hnd Hi Hlen) as (nxt & -> & _). cbn.
    edestruct Hrest as (w' & Ha & ? & ?); [| |exists w'; split; [exact Ha|]]; [done..|].
    split; [done|]. right. by exists i.
  - cbn.
    edestruct Hrest as (w' & Ha & ? & ?); [| |exists w'; split; [exact Ha|]]; [done..|].
    split; [done|]. right. by exists i.
Qed.

Lemma storeOk_applyOp op w :
  consistent (sortCompare (_config w)) → storeOk w →
  ∃ w', after (applyOp op w) = Some w' ∧ _config w' = _config w ∧ storeOk w'.
Proof.
  intros Hc Hok. destruct op as [e|e|id]; cbn [applyOp].
  - destruct (after__addToLoadedEntities e w) as (w' & Ha & Hcfg & [Hl|[Hnew Hl]]);
      exists w'; (split; [done|]); (split; [done|]).
    + unfold storeOk. by rewrite Hcfg, Hl.
    + eapply storeOk_sorted_perm; [done..|].
      rewrite fmap_app. apply NoDup_app. split; [apply Hok|]. split.
      * intros x Hx [->|[]%elem_of_nil]%elem_of_cons. done.
      * apply NoDup_singleton.
  - destruct (after__updateLoadedEntity e w)
      as (w' & Ha & Hcfg & [Hl|(i & x & Hi & Hid & Hl)]);
      exists w'; (split; [done|]); (split; [done|]).
    + unfold storeOk. by rewrite Hcfg, Hl.
    + eapply storeOk_sorted_perm; [done..|].
      rewrite list_fmap_insert, Hid, list_insert_id; [apply Hok|].
      by rewrite list_lookup_fmap, Hi.
  - destruct (after__deleteLoadedEntity_then id w (storeOk_NoDup w Hok))
      as (w' & Ha & Hcfg & [Hl|(i & Hl)]);
      exists w'; (split; [done|]); (split; [done|]).
    + unfold storeOk. by rewrite Hcfg, Hl.
    + unfold storeOk. rewrite Hcfg, Hl. destruct Hok as [Hs Hn]. split.
      * by apply StronglySorted_delete.
      * rewrite list_fmap_delete. eapply sublist_NoDup; [exact Hn|apply sublist_delete].
Qed.

(** C2.  From an empty store, whatever inserts, replacements and removals
    are applied, every one of them leaves a world behind, and in the last one
    the loaded entities are sorted by the comparator of the configuration and
    no two of them have the same identifier.  The comparator is taken to be a
    total preorder. *)
Theorem store_stays_sorted_without_duplicates ops w :
  consistent (sortCompare (_config w)) →
  _loadedEntities w = [] →
  ∃ w', applyOps ops w = Some w'
        ∧ StronglySorted (cmp_le (sortCompare (_config w))) (_loadedEntities w')
        ∧ NoDup (elementId <$> _loadedEntities w').
Proof.
  intros Hc Hempty.
  assert (Hok : storeOk w).
  { unfold storeOk. rewrite Hempty. split; [constructor|apply NoDup_nil_2]. }
  clear Hempty.
  assert (∃ w', applyOps ops w = Some w' ∧ _config w' = _config w ∧ storeOk w')
    as (w' & ? & Hcfg & Hs & Hn).
  { revert w Hc Hok. induction ops as [|op ops IH]; intros w Hc Hok; cbn [applyOps].
    - by exists w.
    - destruct (storeOk_applyOp op w Hc Hok) as (w1 & -> & Hcfg & Hok1).
      destruct (IH w1) as (w' & ? & ? & ?); [by rewrite Hcfg|done|].
      exists w'. split; [done|]. split; [congruence|done]. }
  exists w'. rewrite <- Hcfg. done.
Qed.

End StoreInvariant.

Global Hint Extern 5 (frame completelyStays _) =>
  (eapply frame_weaken; [apply sameStore_completelyStays | solve [eauto 3 with frames]])
  : frames.

Section Permanence.
Context {T : Type} `{Entity T}.
Implicit Types (w : World T) (e : T).

Lemma completelyStays_newPromise k : frame completelyStays (newPromise (T := T) k).
Proof. unfold newPromise. frame_auto. Qed.

Lemma completelyStays_settle p b : frame completelyStays (settle (T := T) p b).
Proof. unfold settle. frame_auto. Qed.

Lemma completelyStays_emit eff : frame completelyStays (emit (T := T) eff).
Proof. unfold emit. frame_auto. Qed.

Lemma completelyStays_writeRow r (row : VirtualRow T) : frame completelyStays (writeRow r row).
Proof. unfold writeRow. frame_auto. Qed.

#[local] Hint Resolve completelyStays_newPromise completelyStays_settle completelyStays_emit
  completelyStays_writeRow : frames.

Lemma completelyStays__loadMore : frame completelyStays (_loadMore (T := T)).
Proof. unfold _loadMore. frame_auto. Qed.

Lemma completelyStays__loadMore_then start count items :
  frame completelyStays (_loadMore_then (T := T) start count items).
Proof. unfold _loadMore_then, setLoadedCompletely. frame_auto. Qed.

Lemma completelyStays__loadMore_finally : frame completelyStays (_loadMore_finally (T := T)).
Proof. unfold _loadMore_finally. frame_auto. Qed.

#[local] Hint Resolve completelyStays__loadMore completelyStays__loadMore_then
  completelyStays__loadMore_finally : frames.

Lemma completelyStays__loadMore_settled p page :
  frame completelyStays (_loadMore_settled (T := T) p page).
Proof. unfold _loadMore_settled. frame_auto. Qed.

Lemma completelyStays__scroll : frame completelyStays (_scroll (T := T)).
Proof. unfold _scroll. frame_auto. Qed.

#[local] Hint Resolve completelyStays__scroll : frames.

Lemma completelyStays_onScroll scroll : frame completelyStays (onScroll (T := T) scroll).
Proof. unfold onScroll. frame_auto. Qed.

Lemma completelyStays__updateVirtualRow r (oe : option T) odd :
  frame completelyStays (_updateVirtualRow r oe odd).
Proof.
  eapply frame_weaken; [|apply frame__updateVirtualRow].
  intros w w' Hr. by apply sameStore_completelyStays, repositioned_sameStore.
Qed.

#[local] Hint Resolve completelyStays__updateVirtualRow : frames.

Lemma completelyStays__scroll_down fuel : ∀ t,
  frame completelyStays (_scroll_down (T := T) fuel t).
Proof. induction fuel as [|fuel IH]; intros t; cbn [_scroll_down]; frame_auto. Qed.

Lemma completelyStays__scroll_up fuel : ∀ t b,
  frame completelyStays (_scroll_up (T := T) fuel t b).
Proof. induction fuel as [|fuel IH]; intros t b; cbn [_scroll_up]; frame_auto. Qed.

#[local] Hint Resolve completelyStays__scroll_down completelyStays__scroll_up : frames.

Lemma completelyStays__scroll_all dev fuel :
  frame completelyStays (_scroll_all (T := T) dev fuel).
Proof. unfold _scroll_all. frame_auto. Qed.

#[local] Hint Resolve completelyStays__scroll_all : frames.

Lemma completelyStays_onScroll_all dev fuel scroll :
  frame completelyStays (onScroll_all (T := T) dev fuel scroll).
Proof. unfold onScroll_all. frame_auto. Qed.

Lemma completelyStays__elementClicked_end a b :
  frame completelyStays (_elementClicked_end (T := T) a b).
Proof. unfold _elementClicked_end. frame_auto. Qed.

#[local] Hint Resolve completelyStays__elementClicked_end : frames.

Lemma completelyStays__elementClicked e event :
  frame completelyStays (_elementClicked e event).
Proof. unfold _elementClicked. frame_auto. Qed.

Lemma completelyStays__addToLoadedEntities e : frame completelyStays (_addToLoadedEntities e).
Proof. unfold _addToLoadedEntities. frame_auto. Qed.

Lemma completelyStays__updateLoadedEntity e : frame completelyStays (_updateLoadedEntity e).
Proof. unfold _updateLoadedEntity. frame_auto. Qed.

Lemma completelyStays__deleteLoadedEntity_then id :
  frame completelyStays (_deleteLoadedEntity_then (T := T) id).
Proof. unfold _deleteLoadedEntity_then. frame_auto. Qed.

#[local] Hint Resolve completelyStays__addToLoadedEntities completelyStays__updateLoadedEntity
  completelyStays__deleteLoadedEntity_then : frames.

Lemma completelyStays_entityEventReceived_then op e :
  frame completelyStays (entityEventReceived_then op e).
Proof. unfold entityEventReceived_then. frame_auto. Qed.

#[local] Hint Resolve completelyStays_entityEventReceived_then : frames.

Lemma completelyStays_entityEventReceived id op :
  frame completelyStays (entityEventReceived (T := T) id op).
Proof. unfold entityEventReceived, _deleteLoadedEntity. frame_auto. Qed.

Lemma completelyStays_loadSingle_settled p result :
  frame completelyStays (loadSingle_settled (T := T) p result).
Proof. unfold loadSingle_settled. frame_auto. Qed.

Lemma completelyStays_loading_settled p : frame completelyStays (loading_settled (T := T) p).
Proof. unfold loading_settled. frame_auto. Qed.

Lemma completelyStays__init cw ch : frame completelyStays (_init (T := T) cw ch).
Proof. unfold _init, _createVirtualElements. frame_auto. Qed.

Lemma completelyStays__initRow r dom : frame completelyStays (_initRow (T := T) r dom).
Proof. unfold _initRow. frame_auto. Qed.

Lemma completelyStays__init_frame : frame completelyStays (_init_frame (T := T)).
Proof. unfold _init_frame. frame_auto. Qed.

Lemma completelyStays_reset : frame completelyStays (reset (T := T)).
Proof. unfold reset. frame_auto. Qed.

Lemma completelyStays_finish : frame completelyStays (finish (T := T)).
Proof. unfold finish. frame_auto. Qed.

Lemma completelyStays_findRowAt rs z : frame completelyStays (findRowAt (T := T) rs z).
Proof. induction rs; cbn [findRowAt]; frame_auto. Qed.

#[local] Hint Resolve completelyStays_reset completelyStays_finish completelyStays_findRowAt : frames.

Lemma completelyStays_getVirtualElement : frame completelyStays (getVirtualElement (T := T)).
Proof. unfold getVirtualElement. frame_auto. Qed.

#[local] Hint Resolve completelyStays_getVirtualElement : frames.

Lemma completelyStays_move (te : TouchEvent) : frame completelyStays (move (T := T) te).
Proof. unfold move. frame_auto. Qed.

Lemma completelyStays_end_ (te : TouchEvent) : frame completelyStays (end_ (T := T) te).
Proof. unfold end_. frame_auto. Qed.

Lemma completelyStays_swipe_settled p ok : frame completelyStays (swipe_settled (T := T) p ok).
Proof. unfold swipe_settled, redraw. frame_auto. Qed.

Lemma completelyStays_finish_settled p : frame completelyStays (finish_settled (T := T) p).
Proof. unfold finish_settled. frame_auto. Qed.

(** No event resets [_loadedCompletely]. *)
Lemma completelyStays_dispatch ev : frame completelyStays (dispatch (T := T) ev).
Proof.
  destruct ev; cbn [dispatch].
  - apply completelyStays__init.
  - apply completelyStays__initRow.
  - apply completelyStays__init_frame.
  - frame_auto.
  - apply completelyStays__loadMore_settled.
  - apply completelyStays_onScroll.
  - apply completelyStays_onScroll_all.
  - apply completelyStays__elementClicked.
  - unfold redraw. frame_auto.
  - apply frame_bind; [apply _|apply completelyStays_entityEventReceived|intros; frame_auto].
  - apply completelyStays_loadSingle_settled.
  - apply completelyStays_loading_settled.
  - unfold start. frame_auto.
  - apply completelyStays_move.
  - apply completelyStays_end_.
  - unfold cancel. frame_auto.
  - apply completelyStays_swipe_settled.
  - apply completelyStays_finish_settled.
Qed.

Lemma completelyStays_run evs : ∀ w w',
  run evs w = Some w' → completelyStays w w'.
Proof.
  induction evs as [|ev evs IH]; intros w w'; cbn [run].
  - intros [= ->]. reflexivity.
  - pose proof (completelyStays_dispatch ev w) as Hd.
    destruct (dispatch ev w) as [[] w1|msg w1|]; cbn [after]; [| |done];
      intros Hrun; (etrans; [exact Hd|by apply IH]).
Qed.

End Permanence.

Section PutFacts.
Context {A : Type}.
Implicit Types (l items : list A).

Lemma js_put_from_length items : ∀ l (start : nat),
  (start ≤ length l)%nat →
  ∃ l', js_put_from l start items = Some l'
        ∧ length l' = (length l `max` (start + length items))%nat.
Proof.
  induction items as [|v items IH]; intros l start Hs; cbn [js_put_from].
  - exists l. split; [done|]. cbn. lia.
  - unfold js_put. case_bool_decide as Hlt.
    + destruct (IH (<[start := v]> l) (S start)) as (l' & -> & Hl').
      { rewrite length_insert. lia. }
      exists l'. split; [done|]. rewrite Hl', length_insert. cbn. lia.
    + rewrite bool_decide_eq_true_2 by lia.
      destruct (IH (l ++ [v]) (S start)) as (l' & -> & Hl').
      { rewrite length_app. cbn. lia. }
      exists l'. split; [done|]. rewrite Hl', length_app. cbn. lia.
Qed.

End PutFacts.

Section Pagination.
Context {T : Type} `{Entity T}.
Implicit Types (w : World T) (e : T).

Lemma js_sort_length (compare : T → T → Z) (l : list T) :
  length (js_sort compare l) = length l.
Proof. by rewrite js_sort_perm. Qed.

(** [_loadMore] calls [fetch], whatever the state. *)
Lemma _loadMore_fetches w :
  ∃ startId,
    _loadMore w
    = Returns (length (promises w))
        (set_loading (length (promises w))
           (set_trace (trace w ++ [Fetch startId PageSize (length (promises w))])
              (set_promises
                 (promises w ++ [Pending (K_loadMore (length (_loadedEntities w)) PageSize)])
                 w))).
Proof. unfold _loadMore, newPromise, emit. munfold. cbn. eauto. Qed.

(** A page arrives for a fetch whose [start] is inside the loaded array. *)
Lemma _loadMore_settled_page w p (start : nat) items :
  promises w !! p = Some (Pending (K_loadMore start PageSize)) →
  (start ≤ length (_loadedEntities w))%nat →
  ∃ w', _loadMore_settled p (Some items) w = Returns tt w'
        ∧ _loadedCompletely w'
          = (bool_decide (length items < PageSize)%nat || _loadedCompletely w)
        ∧ length (_loadedEntities w')
          = (length (_loadedEntities w) `max` (start + length items))%nat.
Proof.
  intros Hp Hs. unfold _loadMore_settled. rewrite bind_get, Hp.
  destruct (js_put_from_length items (_loadedEntities w) start Hs) as (l' & Hput & Hlen).
  assert (Hthen : ∃ w1, _loadMore_then start PageSize items w = Returns tt w1
            ∧ _loadedCompletely w1
              = (bool_decide (length items < PageSize)%nat || _loadedCompletely w)
            ∧ _loadedEntities w1 = js_sort (sortCompare (_config w)) l'
            ∧ promises w1 = promises w).
  { unfold _loadMore_then, setLoadedCompletely. munfold.
    case_bool_decide; cbn; rewrite Hput; eauto. }
  destruct Hthen as (w1 & Hthen & Hc1 & Hl1 & Hp1).
  destruct (frame_total_after sameStore _loadMore_finally w1)
    as (w2 & Hafter & Hcfg & Hl2 & Hc2).
  { unfold _loadMore_finally. frame_auto. }
  { unfold _loadMore_finally. frame_auto. }
  unfold settle. munfold. rewrite Hthen.
  destruct (_loadMore_finally w1) as [[] w2'|msg w2'|]; cbn in Hafter; simplify_eq;
    (eexists; split; [done|]); cbn;
    rewrite Hc2, Hc1, Hl2, Hl1, js_sort_length; done.
Qed.


Lemma _scroll_no_fetch w :
  isFulfilled w (_loading w) = false ∨ _loadedCompletely w = true →
  _scroll w = Returns tt (set_lastPosition (currentPosition w) w).
Proof.
  intros Hw. unfold _scroll. munfold.
  assert (isFulfilled w (_loading w) && negb (_loadedCompletely w) = false) as Hoff.
  { destruct Hw as [->| ->]; [done|]. by rewrite andb_false_r. }
  by rewrite <- andb_assoc, Hoff, andb_false_r.
Qed.

Lemma onScroll_no_fetch w scroll :
  isFulfilled w (_loading w) = false ∨ _loadedCompletely w = true →
  ∃ w', onScroll scroll w = Returns tt w'
        ∧ trace w' = trace w ∧ promises w' = promises w ∧ _loading w' = _loading w
        ∧ _loadedCompletely w' = _loadedCompletely w
        ∧ _loadedEntities w' = _loadedEntities w.
Proof.
  intros Hw. unfold onScroll. munfold. cbn.
  case_bool_decide; [|eexists; split; [done|]; done].
  rewrite _scroll_no_fetch by exact Hw. eexists. split; [done|]. done.
Qed.

Lemma scrolls_no_fetch scrolls : ∀ w,
  isFulfilled w (_loading w) = false ∨ _loadedCompletely w = true →
  ∃ w', run (E_scroll <$> scrolls) w = Some w'
        ∧ trace w' = trace w ∧ promises w' = promises w ∧ _loading w' = _loading w
        ∧ _loadedCompletely w' = _loadedCompletely w
        ∧ _loadedEntities w' = _loadedEntities w.
Proof.
  induction scrolls as [|scroll scrolls IH]; intros w Hw; cbn [run fmap list_fmap].
  - by exists w.
  - cbn [dispatch].
    destruct (onScroll_no_fetch w scroll Hw) as (w1 & -> & Ht & Hp & Hl & Hc & He). cbn [after].
    destruct (IH w1) as (w' & -> & ? & ? & ? & ? & ?).
    { unfold isFulfilled in *. by rewrite Hp, Hl, Hc. }
    exists w'. split; [done|]. split_and!; congruence.
Qed.

Lemma fetches_snoc (tr : list (Effect T)) eff :
  fetches (tr ++ [eff]) = fetches tr ++ (if isFetch eff then [eff] else []).
Proof.
  unfold fetches. rewrite filter_app. f_equal.
  rewrite filter_cons, filter_nil. by destruct (isFetch eff).
Qed.

(** A scroll event calls [fetch] at most once, and after a call the fetch is
    in flight. *)
Lemma onScroll_fetches_at_most_once w scroll :
  ∃ w', onScroll scroll w = Returns tt w'
        ∧ (trace w' = trace w
           ∨ ∃ startId p, trace w' = trace w ++ [Fetch startId PageSize p]
                          ∧ loadingInFlight w').
Proof.
  unfold onScroll. munfold. cbn.
  case_bool_decide; [|eexists; split; [done|]; by left].
  unfold _scroll. munfold. cbn.
  destruct (_ && _ && _).
  - match goal with
    | |- context [_loadMore ?W] => destruct (_loadMore_fetches W) as [startId ->]
    end.
    eexists. split; [done|]. right. eexists startId, _. split; [done|].
    eexists. cbn. by apply list_lookup_middle.
  - eexists. split; [done|]. by left.
Qed.


(** C4, amended.  When the page of a fetch is shorter than the page size,
    [_loadedCompletely] is set, and no sequence of events resets it.  From
    then on a scroll calls [fetch] no more.  [_loadMore] itself has no guard:
    called directly on the completely loaded list it calls [fetch] again.
    The loaded array is as long as the longer of what was loaded and the end
    of the written page: 30 for a first page of 30 entities on an empty
    list. *)
Theorem short_page_sets_loadedCompletely w p (start : nat) items :
  promises w !! p = Some (Pending (K_loadMore start PageSize)) →
  (start ≤ length (_loadedEntities w))%nat →
  (length items < PageSize)%nat →
  ∃ w1,
    _loadMore_settled p (Some items) w = Returns tt w1
    ∧ _loadedCompletely w1 = true
    ∧ length (_loadedEntities w1)
      = (length (_loadedEntities w) `max` (start + length items))%nat
    ∧ (∀ evs w2, run evs w1 = Some w2 →
         _loadedCompletely w2 = true
         ∧ ∀ scrolls, ∃ w3, run (E_scroll <$> scrolls) w2 = Some w3
                            ∧ trace w3 = trace w2)
    ∧ (∀ evs w2, run evs w1 = Some w2 →
         ∃ q w3 startId, _loadMore w2 = Returns q w3
                         ∧ trace w3 = trace w2 ++ [Fetch startId PageSize q]).
Proof.
  intros Hp Hs Hshort.
  destruct (_loadMore_settled_page w p start items Hp Hs) as (w1 & Hrun & Hc & Hl).
  rewrite bool_decide_eq_true_2 in Hc by done.
  exists w1. split; [done|]. split; [done|]. split; [done|]. split.
  - intros evs w2 Hevs.
    assert (Hc2 : _loadedCompletely w2 = true).
    { by apply (completelyStays_run evs w1 w2 Hevs). }
    split; [done|]. intros scrolls.
    destruct (scrolls_no_fetch scrolls w2) as (w3 & ? & ? & _); [by right|]. eauto.
  - intros evs w2 Hevs. destruct (_loadMore_fetches w2) as [startId ->].
    eexists _, _, startId. split; [done|]. done.
Qed.


End Pagination.

Section Swipe.
Context {T : Type} `{Entity T}.
Implicit Types (w : World T) (e : T).

Lemma swipes_snoc (tr : list (Effect T)) eff :
  swipes (tr ++ [eff]) = swipes tr ++ (if isSwipe eff then [eff] else []).
Proof.
  unfold swipes. rewrite filter_app. f_equal.
  rewrite filter_cons, filter_nil. by destruct (isSwipe eff).
Qed.

(** [reset] calls no swipe action and leaves the horizontal offset at 0. *)
Lemma reset_spec w r row :
  virtualElement w = Some r → rows w !! r = Some row →
  ∃ w', reset w = Returns tt w'
        ∧ swipes (trace w') = swipes (trace w)
        ∧ xoffset w' = 0 ∧ virtualElement w' = None.
Proof.
  intros Hv Hr. unfold reset. rewrite bind_get.
  munfold. case_bool_decide; cbn; [|eexists; split; [done|]; done].
  rewrite Hv, (readRow_lookup _ _ _ Hr).
  destruct (_ && _); cbn; (eexists; split; [done|]); cbn -[swipes]; [|done].
  rewrite swipes_snoc. cbn. by rewrite app_nil_r.
Qed.

(** C9.  A touch that ends on a row bound to an entity calls one swipe
    action, once, when the horizontal displacement exceeds the action
    distance of 150 in absolute value and the vertical one is, in absolute
    value, less than the height of the row: [swipeLeft] for a negative
    horizontal displacement and [swipeRight] otherwise.  In every other case
    no swipe action is called and the horizontal offset is reset to 0. *)
Theorem touch_end_swipes_past_action_distance w te r row x dom :
  virtualElement w = Some r → rows w !! r = Some row →
  entity row = Some x → domElement row = Some dom →
  let dx := (getDelta w te).1 in
  let dy := (getDelta w te).2 in
  ActionDistance = 150
  ∧ (Z.abs dx > ActionDistance ∧ Z.abs dy < offsetHeight dom →
     ∃ w', end_ te w = Returns tt w'
           ∧ swipes (trace w')
             = swipes (trace w)
               ++ [if bool_decide (dx < 0) then SwipeLeft x (length (promises w))
                   else SwipeRight x (length (promises w))])
  ∧ (¬ (Z.abs dx > ActionDistance ∧ Z.abs dy < offsetHeight dom) →
     ∃ w', end_ te w = Returns tt w'
           ∧ swipes (trace w') = swipes (trace w)
           ∧ xoffset w' = 0).
Proof.
  intros Hv Hr He Hd. cbv zeta. split; [done|]. split.
  - intros [Hx Hy]. unfold end_. rewrite bind_get, Hv.
    munfold. rewrite (readRow_lookup _ _ _ Hr), He. cbv zeta.
    rewrite (bool_decide_eq_true_2 _ Hx), Hd, (bool_decide_eq_true_2 _ Hy).
    unfold newPromise, finish. munfold. cbn -[getDelta]. rewrite Hv.
    case_bool_decide; cbn -[getDelta]; (eexists; split; [done|]); cbn -[swipes getDelta].
    + rewrite !swipes_snoc. cbn -[getDelta]. rewrite app_nil_r. by case_bool_decide.
    + rewrite !swipes_snoc. by case_bool_decide.
  - intros Hno.
    destruct (reset_spec w r row Hv Hr) as (w' & Hreset & Hs & Hx0 & _).
    unfold end_. rewrite bind_get, Hv.
    munfold. rewrite (readRow_lookup _ _ _ Hr), He. cbv zeta.
    case_bool_decide as Hx; [|rewrite Hreset; eauto].
    rewrite Hd. case_bool_decide as Hy; [by destruct Hno|].
    rewrite Hreset. eauto.
Qed.

End Swipe.

(** ** The scenarios of the specification *)

Lemma newestFirst_consistent : consistent newestFirst.
Proof.
  split.
  - intros a b. unfold newestFirst.
    destruct (Z.compare_spec (received a) (received b)),
             (Z.compare_spec (received b) (received a)); lia.
  - intros a b c. unfold newestFirst.
    destruct (Z.compare_spec (received a) (received b)),
             (Z.compare_spec (received b) (received c)),
             (Z.compare_spec (received a) (received c)); lia.
Qed.

Lemma mounted_rendered : rendered mounted.
Proof. apply (bool_decide_unpack (rendered mounted)). vm_compute. exact I. Qed.



Lemma store_stays_sorted_witness :
  ∃ w', applyOps someOps created = Some w'
        ∧ StronglySorted (cmp_le newestFirst) (_loadedEntities w')
        ∧ NoDup (elementId <$> _loadedEntities w').
Proof.
  apply (store_stays_sorted_without_duplicates someOps created).
  - exact newestFirst_consistent.
  - reflexivity.
Defined.

(** C3 as the specification states it fails: the first of 100 loaded mails
    is the only selected one, and the fetch of the second page has failed.
    [_deleteLoadedEntity] for that mail returns a promise, which is rejected
    in its turn; the mail stays loaded and selected and no callback is
    made. *)
Lemma delete_after_failed_fetch :
  _selectedEntities failedSecondPage = [mail "0" 1000]
  ∧ length (_loadedEntities failedSecondPage) = 100%nat
  ∧ promises failedSecondPage !! _loading failedSecondPage = Some Rejected
  ∧ ∃ w1 w',
      _deleteLoadedEntity "0" failedSecondPage = Returns 3%nat w1
      ∧ loading_settled 3%nat w1 = Returns tt w'
      ∧ _loadedEntities w' = _loadedEntities failedSecondPage
      ∧ _selectedEntities w' = [mail "0" 1000]
      ∧ trace w' = trace failedSecondPage
      ∧ promises w' !! 3%nat = Some Rejected.
Proof.
  split; [vm_compute; reflexivity|]. split; [vm_compute; reflexivity|].
  split; [vm_compute; reflexivity|].
  eexists _, _. split; [vm_compute; reflexivity|].
  split; [vm_compute; reflexivity|].
  split; [reflexivity|]. split; [vm_compute; reflexivity|].
  split; reflexivity.
Qed.

Lemma remove_sole_selected_witness :
  _deleteLoadedEntity "e2" scenarioD = Returns 1%nat deleting
  ∧ ∃ nxt w',
      _loadedEntities deleting !! 2%nat = Some nxt
      ∧ loading_settled 1%nat deleting = Returns tt w'
      ∧ _loadedEntities w' = [E1; E3; E4]
      ∧ _selectedEntities w' = [nxt]
      ∧ trace w' = trace deleting ++ [ElementSelected [nxt] false true false]
      ∧ promises w' = <[1%nat := Fulfilled]> (promises deleting).
Proof.
  split; [vm_compute; reflexivity|].
  refine (proj1 (proj1 (proj2 (remove_sole_selected_selects_next
                                 deleting "e2" E2 1%nat 1%nat 0%nat _ _ _ _ _)) _) _ _).
  - reflexivity.
  - reflexivity.
  - reflexivity.
  - apply (bool_decide_unpack (NoDup (_loadedEntities deleting))). vm_compute. exact I.
  - intros _. apply (bool_decide_unpack (rendered deleting)). vm_compute. exact I.
  - reflexivity.
  - reflexivity.
  - vm_compute. lia.
Defined.

(** Scenario D as a notification: the DELETE for E2 and the turn that runs
    its callback leave E3 selected and make one selection callback. *)
Example delete_notification_selects_next :
  ∃ w', run [E_entityEvent "e2" DELETE; E_loadingSettled 1%nat] scenarioD = Some w'
        ∧ _loadedEntities w' = [E1; E3; E4]
        ∧ _selectedEntities w' = [E3]
        ∧ trace w' = [ElementSelected [E3] false true false].
Proof. eexists. split; [vm_compute; reflexivity|]. done. Qed.

(** C4 as the specification states it fails: after a first page of 30
    entities has set [_loadedCompletely], a further call of [_loadMore] calls
    [fetch] again. *)
Lemma loadMore_after_short_page_fetches :
  ∃ w1 w2 w3,
    _loadMore created = Returns 1%nat w1
    ∧ _loadMore_settled 1%nat (Some (page 30)) w1 = Returns tt w2
    ∧ _loadedCompletely w2 = true
    ∧ length (_loadedEntities w2) = 30%nat
    ∧ _loadMore w2 = Returns 2%nat w3
    ∧ fetches (trace w3) = [Fetch "zzzzzzzzzzzz" 100 1%nat; Fetch "29" 100 2%nat].
Proof.
  eexists _, _, _. split; [vm_compute; reflexivity|].
  split; [vm_compute; reflexivity|].
  split; [reflexivity|]. split; [reflexivity|].
  split; vm_compute; reflexivity.
Qed.

Lemma short_page_witness :
  ∃ w1,
    _loadMore_settled 1%nat (Some (page 30)) createdLoading = Returns tt w1
    ∧ _loadedCompletely w1 = true
    ∧ length (_loadedEntities w1) = 30%nat
    ∧ (∀ evs w2, run evs w1 = Some w2 →
         _loadedCompletely w2 = true
         ∧ ∀ scrolls, ∃ w3, run (E_scroll <$> scrolls) w2 = Some w3
                            ∧ trace w3 = trace w2)
    ∧ (∀ evs w2, run evs w1 = Some w2 →
         ∃ q w3 startId, _loadMore w2 = Returns q w3
                         ∧ trace w3 = trace w2 ++ [Fetch startId PageSize q]).
Proof.
  apply (short_page_sets_loadedCompletely createdLoading 1%nat 0%nat (page 30)).
  - reflexivity.
  - vm_compute. lia.
  - vm_compute. lia.
Defined.

(** C5 as the specification states it fails: a click without modifiers on
    E3, the only selected mail, makes the selection callback all the same,
    with changed = false. *)
Lemma plain_click_on_selected_calls_back :
  ∃ w',
    _elementClicked E3 plainClick onlyE3 = Returns tt w'
    ∧ _selectedEntities onlyE3 = [E3]
    ∧ selections (trace onlyE3) = []
    ∧ selections (trace w') = [ElementSelected [E3] true false false].
Proof.
  eexists. split; [vm_compute; reflexivity|].
  split; [reflexivity|]. split; vm_compute; reflexivity.
Qed.

Lemma plain_click_witness :
  ∃ w', _elementClicked E3 plainClick scenarioB = Returns tt w'
        ∧ _selectedEntities w' = [E3]
        ∧ _loadedEntities w' = _loadedEntities scenarioB
        ∧ trace w' = trace scenarioB ++ [ElementSelected [E3] true true false].
Proof.
  apply (plain_click_selects_clicked scenarioB E3 plainClick).
  - reflexivity.
  - reflexivity.
  - reflexivity.
  - vm_compute. discriminate.
  - apply (bool_decide_unpack (rendered scenarioB)). vm_compute. exact I.
Defined.

(** C6 as the specification states it fails: in a list that does not allow
    multi-selection, with E1..E5 loaded and E2 selected, a shift-click on E5
    leaves E5 alone selected, and the callback gets multi = false. *)
Lemma shift_click_without_multi_selection :
  multiSelectionAllowed (_config scenarioC_single) = false
  ∧ _loadedEntities scenarioC_single = [E1; E2; E3; E4; E5]
  ∧ _selectedEntities scenarioC_single = [E2]
  ∧ ∃ w', _elementClicked E5 shiftClick scenarioC_single = Returns tt w'
          ∧ _selectedEntities w' = [E5]
          ∧ _selectedEntities w' ≠ [E2; E3; E4; E5]
          ∧ last (trace w') = Some (ElementSelected [E5] true true false).
Proof.
  split; [reflexivity|]. split; [vm_compute; reflexivity|].
  split; [vm_compute; reflexivity|].
  eexists. split; [vm_compute; reflexivity|].
  split; [reflexivity|]. split; [discriminate|]. vm_compute. reflexivity.
Qed.

Lemma shift_click_witness :
  (∃ (n : nat) s items w',
     s ∈ _selectedEntities scenarioC ∧ _loadedEntities scenarioC !! n = Some s
     ∧ (∀ s' (j : nat), s' ∈ _selectedEntities scenarioC →
          _loadedEntities scenarioC !! j = Some s' →
          Z.abs (Z.of_nat 4 - Z.of_nat n) ≤ Z.abs (Z.of_nat 4 - Z.of_nat j))
     ∧ (∀ x, x ∈ items ↔
             ∃ j : nat, _loadedEntities scenarioC !! j = Some x
                        ∧ ((n < j ≤ 4)%nat ∨ (4 ≤ j < n)%nat))
     ∧ _elementClicked E5 shiftClick scenarioC = Returns tt w'
     ∧ _selectedEntities w' ≡ₚ _selectedEntities scenarioC ++ items
     ∧ _loadedEntities w' = _loadedEntities scenarioC
     ∧ trace w' = trace scenarioC ++ [ElementSelected (_selectedEntities w') true
                                        (bool_decide (items ≠ [])) true])
  ∧ (∃ w', _elementClicked E5 shiftClick scenarioC = Returns tt w'
           ∧ _selectedEntities w' = [E2; E3; E4; E5])
  ∧ (∃ w', _elementClicked E5 shiftClick scenarioC_single = Returns tt w'
           ∧ _selectedEntities w' = [E5]
           ∧ _loadedEntities w' = _loadedEntities scenarioC_single
           ∧ trace w' = trace scenarioC_single ++ [ElementSelected [E5] true true false]).
Proof.
  split; [|split].
  - refine (proj1 (shift_click_extends_to_nearest scenarioC E5 shiftClick 4%nat _ _ _ _ _ _ _) _ _).
    + reflexivity.
    + vm_compute. discriminate.
    + vm_compute. discriminate.
    + apply (bool_decide_unpack (NoDup (_loadedEntities scenarioC))). vm_compute. exact I.
    + reflexivity.
    + apply (bool_decide_unpack (_selectedEntities scenarioC ⊆ _loadedEntities scenarioC)).
      vm_compute. exact I.
    + apply (bool_decide_unpack (rendered scenarioC)). vm_compute. exact I.
    + reflexivity.
    + reflexivity.
  - eexists. split; vm_compute; reflexivity.
  - refine (proj2 (shift_click_extends_to_nearest scenarioC_single E5 shiftClick 4%nat _ _ _ _ _ _ _) _).
    + reflexivity.
    + vm_compute. discriminate.
    + vm_compute. discriminate.
    + apply (bool_decide_unpack (NoDup (_loadedEntities scenarioC_single))).
      vm_compute. exact I.
    + vm_compute. reflexivity.
    + apply (bool_decide_unpack
               (_selectedEntities scenarioC_single ⊆ _loadedEntities scenarioC_single)).
      vm_compute. exact I.
    + apply (bool_decide_unpack (rendered scenarioC_single)). vm_compute. exact I.
    + reflexivity.
Defined.

Lemma insert_duplicate_witness :
  _addToLoadedEntities (mail "e3" 99) scenarioC
  = Returns tt
      (set_trace (trace scenarioC ++ [ConsoleLog "entity already in list" (mail "e3" 99)])
         scenarioC).
Proof.
  apply (insert_duplicate_is_noop scenarioC (mail "e3" 99) E3).
  - apply (bool_decide_unpack (E3 ∈ _loadedEntities scenarioC)). vm_compute. exact I.
  - reflexivity.
Defined.



Lemma touch_end_witness :
  (∃ w', end_ endAt160 swiping = Returns tt w'
         ∧ swipes (trace w') = swipes (trace swiping) ++ [SwipeRight (mail "2" 998) 2%nat])
  ∧ (∃ w', end_ endAt100 swiping = Returns tt w'
           ∧ swipes (trace w') = swipes (trace swiping)
           ∧ xoffset w' = 0).
Proof.
  split.
  - refine (proj1 (proj2 (touch_end_swipes_past_action_distance swiping endAt160 2%nat
                            _ (mail "2" 998)
                            {| offsetHeight := 10; oddRow := true; displayed := true |}
                            _ _ _ _)) _).
    + reflexivity.
    + vm_compute. reflexivity.
    + reflexivity.
    + reflexivity.
    + vm_compute. split; reflexivity.
  - refine (proj2 (proj2 (touch_end_swipes_past_action_distance swiping endAt100 2%nat
                            _ (mail "2" 998)
                            {| offsetHeight := 10; oddRow := true; displayed := true |}
                            _ _ _ _)) _).
    + reflexivity.
    + vm_compute. reflexivity.
    + reflexivity.
    + reflexivity.
    + vm_compute. intros [Hx _]. discriminate Hx.
Defined.

(** C7 as the specification states it fails on a list shorter than its pool:
    with 30 rows of height 10 loaded, a buffer of 150 and a visible height of
    100, [maxStart] is -100; scrolled to 160 the first offset is -100, which
    is neither in [[0, maxStart]] nor the usual clamp of the raw start 10. *)
Lemma reposition_start_below_zero :
  ∃ w1 first rest,
    _reposition shortList = Returns tt w1
    ∧ offsets w1 = Some (first :: rest)
    ∧ maxStart shortList = -100
    ∧ rawStart shortList 160 = 10
    ∧ first = -100
    ∧ ¬ (0 ≤ first ≤ maxStart shortList)
    ∧ first ≠ Z.max 0 (Z.min (rawStart shortList 160) (maxStart shortList)).
Proof.
  eexists _, _, _. split; [vm_compute; reflexivity|].
  split; [vm_compute; reflexivity|].
  split; [reflexivity|]. split; [reflexivity|]. split; [reflexivity|].
  split; [vm_compute; intros [? ?]; done|]. vm_compute. done.
Qed.

Lemma reposition_offsets_witness :
  ∃ w1 offs,
    _reposition shortList = Returns tt w1
    ∧ offsets w1 = Some offs
    ∧ offs = arithmetic (startPosition shortList 160) (rowHeightZ shortList)
               (length (_virtualList shortList))
    ∧ startPosition shortList 160 =
        (if bool_decide (rawStart shortList 160 < 0) then 0
         else Z.min (rawStart shortList 160) (maxStart shortList))
    ∧ (0 ≤ maxStart shortList →
         0 ≤ startPosition shortList 160 ≤ maxStart shortList
         ∧ startPosition shortList 160
           = Z.max 0 (Z.min (rawStart shortList 160) (maxStart shortList)))
    ∧ (∀ (i : nat) a b, offs !! i = Some a → offs !! S i = Some b →
         b = a + rowHeightZ shortList ∧ a < b)
    ∧ ∃ w2, _reposition w1 = Returns tt w2 ∧ offsets w2 = Some offs.
Proof.
  apply (reposition_offsets shortList 160).
  - reflexivity.
  - apply (bool_decide_unpack (rendered shortList)). vm_compute. exact I.
Defined.

(** ** Selecting an entity *)

Section Selecting.
Context {T : Type} `{Entity T}.
Implicit Types (w : World T) (e : T).

(** On a rendered list the loop over the pool reads rows only. *)
Lemma isVisible_rendered rs e w :
  (∀ r, r ∈ rs → is_Some (rows w !! r)) →
  ∃ b, isVisible rs e w = Returns b w.
Proof.
  induction rs as [|r rs IH]; intros Hrs; cbn [isVisible].
  - by exists false.
  - destruct (Hrs r) as [row Hrow]; [left|].
    munfold. rewrite (readRow_lookup _ _ _ Hrow).
    case_bool_decide; [eauto|]. apply IH. intros r' Hr'. apply Hrs. by right.
Qed.

Lemma rendered_rows_Some w r : rendered w → r ∈ _virtualList w → is_Some (rows w !! r).
Proof.
  intros (_ & _ & Hrows) Hr.
  destruct (proj1 (rendered_rows _ _) Hrows r Hr) as (row & -> & _). done.
Qed.

(** [_entitySelected(e, false)] on a rendered list: the selection is [[e]],
    and the callback says whether it was not. *)
Lemma _entitySelected_single w e :
  rendered w →
  ∃ w0 w', _entitySelected e false w = Returns tt w'
    ∧ repositioned (set_selectedEntities [e] w) w0
    ∧ rendered w0
    ∧ w' = set_trace (trace w ++ [ElementSelected [e] false
                                     (negb (bool_decide (_selectedEntities w = [e]))) false]) w0.
Proof.
  intros Hr. pose proof Hr as ([scroll Hs] & _).
  unfold _entitySelected. munfold.
  assert (bool_decide (length (_selectedEntities w) ≠ 1%nat)
          || bool_decide (_selectedEntities w !! 0%nat ≠ Some e)
          = negb (bool_decide (_selectedEntities w = [e]))) as ->.
  { destruct (_selectedEntities w) as [|x [|y l]];
      repeat case_bool_decide; simplify_eq/=; try done; try congruence. }
  case_bool_decide as Hsel; cbn.
  - exists w. eexists. unfold elementSelected, getSelectedEntities. munfold.
    split; [done|]. split; [rewrite <- Hsel; by destruct w|]. split; [done|]. by rewrite Hsel.
  - destruct (_reposition_rendered (set_selectedEntities [e] w) scroll Hs Hr)
      as (w0 & Hrun & Hrep & _ & Hr0 & _).
    rewrite Hrun. unfold elementSelected, getSelectedEntities. munfold.
    exists w0. eexists. split; [done|]. split; [done|]. split; [done|].
    rewrite Hrep. done.
Qed.

(** [_entitySelected(e, true)] on a rendered list: [e] is added to the
    selection unless it is selected, in which case nothing happens. *)
Lemma _entitySelected_add w e :
  rendered w →
  (e ∈ _selectedEntities w → _entitySelected e true w = Returns tt w)
  ∧ (e ∉ _selectedEntities w →
     ∃ w0 w', _entitySelected e true w = Returns tt w'
       ∧ repositioned
           (set_selectedEntities
              (js_sort (sortCompare (_config w)) (_selectedEntities w ++ [e])) w) w0
       ∧ rendered w0
       ∧ w' = set_trace (trace w ++ [ElementSelected (_selectedEntities w0) false true true])
                w0).
Proof.
  intros Hr. pose proof Hr as ([scroll Hs] & _).
  unfold _entitySelected. munfold. split.
  - intros Hin. destruct (js_indexOf_elem_of _ _ Hin) as (i & Hi & _).
    rewrite bool_decide_eq_false_2 by lia. done.
  - intros Hnin.
    assert (js_indexOf (_selectedEntities w) e = -1) as Hidx.
    { unfold js_indexOf. destruct (list_find _ _) as [[i y]|] eqn:Hf; [|done].
      apply list_find_Some in Hf as (Hi & -> & _).
      destruct Hnin. by eapply list_elem_of_lookup_2. }
    rewrite bool_decide_eq_true_2 by done. cbn.
    match goal with
    | |- context [_reposition ?W] =>
        destruct (_reposition_rendered W scroll Hs Hr) as (w0 & Hrun & Hrep & _ & Hr0 & _)
    end.
    rewrite Hrun. unfold elementSelected, getSelectedEntities. munfold.
    exists w0. eexists. split; [done|]. split; [done|]. split; [done|].
    assert (trace w0 = trace w) as <- by (by rewrite Hrep). done.
Qed.

(** [_scrollToLoadedEntityAndSelect] on a rendered list is [_entitySelected],
    after the container has been scrolled to the row of the target unless
    the target is visible. *)
Lemma _scrollToLoadedEntityAndSelect_rendered w e add :
  rendered w →
  ∃ w1, _scrollToLoadedEntityAndSelect e add w = _entitySelected e add w1
        ∧ rendered w1
        ∧ (w1 = w
           ∨ w1 = set_scrollTop
                    (Some (js_indexOf (_loadedEntities w) e * rowHeightZ w)) w).
Proof.
  intros Hr. pose proof Hr as ([scroll Hs] & _).
  unfold _scrollToLoadedEntityAndSelect. munfold.
  destruct (isVisible_rendered (_virtualList w) e w) as [b ->].
  { intros r Hr'. by apply rendered_rows_Some. }
  destruct b.
  - exists w. split; [done|]. split; [done|]. by left.
  - rewrite Hs. cbn. eexists. split; [done|]. split; [|by right].
    destruct Hr as (_ & ? & ?). split; [by eexists|]. done.
Qed.

Lemma rendered_scrolled w z : rendered w → rendered (set_scrollTop (Some z) w).
Proof. intros (_ & ? & ?). split; [by eexists|done]. Qed.

Lemma scrollSelect_single w e :
  rendered w →
  ∃ w', _scrollToLoadedEntityAndSelect e false w = Returns tt w'
    ∧ _selectedEntities w' = [e]
    ∧ _loadedEntities w' = _loadedEntities w ∧ _config w' = _config w
    ∧ _idOfEntityToSelectWhenReceived w' = _idOfEntityToSelectWhenReceived w
    ∧ rendered w'
    ∧ trace w' = trace w ++ [ElementSelected [e] false
                               (negb (bool_decide (_selectedEntities w = [e]))) false].
Proof.
  intros Hr.
  destruct (_scrollToLoadedEntityAndSelect_rendered w e false Hr) as (w1 & -> & Hr1 & Hw1).
  destruct (_entitySelected_single w1 e Hr1) as (w0 & w' & -> & Hrep & Hr0 & ->).
  eexists. split; [done|].
  assert (Hw0 : _selectedEntities w0 = [e] ∧ _loadedEntities w0 = _loadedEntities w
                ∧ _config w0 = _config w
                ∧ _idOfEntityToSelectWhenReceived w0 = _idOfEntityToSelectWhenReceived w
                ∧ trace w1 = trace w ∧ _selectedEntities w1 = _selectedEntities w).
  { rewrite Hrep. destruct Hw1 as [->| ->]; done. }
  destruct Hw0 as (? & ? & ? & ? & Ht & Hs). cbn. rewrite Ht, <- Hs.
  split_and!; done.
Qed.

Lemma scrollSelect_add_present w e :
  rendered w → e ∈ _selectedEntities w →
  ∃ w', _scrollToLoadedEntityAndSelect e true w = Returns tt w'
    ∧ _selectedEntities w' = _selectedEntities w
    ∧ _loadedEntities w' = _loadedEntities w ∧ _config w' = _config w
    ∧ rendered w'
    ∧ trace w' = trace w.
Proof.
  intros Hr Hin.
  destruct (_scrollToLoadedEntityAndSelect_rendered w e true Hr) as (w1 & -> & Hr1 & Hw1).
  destruct (_entitySelected_add w1 e Hr1) as [Hp _].
  rewrite Hp by (by destruct Hw1 as [->| ->]).
  exists w1. split; [done|]. destruct Hw1 as [->| ->]; done.
Qed.

Lemma scrollSelect_add_absent w e :
  rendered w → e ∉ _selectedEntities w →
  ∃ w', _scrollToLoadedEntityAndSelect e true w = Returns tt w'
    ∧ _selectedEntities w'
      = js_sort (sortCompare (_config w)) (_selectedEntities w ++ [e])
    ∧ _loadedEntities w' = _loadedEntities w ∧ _config w' = _config w
    ∧ rendered w'
    ∧ trace w' = trace w ++ [ElementSelected (_selectedEntities w') false true true].
Proof.
  intros Hr Hnin.
  destruct (_scrollToLoadedEntityAndSelect_rendered w e true Hr) as (w1 & -> & Hr1 & Hw1).
  destruct (_entitySelected_add w1 e Hr1) as [_ Ha].
  destruct Ha as (w0 & w' & -> & Hrep & Hr0 & ->); [by destruct Hw1 as [->| ->]|].
  eexists. split; [done|].
  assert (Hw0 : _selectedEntities w0
                = js_sort (sortCompare (_config w)) (_selectedEntities w ++ [e])
                ∧ _loadedEntities w0 = _loadedEntities w
                ∧ _config w0 = _config w ∧ trace w1 = trace w).
  { rewrite Hrep. destruct Hw1 as [->| ->]; done. }
  destruct Hw0 as (? & ? & ? & Ht). cbn. rewrite Ht.
  split_and!; done.
Qed.

End Selecting.

(** ** The keyboard *)

Section KeyboardFacts.
Context {T : Type} `{Entity T}.
Implicit Types (w : World T) (e x y : T).

Lemma selectNext_plain w keyUp x (i : nat) y :
  rendered w → NoDup (_loadedEntities w) →
  last (_selectedEntities w) = Some x →
  _loadedEntities w !! i = Some x →
  _loadedEntities w !! (S i `min` (length (_loadedEntities w) - 1))%nat = Some y →
  ∃ w', selectNext false keyUp w = Returns tt w'
    ∧ _selectedEntities w' = [y]
    ∧ _loadedEntities w' = _loadedEntities w ∧ _config w' = _config w
    ∧ rendered w'
    ∧ trace w' = trace w ++ [ElementSelected [y] false
                               (negb (bool_decide (_selectedEntities w = [y]))) false].
Proof.
  intros Hr Hnd Hlast Hi Hy.
  pose proof (lookup_lt_Some _ _ _ Hi) as Hlt.
  destruct (scrollSelect_single w y Hr) as (w' & Hrun & Hs & Hl & Hc & _ & Hr' & Ht).
  exists w'. split; [|done].
  unfold selectNext. rewrite bind_get. cbn [andb].
  rewrite (bool_decide_eq_false_2 (length _ = 0%nat))
    by (destruct (_selectedEntities w); [done|cbn; lia]).
  rewrite (bool_decide_eq_true_2 (length (_selectedEntities w) ≠ 0%nat))
    by (destruct (_selectedEntities w); [done|cbn; lia]).
  rewrite (bool_decide_eq_true_2 (0 < length (_loadedEntities w))%nat) by lia.
  cbn [andb negb]. unfold last_. rewrite Hlast. cbn [from_option].
  rewrite (js_indexOf_NoDup _ i x Hnd Hi).
  destruct (decide (Z.of_nat i = Z.of_nat (length (_loadedEntities w)) - 1)) as [Hend|Hend];
    [rewrite (bool_decide_eq_true_2 _ Hend)|rewrite (bool_decide_eq_false_2 _ Hend)].
  - rewrite (bool_decide_eq_true_2 (_ ≠ _)) by lia.
    replace (Z.of_nat i - 1 + 1) with (Z.of_nat i) by lia. rewrite js_get_nat.
    replace (S i `min` (length (_loadedEntities w) - 1))%nat with i in Hy by lia.
    by rewrite Hy.
  - rewrite (bool_decide_eq_true_2 (_ ≠ _)) by lia.
    replace (Z.of_nat i + 1) with (Z.of_nat (S i)) by lia. rewrite js_get_nat.
    replace (S i `min` (length (_loadedEntities w) - 1))%nat with (S i) in Hy by lia.
    by rewrite Hy.
Qed.

Lemma selectPrevious_plain w keyUp x (i : nat) y :
  rendered w → NoDup (_loadedEntities w) →
  _selectedEntities w !! 0%nat = Some x →
  _loadedEntities w !! i = Some x →
  _loadedEntities w !! pred i = Some y →
  ∃ w', selectPrevious false keyUp w = Returns tt w'
    ∧ _selectedEntities w' = [y]
    ∧ _loadedEntities w' = _loadedEntities w ∧ _config w' = _config w
    ∧ rendered w'
    ∧ trace w' = trace w ++ [ElementSelected [y] false
                               (negb (bool_decide (_selectedEntities w = [y]))) false].
Proof.
  intros Hr Hnd Hfirst Hi Hy.
  pose proof (lookup_lt_Some _ _ _ Hi) as Hlt.
  destruct (scrollSelect_single w y Hr) as (w' & Hrun & Hs & Hl & Hc & _ & Hr' & Ht).
  exists w'. split; [|done].
  unfold selectPrevious. rewrite bind_get. cbn [andb].
  rewrite (bool_decide_eq_false_2 (length _ = 0%nat))
    by (destruct (_selectedEntities w); [done|cbn; lia]).
  rewrite (bool_decide_eq_true_2 (length (_selectedEntities w) ≠ 0%nat))
    by (destruct (_selectedEntities w); [done|cbn; lia]).
  rewrite (bool_decide_eq_true_2 (0 < length (_loadedEntities w))%nat) by lia.
  cbn [andb negb]. rewrite Hfirst. cbn [from_option].
  rewrite (js_indexOf_NoDup _ i x Hnd Hi).
  destruct (decide (Z.of_nat i = 0)) as [Hend|Hend];
    [rewrite (bool_decide_eq_true_2 _ Hend)|rewrite (bool_decide_eq_false_2 _ Hend)].
  - rewrite (bool_decide_eq_true_2 (_ ≠ _)) by lia.
    replace (Z.of_nat i + 1 - 1) with (Z.of_nat i) by lia. rewrite js_get_nat.
    assert (i = 0%nat) as -> by lia. cbn in Hy. by rewrite Hy.
  - rewrite (bool_decide_eq_true_2 (_ ≠ _)) by lia.
    replace (Z.of_nat i - 1) with (Z.of_nat (pred i)) by lia. rewrite js_get_nat.
    by rewrite Hy.
Qed.

End KeyboardFacts.

Section KeyboardTheorems.
Context {T : Type} `{Entity T}.
Implicit Types (w : World T) (e x y : T).

(** X1.  Without shift, [selectNext] selects the loaded entity after the last
    selected one, and only it; when the last selected entity is the last
    loaded one the selection becomes that entity.  [selectPrevious] selects
    the entity before the first selected one, or the first loaded entity.
    The callback tells whether the selection has changed. *)
Theorem keyboard_moves_single_selection w keyUp x (i : nat) :
  rendered w → NoDup (_loadedEntities w) → _loadedEntities w !! i = Some x →
  (last (_selectedEntities w) = Some x →
   ∃ y w', _loadedEntities w !! (S i `min` (length (_loadedEntities w) - 1))%nat = Some y
     ∧ selectNext false keyUp w = Returns tt w'
     ∧ _selectedEntities w' = [y]
     ∧ trace w' = trace w ++ [ElementSelected [y] false
                                (negb (bool_decide (_selectedEntities w = [y]))) false]
     ∧ selectNext_keyUp false keyUp w = false)
  ∧ (_selectedEntities w !! 0%nat = Some x →
     ∃ y w', _loadedEntities w !! pred i = Some y
       ∧ selectPrevious false keyUp w = Returns tt w'
       ∧ _selectedEntities w' = [y]
       ∧ trace w' = trace w ++ [ElementSelected [y] false
                                  (negb (bool_decide (_selectedEntities w = [y]))) false]
       ∧ selectPrevious_keyUp false keyUp w = true).
Proof.
  intros Hr Hnd Hi. pose proof (lookup_lt_Some _ _ _ Hi) as Hlt. split.
  - intros Hlast.
    destruct (lookup_lt_is_Some_2 (_loadedEntities w)
                (S i `min` (length (_loadedEntities w) - 1))%nat) as [y Hy]; [lia|].
    destruct (selectNext_plain w keyUp x i y Hr Hnd Hlast Hi Hy)
      as (w' & ? & ? & _ & _ & _ & ?).
    exists y, w'. done.
  - intros Hfirst.
    destruct (lookup_lt_is_Some_2 (_loadedEntities w) (pred i)) as [y Hy]; [lia|].
    destruct (selectPrevious_plain w keyUp x i y Hr Hnd Hfirst Hi Hy)
      as (w' & ? & ? & _ & _ & _ & ?).
    exists y, w'. done.
Qed.

(** X2.  With [x] the only selected entity and an entity [y] loaded after it,
    [selectNext] followed by [selectPrevious] (both without shift) selects [y]
    and then [x] again: two callbacks, both with changed = true. *)
Theorem next_then_previous_restores_selection w k1 k2 x y (i : nat) :
  rendered w → NoDup (_loadedEntities w) →
  _selectedEntities w = [x] →
  _loadedEntities w !! i = Some x → _loadedEntities w !! S i = Some y →
  ∃ w', (selectNext false k1 ≫= λ _, selectPrevious false k2) w = Returns tt w'
    ∧ _selectedEntities w' = [x]
    ∧ _loadedEntities w' = _loadedEntities w
    ∧ trace w' = trace w ++ [ElementSelected [y] false true false;
                             ElementSelected [x] false true false].
Proof.
  intros Hr Hnd Hsel Hi Hy.
  pose proof (lookup_lt_Some _ _ _ Hy) as Hlt.
  assert (x ≠ y) as Hxy.
  { intros ->. pose proof (NoDup_lookup _ _ _ _ Hnd Hi Hy). lia. }
  destruct (selectNext_plain w k1 x i y Hr Hnd) as (w1 & Hrun1 & Hs1 & Hl1 & Hc1 & Hr1 & Ht1);
    [by rewrite Hsel|done| |].
  { by replace (S i `min` (length (_loadedEntities w) - 1))%nat with (S i) by lia. }
  destruct (selectPrevious_plain w1 k2 y (S i) x Hr1) as (w2 & Hrun2 & Hs2 & Hl2 & _ & _ & Ht2);
    [by rewrite Hl1|by rewrite Hs1|by rewrite Hl1|by rewrite Hl1|].
  exists w2. unfold mbind, M_bind, bind. rewrite Hrun1, Hrun2.
  split; [done|]. split; [done|]. split; [congruence|].
  rewrite Ht2, Ht1, Hs1, Hsel, <- app_assoc.
  rewrite !bool_decide_eq_false_2 by congruence. done.
Qed.

(** X3.  Shrinking a range: with shift, after a selection that was extended
    upwards ([_lastMultiSelectWasKeyUp] true) [selectNext] drops the first
    selected entity, and after one extended downwards [selectPrevious] drops
    the last; more than one entity must be selected.  One callback is made,
    with changed = true and multi = true, and the flag keeps its value. *)
Theorem keyboard_shrinks_range_from_far_end w :
  rendered w → (1 < length (_selectedEntities w))%nat →
  (∃ w', selectNext true true w = Returns tt w'
     ∧ _selectedEntities w' = drop 1 (_selectedEntities w)
     ∧ trace w' = trace w ++ [ElementSelected (drop 1 (_selectedEntities w)) false true true]
     ∧ selectNext_keyUp true true w = true)
  ∧ (∃ w', selectPrevious true false w = Returns tt w'
       ∧ _selectedEntities w'
         = take (length (_selectedEntities w) - 1) (_selectedEntities w)
       ∧ trace w' = trace w ++ [ElementSelected
                                  (take (length (_selectedEntities w) - 1)
                                     (_selectedEntities w)) false true true]
       ∧ selectPrevious_keyUp true false w = false).
Proof.
  intros Hr Hlen. pose proof Hr as ([scroll Hs] & _). split.
  - unfold selectNext, selectNext_keyUp. rewrite bind_get.
    rewrite (bool_decide_eq_true_2 _ Hlen). cbn [andb]. munfold.
    destruct (_reposition_rendered (set_selectedEntities (drop 1 (_selectedEntities w)) w)
                scroll Hs Hr) as (w0 & Hrun & Hrep & _ & Hr0 & _).
    cbn. rewrite Hrun. unfold elementSelected, getSelectedEntities. munfold. cbn.
    assert (Hs0 : _selectedEntities w0 = drop 1 (_selectedEntities w)) by (by rewrite Hrep).
    assert (Ht0 : trace w0 = trace w) by (by rewrite Hrep).
    rewrite Hs0.
    destruct (_selectedEntities w) as [|a [|b l]] eqn:Hsel; [cbn in Hlen; lia..|].
    cbn [drop lookup list_lookup].
    match goal with
    | |- context [_scrollToLoadedEntityAndSelect b true ?W] =>
        destruct (scrollSelect_add_present W b) as (w' & -> & Hs' & _ & _ & _ & Ht')
    end.
    { by destruct Hr0 as (? & ? & ?). }
    { cbn. rewrite Hs0. cbn. left. }
    exists w'. split; [done|]. cbn in Hs', Ht'. rewrite Hs', Hs0, Ht', Ht0. done.
  - unfold selectPrevious, selectPrevious_keyUp. rewrite bind_get.
    rewrite (bool_decide_eq_true_2 _ Hlen). cbn [andb negb]. munfold.
    set (sel' := take (length (_selectedEntities w) - 1) (_selectedEntities w)).
    destruct (_reposition_rendered (set_selectedEntities sel' w) scroll Hs Hr)
      as (w0 & Hrun & Hrep & _ & Hr0 & _).
    cbn. rewrite Hrun. unfold elementSelected, getSelectedEntities. munfold. cbn.
    assert (Hs0 : _selectedEntities w0 = sel') by (by rewrite Hrep).
    assert (Ht0 : trace w0 = trace w) by (by rewrite Hrep).
    rewrite Hs0. unfold last_.
    destruct (last sel') as [b|] eqn:Hlast.
    2:{ apply last_None in Hlast. apply (f_equal length) in Hlast.
        subst sel'. rewrite length_take in Hlast. cbn in Hlast. lia. }
    match goal with
    | |- context [_scrollToLoadedEntityAndSelect b true ?W] =>
        destruct (scrollSelect_add_present W b) as (w' & -> & Hs' & _ & _ & _ & Ht')
    end.
    { by destruct Hr0 as (? & ? & ?). }
    { cbn. rewrite Hs0. rewrite last_lookup in Hlast. by eapply list_elem_of_lookup_2. }
    exists w'. split; [done|]. cbn in Hs', Ht'. rewrite Hs', Hs0, Ht', Ht0. done.
Qed.

(** X4.  Extending a range: with shift (and no range to shrink) [selectNext]
    adds the loaded entity after the last selected one, and the callback is
    made with changed = true and multi = true; when the last selected entity
    is the last loaded one nothing at all happens. *)
Theorem keyboard_extends_range w x (i : nat) :
  rendered w → NoDup (_loadedEntities w) →
  last (_selectedEntities w) = Some x → _loadedEntities w !! i = Some x →
  (∀ y, _loadedEntities w !! S i = Some y → y ∉ _selectedEntities w →
     ∃ w', selectNext true false w = Returns tt w'
       ∧ _selectedEntities w' ≡ₚ _selectedEntities w ++ [y]
       ∧ _loadedEntities w' = _loadedEntities w
       ∧ trace w' = trace w ++ [ElementSelected (_selectedEntities w') false true true])
  ∧ (S i = length (_loadedEntities w) → selectNext true false w = Returns tt w).
Proof.
  intros Hr Hnd Hlast Hi. pose proof (lookup_lt_Some _ _ _ Hi) as Hlt.
  assert (Hstart :
    selectNext true false w
    = (if bool_decide (Z.of_nat i ≠ Z.of_nat (length (_loadedEntities w)) - 1)
       then match js_get (_loadedEntities w) (Z.of_nat i + 1) with
            | Some e => _scrollToLoadedEntityAndSelect e true
            | None => unrepresented
            end
       else mret tt) w).
  { unfold selectNext. rewrite bind_get. cbn [andb negb].
    rewrite (bool_decide_eq_false_2 (length _ = 0%nat))
      by (destruct (_selectedEntities w); [done|cbn; lia]).
    rewrite (bool_decide_eq_true_2 (length (_selectedEntities w) ≠ 0%nat))
      by (destruct (_selectedEntities w); [done|cbn; lia]).
    rewrite (bool_decide_eq_true_2 (0 < length (_loadedEntities w))%nat) by lia.
    cbn [andb]. unfold last_. rewrite Hlast. cbn [from_option].
    by rewrite (js_indexOf_NoDup _ i x Hnd Hi). }
  rewrite Hstart. split.
  - intros y Hy Hnin. pose proof (lookup_lt_Some _ _ _ Hy).
    rewrite bool_decide_eq_true_2 by lia.
    replace (Z.of_nat i + 1) with (Z.of_nat (S i)) by lia. rewrite js_get_nat, Hy.
    destruct (scrollSelect_add_absent w y Hr Hnin) as (w' & -> & Hs & Hl & _ & _ & Ht).
    exists w'. split; [done|]. split; [rewrite Hs; apply js_sort_perm|]. done.
  - intros Hend. rewrite bool_decide_eq_false_2 by lia. done.
Qed.

(** X5.  With nothing selected, [selectNext] and [selectPrevious] both select
    the first loaded entity; with nothing selected and nothing loaded they
    leave the world as it is. *)
Theorem keyboard_on_empty_selection w keyUp :
  _selectedEntities w = [] →
  (_loadedEntities w = [] →
     selectNext false keyUp w = Returns tt w ∧ selectPrevious false keyUp w = Returns tt w)
  ∧ (∀ f, rendered w → _loadedEntities w !! 0%nat = Some f →
     ∃ w1 w2, selectNext false keyUp w = Returns tt w1
       ∧ selectPrevious false keyUp w = Returns tt w2
       ∧ _selectedEntities w1 = [f] ∧ _selectedEntities w2 = [f]
       ∧ trace w1 = trace w ++ [ElementSelected [f] false true false]
       ∧ trace w2 = trace w ++ [ElementSelected [f] false true false]).
Proof.
  intros Hsel. split.
  - intros Hl. unfold selectNext, selectPrevious. rewrite !bind_get, Hsel, Hl. done.
  - intros f Hr Hf. pose proof (lookup_lt_Some _ _ _ Hf) as Hlt.
    destruct (_entitySelected_single w f Hr) as (w0 & w' & Hrun & Hrep & _ & ->).
    exists (set_trace (trace w ++ [ElementSelected [f] false true false]) w0),
           (set_trace (trace w ++ [ElementSelected [f] false true false]) w0).
    rewrite Hsel in Hrun. rewrite bool_decide_eq_false_2 in Hrun by done.
    unfold selectNext, selectPrevious. rewrite !bind_get, Hsel. cbn [andb negb length].
    rewrite (bool_decide_eq_true_2 (0%nat = 0%nat)) by done.
    rewrite (bool_decide_eq_true_2 (0 < _)%nat) by lia.
    cbn [andb]. rewrite Hf, Hrun. cbn. rewrite Hrep. done.
Qed.

End KeyboardTheorems.

(** ** Pages *)

Section PageFacts.
Context {A : Type}.
Implicit Types (l items : list A).

(** The loop of [_loadMore] writes the page over the entries from [start]. *)
Lemma js_put_from_spec items : ∀ l (start : nat),
  (start ≤ length l)%nat →
  js_put_from l start items
  = Some (take start l ++ items ++ drop (start + length items) l).
Proof.
  induction items as [|v items IH]; intros l start Hs; cbn [js_put_from].
  - rewrite Nat.add_0_r. cbn. by rewrite take_drop.
  - unfold js_put. destruct (decide (start < length l)%nat) as [Hlt|Hlt].
    + rewrite (bool_decide_eq_true_2 (start < _)%nat) by done.
      rewrite IH by (rewrite length_insert; lia).
      f_equal. rewrite (take_S_r _ _ v) by (by apply list_lookup_insert_eq).
      rewrite take_insert_ge by lia. rewrite drop_insert_lt by lia.
      rewrite <- app_assoc. cbn. by rewrite Nat.add_succ_r.
    + rewrite (bool_decide_eq_false_2 (start < _)%nat) by done.
      rewrite bool_decide_eq_true_2 by lia.
      rewrite IH by (rewrite length_app; cbn; lia).
      f_equal. rewrite take_ge by (rewrite length_app; cbn; lia).
      rewrite take_ge by lia. rewrite !drop_ge by (rewrite ?length_app; cbn; lia).
      by rewrite <- app_assoc.
Qed.

End PageFacts.

Section Pages.
Context {T : Type} `{Entity T}.
Implicit Types (w : World T) (e : T).

Lemma _loadMore_finally_rendered w :
  (ready w = true → rendered w) →
  ∃ w', _loadMore_finally w = Returns tt w' ∧ repositioned w w'.
Proof.
  intros Hr. unfold _loadMore_finally. rewrite bind_get.
  apply (reposition_if_ready (ready w) w Hr).
Qed.

(** X6.  The page of a fetch is written over the loaded entities from the
    length the array had when the fetch was made, and the array is sorted.
    When nothing was loaded in between, the loaded entities are the old
    ones and the page; otherwise the page replaces what has been loaded at
    these positions since.  The promise of the fetch is fulfilled; the
    selection is kept and no callback is made. *)
Theorem page_is_written_from_start w p (start count : nat) items :
  promises w !! p = Some (Pending (K_loadMore start count)) →
  (start ≤ length (_loadedEntities w))%nat →
  (ready w = true → rendered w) →
  ∃ w', _loadMore_settled p (Some items) w = Returns tt w'
    ∧ _loadedEntities w'
      = js_sort (sortCompare (_config w))
          (take start (_loadedEntities w) ++ items
           ++ drop (start + length items) (_loadedEntities w))
    ∧ (start = length (_loadedEntities w) →
       _loadedEntities w' ≡ₚ _loadedEntities w ++ items)
    ∧ (consistent (sortCompare (_config w)) →
       StronglySorted (cmp_le (sortCompare (_config w))) (_loadedEntities w'))
    ∧ promises w' = <[p := Fulfilled]> (promises w)
    ∧ _selectedEntities w' = _selectedEntities w
    ∧ trace w' = trace w.
Proof.
  intros Hp Hs Hr.
  unfold _loadMore_settled. rewrite bind_get, Hp.
  set (w0 := if bool_decide (length items < count)%nat
             then set_loadedCompletely true w else w).
  set (l' := take start (_loadedEntities w) ++ items
             ++ drop (start + length items) (_loadedEntities w)).
  assert (Hthen : _loadMore_then start count items w
                  = Returns tt (set_loadedEntities
                                  (js_sort (sortCompare (_config w)) l') w0)).
  { unfold _loadMore_then, setLoadedCompletely. munfold. subst w0.
    case_bool_decide; cbn; rewrite js_put_from_spec by done; done. }
  destruct (_loadMore_finally_rendered
              (set_loadedEntities (js_sort (sortCompare (_config w)) l') w0))
    as (w2 & Hfin & Hrep).
  { subst w0. case_bool_decide; exact Hr. }
  munfold. rewrite Hthen, Hfin. unfold settle. munfold. cbn.
  eexists. split; [done|].
  assert (Hw2 : _loadedEntities w2 = js_sort (sortCompare (_config w)) l'
                ∧ promises w2 = promises w
                ∧ _selectedEntities w2 = _selectedEntities w ∧ trace w2 = trace w).
  { rewrite Hrep. subst w0. case_bool_decide; done. }
  destruct Hw2 as (Hl & Hpr & Hsel & Htr). cbn. rewrite Hl, Hpr, Hsel, Htr.
  split; [done|]. split.
  { intros ->. rewrite js_sort_perm. subst l'.
    rewrite take_ge, drop_ge by lia. by rewrite app_nil_r. }
  split; [by apply js_sort_sorted|]. done.
Qed.

(** X7.  When a fetch fails, the loaded entities, [_loadedCompletely] and the
    selection stay and the promise is rejected.  If it is the loading of the
    list, no scroll calls [fetch] from then on; and a notification that
    waited for this fetch is dropped: its promise is rejected and its
    callback never runs. *)
Theorem failed_fetch_stops_pagination w p (start count : nat) :
  promises w !! p = Some (Pending (K_loadMore start count)) →
  (ready w = true → rendered w) →
  ∃ w', _loadMore_settled p None w = Returns tt w'
    ∧ _loadedEntities w' = _loadedEntities w
    ∧ _loadedCompletely w' = _loadedCompletely w
    ∧ _selectedEntities w' = _selectedEntities w
    ∧ trace w' = trace w
    ∧ promises w' = <[p := Rejected]> (promises w)
    ∧ (_loading w = p →
       ∀ scrolls, ∃ w2, run (E_scroll <$> scrolls) w' = Some w2 ∧ trace w2 = trace w')
    ∧ (∀ q k, promises w !! q = Some (Pending (K_afterLoading p k)) →
       loading_settled q w'
       = Returns tt (set_promises (<[q := Rejected]> (promises w')) w')).
Proof.
  intros Hp Hr.
  unfold _loadMore_settled. rewrite bind_get, Hp.
  destruct (_loadMore_finally_rendered w Hr) as (w2 & Hfin & Hrep).
  munfold. rewrite Hfin. unfold settle. munfold. cbn.
  eexists. split; [done|].
  assert (Hw2 : _loadedEntities w2 = _loadedEntities w
                ∧ _loadedCompletely w2 = _loadedCompletely w
                ∧ promises w2 = promises w ∧ _loading w2 = _loading w
                ∧ _selectedEntities w2 = _selectedEntities w ∧ trace w2 = trace w).
  { rewrite Hrep. done. }
  destruct Hw2 as (Hl & Hc & Hpr & Hld & Hsel & Htr). cbn.
  rewrite Hl, Hc, Hpr, Hsel, Htr.
  pose proof (lookup_lt_Some _ _ _ Hp) as Hlt.
  split_and!; try done.
  - intros Hload scrolls.
    match goal with
    | |- context [run _ ?W] =>
        destruct (scrolls_no_fetch scrolls W) as (w3 & Hrun & Htr3 & _)
    end.
    { left. unfold isFulfilled. cbn. rewrite Hld, Hload, ?Hpr.
      by rewrite list_lookup_insert_eq. }
    exists w3. split; [exact Hrun|]. rewrite Htr3. done.
  - intros q k Hq.
    assert (q ≠ p) by (intros ->; congruence).
    unfold loading_settled. munfold. cbn. rewrite ?Hpr.
    assert (Hq' : <[p := Rejected]> (promises w) !! q
                  = Some (Pending (K_afterLoading p k))).
    { rewrite list_lookup_insert_ne by done. exact Hq. }
    assert (Hp' : <[p := Rejected]> (promises w) !! p = Some (Rejected (T := T))).
    { by rewrite list_lookup_insert_eq. }
    rewrite Hq', Hp'. done.
Qed.

End Pages.

(** ** The store on a rendered list *)

Section RemoveFacts.
Context {A : Type} `{EqDecision A}.
Implicit Types (l : list A) (x e nxt : A).

Lemma list_find_eq_None l x :
  x ∉ l → list_find (λ y, y = x) l = None.
Proof.
  intros Hx. apply list_find_None, Forall_forall. by intros y Hy ->.
Qed.

Lemma remove_not_elem_of l x : x ∉ l → remove l x = (false, l).
Proof. intros Hx. unfold remove. by rewrite list_find_eq_None. Qed.

Lemma next_differs l (i : nat) e nxt :
  NoDup l → l !! i = Some e → (1 < length l)%nat →
  l !! (if bool_decide (S i < length l)%nat then S i else pred i) = Some nxt →
  nxt ≠ e ∧ nxt ∈ l.
Proof.
  intros Hnd Hi Hlen Hn. split; [|by eapply list_elem_of_lookup_2].
  intros ->. pose proof (NoDup_lookup l _ _ e Hnd Hi Hn) as Heq.
  apply lookup_lt_Some in Hi. case_bool_decide; lia.
Qed.

End RemoveFacts.

Section StoreRendered.
Context {T : Type} `{Entity T}.
Implicit Types (w : World T) (e x : T) (l : list T).

Lemma reposition_rendered_if (b : bool) w :
  rendered w →
  ∃ w', (if b then _reposition else λ w0, Returns tt w0) w = Returns tt w'
        ∧ repositioned w w' ∧ rendered w'.
Proof.
  intros Hr. destruct b.
  - pose proof Hr as ([scroll Hs] & _).
    destruct (_reposition_rendered w scroll Hs Hr) as (w' & ? & ? & _ & ? & _). eauto.
  - exists w. split; [done|]. split; [reflexivity|done].
Qed.

(** [_addToLoadedEntities] of an entity whose identifier is not loaded. *)
Lemma insert_new_rendered w e :
  rendered w →
  list_find (λ x, elementId e = elementId x) (_loadedEntities w) = None →
  ∃ w', _addToLoadedEntities e w = Returns tt w'
    ∧ _config w' = _config w ∧ rendered w'
    ∧ _loadedCompletely w' = _loadedCompletely w
    ∧ _loadedEntities w'
      = js_sort (sortCompare (_config w)) (_loadedEntities w ++ [e])
    ∧ (if bool_decide (_idOfEntityToSelectWhenReceived w = Some (elementId e)
                       ∧ elementId e ≠ "")
       then _selectedEntities w' = [e]
            ∧ _idOfEntityToSelectWhenReceived w' = None
            ∧ trace w' = trace w ++ [ElementSelected [e] false
                          (negb (bool_decide (_selectedEntities w = [e]))) false]
       else _selectedEntities w' = _selectedEntities w
            ∧ _idOfEntityToSelectWhenReceived w' = _idOfEntityToSelectWhenReceived w
            ∧ trace w' = trace w).
Proof.
  intros Hr Hf. unfold _addToLoadedEntities. rewrite bind_get, Hf. munfold.
  match goal with
  | |- context [(if ready w then _reposition else _) ?W] =>
      destruct (reposition_rendered_if (ready w) W) as (w1 & Hrun & Hrep & Hr1); [exact Hr|]
  end.
  rewrite Hrun.
  assert (Hw1 : _config w1 = _config w ∧ _loadedCompletely w1 = _loadedCompletely w
                ∧ _loadedEntities w1
                  = js_sort (sortCompare (_config w)) (_loadedEntities w ++ [e])
                ∧ _selectedEntities w1 = _selectedEntities w
                ∧ _idOfEntityToSelectWhenReceived w1 = _idOfEntityToSelectWhenReceived w
                ∧ trace w1 = trace w).
  { rewrite Hrep. done. }
  destruct Hw1 as (Hcfg & Hc & Hl & Hsel & Hid & Htr).
  destruct (_idOfEntityToSelectWhenReceived w) as [id|] eqn:Hpend.
  2:{ rewrite bool_decide_eq_false_2 by (by intros [? _]).
      exists w1. split_and!; done. }
  destruct (decide (id ≠ "" ∧ id = elementId e)) as [[Hne ->]|Hno].
  - rewrite (bool_decide_eq_true_2 (_ ≠ _)) by done.
    rewrite (bool_decide_eq_true_2 (elementId e = _)) by done. cbn [andb].
    rewrite bool_decide_eq_true_2 by done.
    destruct (scrollSelect_single (set_idOfEntityToSelectWhenReceived None w1) e)
      as (w' & Hsel' & Hs' & Hl' & Hcfg' & Hid' & Hr' & Htr'); [exact Hr1|].
    rewrite Hsel'. exists w'. split; [done|].
    assert (_loadedCompletely w' = _loadedCompletely w) as Hc'.
    { pose proof (sameStore__scrollToLoadedEntityAndSelect e false
                    (set_idOfEntityToSelectWhenReceived None w1)) as Hss.
      rewrite Hsel' in Hss. destruct Hss as (_ & _ & Hc'). by rewrite Hc'. }
    cbn in Hl', Hcfg', Hid', Htr'.
    split_and!; try done; try congruence.
    rewrite Htr'. by rewrite Htr, Hsel.
  - assert (bool_decide (id ≠ "") && bool_decide (id = elementId e) = false) as ->.
    { apply andb_false_iff. destruct (decide (id ≠ "")); [right|left].
      - apply bool_decide_eq_false_2. tauto.
      - by apply bool_decide_eq_false_2. }
    rewrite bool_decide_eq_false_2.
    2:{ intros [[= ->] ?]. tauto. }
    exists w1. split_and!; done.
Qed.

(** [_updateLoadedEntity] *)
Lemma replace_rendered w e :
  rendered w →
  ∃ w', _updateLoadedEntity e w = Returns tt w'
    ∧ _config w' = _config w ∧ rendered w'
    ∧ _loadedCompletely w' = _loadedCompletely w
    ∧ trace w' = trace w
    ∧ _loadedEntities w'
      = match list_find (λ x, elementId e = elementId x) (_loadedEntities w) with
        | Some (i, _) =>
            js_sort (sortCompare (_config w)) (<[i := e]> (_loadedEntities w))
        | None => _loadedEntities w
        end
    ∧ _selectedEntities w'
      = match list_find (λ x, elementId e = elementId x) (_selectedEntities w) with
        | Some (j, _) => <[j := e]> (_selectedEntities w)
        | None => _selectedEntities w
        end.
Proof.
  intros Hr. unfold _updateLoadedEntity. rewrite bind_get.
  assert (Hfirst : ∃ w1,
    match list_find (λ x, elementId e = elementId x) (_loadedEntities w) with
    | Some (positionToUpdate, _) =>
        modify (set_loadedEntities
                  (js_sort (sortCompare (_config w))
                     (js_splice1 (_loadedEntities w) positionToUpdate e)));;
        if ready w then _reposition else mret tt
    | None => mret tt
    end w = Returns tt w1
    ∧ rendered w1
    ∧ repositioned
        (set_loadedEntities
           (match list_find (λ x, elementId e = elementId x) (_loadedEntities w) with
            | Some (i, _) =>
                js_sort (sortCompare (_config w)) (<[i := e]> (_loadedEntities w))
            | None => _loadedEntities w
            end) w) w1).
  { destruct (list_find _ (_loadedEntities w)) as [[i x]|].
    - munfold.
      match goal with
      | |- context [(if ready w then _reposition else _) ?W] =>
          destruct (reposition_rendered_if (ready w) W) as (w1 & Hrun & Hrep & Hr1);
            [exact Hr|]
      end.
      exists w1. split; [exact Hrun|]. split; [done|]. exact Hrep.
    - exists w. split; [done|]. split; [done|]. unfold repositioned. by destruct w. }
  destruct Hfirst as (w1 & Hrun & Hr1 & Hrep).
  munfold. rewrite Hrun.
  assert (Hsel : _selectedEntities w1 = _selectedEntities w) by (by rewrite Hrep).
  rewrite Hsel.
  destruct (list_find _ (_selectedEntities w)) as [[j s]|];
    (eexists; split; [done|]); (split_and!; try done; try (by rewrite Hrep)).
Qed.

(** [_deleteLoadedEntity]'s callback for a loaded identifier. *)
Lemma remove_rendered w id e (i : nat) :
  rendered w → NoDup (_loadedEntities w) →
  findById (_loadedEntities w) id = Some e → _loadedEntities w !! i = Some e →
  ∃ w' sel0,
    _deleteLoadedEntity_then id w = Returns tt w'
    ∧ _config w' = _config w ∧ rendered w'
    ∧ _loadedCompletely w' = _loadedCompletely w
    ∧ _loadedEntities w' = delete i (_loadedEntities w)
    ∧ (sel0 = _selectedEntities w
       ∨ ∃ nxt, _selectedEntities w = [e] ∧ sel0 = [e; nxt]
                ∧ nxt ≠ e ∧ nxt ∈ _loadedEntities w)
    ∧ _selectedEntities w' = (remove sel0 e).2
    ∧ trace w'
      = trace w ++ (if (remove sel0 e).1
                    then [ElementSelected (remove sel0 e).2 false true
                            (negb (bool_decide (sel0 ≠ _selectedEntities w)))]
                    else []).
Proof.
  intros Hr Hnd Hfind Hi.
  unfold _deleteLoadedEntity_then. munfold. rewrite Hfind.
  rewrite (remove_NoDup (_loadedEntities w) i e) by done.
  destruct (bool_decide (length (_selectedEntities w) = 1%nat)
            && bool_decide (_selectedEntities w !! 0%nat = Some e)
            && bool_decide (1 < length (_loadedEntities w))%nat) eqn:Hcond.
  - apply andb_true_iff in Hcond as [Hcond Hlen%bool_decide_eq_true_1].
    apply andb_true_iff in Hcond as [Hone%bool_decide_eq_true_1 Hz%bool_decide_eq_true_1].
    assert (Hsel : _selectedEntities w = [e]).
    { destruct (_selectedEntities w) as [|s [|??]]; simplify_eq/=. done. }
    destruct (next_or_previous _ i e Hnd Hi Hlen) as (nxt & -> & Hnxt).
    destruct (next_differs _ i e nxt Hnd Hi Hlen Hnxt) as [Hne Hin].
    cbn. rewrite Hsel. cbn. rewrite remove_head. cbn.
    match goal with
    | |- context [(if ready w then _reposition else _) ?W] =>
        destruct (reposition_rendered_if (ready w) W) as (w1 & Hrun & Hrep & Hr1);
          [exact Hr|]
    end.
    rewrite Hrun. unfold elementSelected, getSelectedEntities. munfold.
    eexists _, [e; nxt]. split; [done|].
    rewrite remove_head. cbn.
    rewrite bool_decide_eq_true_2 by done.
    split_and!; try done; try (by rewrite Hrep); try (right; by exists nxt).
  - cbn.
    match goal with
    | |- context [(if ready w then _reposition else _) ?W] =>
        destruct (reposition_rendered_if (ready w) W) as (w1 & Hrun & Hrep & Hr1);
          [exact Hr|]
    end.
    rewrite Hrun. exists (if (remove (_selectedEntities w) e).1
                          then set_trace (trace w1 ++ [ElementSelected (_selectedEntities w1)
                                                        false true true]) w1
                          else w1), (_selectedEntities w).
    rewrite bool_decide_eq_false_2 by (by intros ?).
    assert (Hw1 : _selectedEntities w1 = (remove (_selectedEntities w) e).2
                  ∧ trace w1 = trace w ∧ _config w1 = _config w
                  ∧ _loadedCompletely w1 = _loadedCompletely w
                  ∧ _loadedEntities w1 = delete i (_loadedEntities w)).
    { rewrite Hrep. done. }
    destruct Hw1 as (Hs1 & Ht1 & Hc1 & Hlc1 & Hl1).
    unfold elementSelected, getSelectedEntities. munfold.
    destruct ((remove (_selectedEntities w) e).1) eqn:Hrem; cbn.
    + split_and!; try done; try (by left). by rewrite Ht1, Hs1.
    + split_and!; try done; try (by left). by rewrite Ht1, app_nil_r.
Qed.

End StoreRendered.

(** ** Looking entities up by identifier *)

Section LookupFacts.
Context {T : Type} `{Entity T}.
Implicit Types (l : list T) (x e : T) (id : Id).

Lemma findById_None l id : findById l id = None ↔ id ∉ (elementId <$> l).
Proof.
  unfold findById. rewrite fmap_None, list_find_None, Forall_forall. split.
  - intros Hn (x & -> & Hx)%list_elem_of_fmap. by apply (Hn x).
  - intros Hn x Hx Hid. apply Hn. apply list_elem_of_fmap. eauto.
Qed.

Lemma findById_unique l id x :
  NoDup (elementId <$> l) → x ∈ l → elementId x = id → findById l id = Some x.
Proof.
  intros Hnd Hx Hid. destruct (findById l id) as [y|] eqn:Hf.
  - apply findById_Some in Hf as (j & Hj & Hidy).
    apply list_elem_of_lookup in Hx as [i Hi].
    assert (i = j) as ->.
    { apply (NoDup_lookup _ i j id Hnd); rewrite list_lookup_fmap.
      - by rewrite Hi; cbn; rewrite Hid.
      - by rewrite Hj; cbn; rewrite Hidy. }
    congruence.
  - apply findById_None in Hf. destruct Hf. apply list_elem_of_fmap. eauto.
Qed.

Lemma findById_same_members l l' id :
  NoDup (elementId <$> l') →
  (∀ x, elementId x = id → (x ∈ l ↔ x ∈ l')) → findById l id = findById l' id.
Proof.
  intros Hl' Hm. destruct (findById l id) as [x|] eqn:Hf.
  - apply findById_Some in Hf as (i & Hi & Hid). symmetry.
    apply findById_unique; [done| |done].
    apply Hm; [done|]. by eapply list_elem_of_lookup_2.
  - symmetry. apply findById_None. apply findById_None in Hf.
    intros (x & -> & Hx)%list_elem_of_fmap. apply Hf. apply list_elem_of_fmap.
    exists x. split; [done|]. by apply Hm.
Qed.

Lemma list_find_id_sym l e :
  list_find (λ x, elementId e = elementId x) l
  = list_find (λ x, elementId x = elementId e) l.
Proof. apply list_find_ext. intros x. split; intros Hx; by symmetry. Qed.

Lemma list_find_id_None l e :
  list_find (λ x, elementId e = elementId x) l = None
  ↔ elementId e ∉ (elementId <$> l).
Proof.
  rewrite list_find_id_sym, <- findById_None. unfold findById. by rewrite fmap_None.
Qed.

Lemma NoDup_ids_snoc l e :
  NoDup (elementId <$> l) → elementId e ∉ (elementId <$> l) →
  NoDup (elementId <$> (l ++ [e])).
Proof.
  intros Hnd Hnew. rewrite fmap_app. apply NoDup_app. split; [done|]. split.
  - intros x Hx [->|[]%elem_of_nil]%elem_of_cons. done.
  - apply NoDup_singleton.
Qed.

Lemma NoDup_ids_insert l (i : nat) x e :
  NoDup (elementId <$> l) → l !! i = Some x → elementId e = elementId x →
  (elementId <$> <[i := e]> l) = (elementId <$> l).
Proof.
  intros Hnd Hi Hid. rewrite list_fmap_insert, Hid, list_insert_id; [done|].
  by rewrite list_lookup_fmap, Hi.
Qed.

Lemma NoDup_ids_delete l (i : nat) :
  NoDup (elementId <$> l) → NoDup (elementId <$> delete i l).
Proof.
  intros Hnd. rewrite list_fmap_delete.
  eapply sublist_NoDup; [exact Hnd|apply sublist_delete].
Qed.

Lemma elem_of_insert_other l (i : nat) x e y :
  l !! i = Some x → y ≠ x → y ≠ e → y ∈ <[i := e]> l ↔ y ∈ l.
Proof.
  intros Hi Hx He. rewrite !list_elem_of_lookup. split; intros [j Hj]; exists j.
  - destruct (decide (i = j)) as [->|].
    + rewrite list_lookup_insert_eq in Hj by (by eapply lookup_lt_Some). congruence.
    + by rewrite list_lookup_insert_ne in Hj.
  - destruct (decide (i = j)) as [->|]; [congruence|].
    by rewrite list_lookup_insert_ne.
Qed.

Lemma elem_of_delete_other l (i : nat) x y :
  NoDup l → l !! i = Some x → y ∈ delete i l ↔ y ∈ l ∧ y ≠ x.
Proof.
  intros Hnd Hi. pose proof (delete_Permutation l i x Hi) as Hp.
  rewrite Hp in Hnd. apply NoDup_cons in Hnd as [Hx _].
  rewrite (elem_of_Permutation_proper _ _ _ Hp), elem_of_cons. split.
  - intros Hy. split; [by right|]. by intros ->.
  - intros [[->|Hy] Hne]; done.
Qed.

End LookupFacts.

Section StoreTheorems.
Context {T : Type} `{Entity T}.
Implicit Types (w : World T) (e x : T) (l : list T).

Lemma after_insert_new e w :
  list_find (λ x, elementId e = elementId x) (_loadedEntities w) = None →
  ∃ w', after (_addToLoadedEntities e w) = Some w'
        ∧ _loadedEntities w'
          = js_sort (sortCompare (_config w)) (_loadedEntities w ++ [e]).
Proof.
  intros Hf. unfold _addToLoadedEntities. rewrite bind_get, Hf.
  match goal with
  | |- context [after ((modify ?f ≫= ?k) ?W)] =>
      destruct (after_modify_then sameStore f (k tt) W) as (w' & Hafter & Hcfg & Hl & _);
        [frame_auto..|]
  end.
  exists w'. split; [exact Hafter|]. by rewrite Hl.
Qed.

(** X8.  A CREATE is applied when the list is completely loaded or the new
    entity sorts before the last loaded one: the entity is then among the
    loaded ones, and they are sorted.  In a list that is not completely
    loaded an entity that does not sort before the last loaded one is left
    out, and the world stays as it is. *)
Theorem create_is_applied_inside_the_loaded_range w e :
  elementId e ∉ (elementId <$> _loadedEntities w) →
  (_loadedCompletely w = true
   ∨ (∃ y, last (_loadedEntities w) = Some y ∧ sortCompare (_config w) e y < 0) →
   ∃ w', after (entityEventReceived_then CREATE e w) = Some w'
     ∧ _loadedEntities w'
       = js_sort (sortCompare (_config w)) (_loadedEntities w ++ [e])
     ∧ e ∈ _loadedEntities w')
  ∧ (_loadedCompletely w = false →
     (∀ y, last (_loadedEntities w) = Some y → 0 ≤ sortCompare (_config w) e y) →
     entityEventReceived_then CREATE e w = Returns tt w).
Proof.
  intros Hnew. apply list_find_id_None in Hnew. split.
  - intros Hin.
    assert (entityEventReceived_then CREATE e w = _addToLoadedEntities e w) as ->.
    { unfold entityEventReceived_then. rewrite bind_get.
      destruct Hin as [->|(y & Hl & Hlt)]; [done|].
      destruct (_loadedCompletely w); [done|]. unfold last_. rewrite Hl.
      rewrite (bool_decide_eq_true_2 (0 < _)%nat).
      2:{ destruct (_loadedEntities w); [done|cbn; lia]. }
      by rewrite (bool_decide_eq_true_2 (_ < 0)). }
    destruct (after_insert_new e w Hnew) as (w' & Ha & Hl).
    exists w'. split; [done|]. split; [done|].
    rewrite Hl, js_sort_perm. apply elem_of_app. right. by left.
  - intros Hc Hlast. unfold entityEventReceived_then. rewrite bind_get, Hc.
    unfold last_. destruct (last (_loadedEntities w)) as [y|] eqn:Hl; [|done].
    rewrite (bool_decide_eq_false_2 (_ < 0)) by (specialize (Hlast y eq_refl); lia).
    by rewrite andb_false_r.
Qed.

(** X9.  An UPDATE for an identifier that is neither loaded nor selected and
    a DELETE for an identifier that is not loaded leave the world as it is;
    the promise of such a DELETE is fulfilled. *)
Theorem unknown_identifier_changes_nothing w e id :
  elementId e ∉ (elementId <$> _loadedEntities w) →
  elementId e ∉ (elementId <$> _selectedEntities w) →
  id ∉ (elementId <$> _loadedEntities w) →
  _updateLoadedEntity e w = Returns tt w
  ∧ _deleteLoadedEntity_then id w = Returns tt w
  ∧ ∀ q loading,
      promises w !! q = Some (Pending (K_afterLoading loading (ApplyDelete id))) →
      promises w !! loading = Some Fulfilled →
      loading_settled q w = Returns tt (set_promises (<[q := Fulfilled]> (promises w)) w).
Proof.
  intros Hl Hs Hid.
  apply list_find_id_None in Hl. apply list_find_id_None in Hs.
  apply findById_None in Hid.
  assert (Hdel : _deleteLoadedEntity_then id w = Returns tt w).
  { unfold _deleteLoadedEntity_then. rewrite bind_get. by rewrite Hid. }
  split; [|split; [done|]].
  - unfold _updateLoadedEntity. rewrite bind_get, Hl. munfold. by rewrite Hs.
  - intros q loading Hq Hload. unfold loading_settled. munfold.
    rewrite Hq, Hload, Hdel. done.
Qed.

Lemma findById_snoc l e id :
  findById (l ++ [e]) id
  = match findById l id with
    | Some x => Some x
    | None => if bool_decide (id = elementId e) then Some e else None
    end.
Proof.
  unfold findById.
  destruct (list_find _ l) as [[i x]|] eqn:Hf; cbn.
  - by rewrite (list_find_app_l _ _ _ _ _ Hf).
  - rewrite (list_find_app_r _ _ _ Hf). cbn.
    case_bool_decide; case_decide; simplify_eq/=; done.
Qed.

(** X10.  The loaded entities are a map keyed by the identifier.  On a
    rendered list every operation of the store returns; an insert adds the
    entity unless its identifier is loaded, a replacement puts the entity in
    the place of the loaded one with its identifier, if there is one, and a
    removal takes the entity with the identifier away.  Every other
    identifier keeps its entity, and no identifier is loaded twice. *)
Theorem store_is_keyed_by_identifier w op :
  rendered w → NoDup (elementId <$> _loadedEntities w) →
  ∃ w', applyOp op w = Returns tt w'
    ∧ NoDup (elementId <$> _loadedEntities w')
    ∧ ∀ id, getEntity w' id
        = match op with
          | Insert e =>
              match getEntity w id with
              | Some x => Some x
              | None => if bool_decide (id = elementId e) then Some e else None
              end
          | Replace e =>
              if bool_decide (id = elementId e) then (λ _, e) <$> getEntity w id
              else getEntity w id
          | Remove id0 => if bool_decide (id = id0) then None else getEntity w id
          end.
Proof.
  intros Hr Hnd. pose proof (NoDup_fmap_1 _ _ Hnd) as Hnd'.
  destruct op as [e|e|id0]; cbn [applyOp]; unfold getEntity.
  - destruct (list_find (λ x, elementId e = elementId x) (_loadedEntities w))
      as [[i x]|] eqn:Hf.
    + exists (set_trace (trace w ++ [ConsoleLog "entity already in list" e]) w).
      split. { unfold _addToLoadedEntities. rewrite bind_get, Hf. done. }
      split; [done|]. intros id. cbn.
      destruct (findById (_loadedEntities w) id) as [y|] eqn:Hy; [done|].
      rewrite bool_decide_eq_false_2; [done|]. intros ->.
      apply findById_None in Hy. apply list_find_id_None in Hy. congruence.
    + destruct (insert_new_rendered w e Hr Hf) as (w' & Hrun & _ & _ & _ & Hl & _).
      pose proof (proj1 (list_find_id_None _ _) Hf) as Hnew.
      exists w'. split; [done|]. rewrite Hl. split.
      { rewrite js_sort_perm. by apply NoDup_ids_snoc. }
      intros id. rewrite <- findById_snoc.
      apply findById_same_members; [by apply NoDup_ids_snoc|].
      intros y _. by rewrite js_sort_perm.
  - destruct (replace_rendered w e Hr) as (w' & Hrun & _ & _ & _ & _ & Hl & _).
    exists w'. split; [done|]. rewrite Hl.
    destruct (list_find (λ x, elementId e = elementId x) (_loadedEntities w))
      as [[i x]|] eqn:Hf.
    + apply list_find_Some in Hf as (Hi & Hid & _).
      pose proof (NoDup_ids_insert _ i x e Hnd Hi Hid) as Hids.
      split. { by rewrite js_sort_perm, Hids. }
      intros id. case_bool_decide as Hcase.
      * subst id.
        rewrite (findById_unique (_loadedEntities w) (elementId e) x); [|done| |done].
        2:{ by eapply list_elem_of_lookup_2. }
        cbn. apply findById_unique; [by rewrite js_sort_perm, Hids| |done].
        rewrite js_sort_perm. apply list_elem_of_insert. by eapply lookup_lt_Some.
      * apply findById_same_members; [done|].
        intros y Hy. rewrite js_sort_perm.
        apply (elem_of_insert_other _ i x e y Hi); congruence.
    + split; [done|]. intros id. case_bool_decide as Hcase; [|done]. subst id.
      apply list_find_id_None, findById_None in Hf. by rewrite Hf.
  - destruct (findById (_loadedEntities w) id0) as [e|] eqn:Hf.
    + pose proof Hf as (i & Hi & Hid)%findById_Some.
      destruct (remove_rendered w id0 e i Hr Hnd' Hf Hi)
        as (w' & sel0 & Hrun & _ & _ & _ & Hl & _).
      exists w'. split; [done|]. rewrite Hl. split; [by apply NoDup_ids_delete|].
      intros id. case_bool_decide as Hcase.
      * subst id. apply findById_None.
        intros (y & Hy & Hin)%list_elem_of_fmap.
        apply (elem_of_delete_other _ i e y Hnd' Hi) in Hin as [Hin Hne].
        apply Hne. apply list_elem_of_lookup in Hin as [j Hj].
        assert (i = j) as ->; [|congruence].
        apply (NoDup_lookup _ i j id0 Hnd); rewrite list_lookup_fmap.
        -- by rewrite Hi; cbn; rewrite Hid.
        -- by rewrite Hj; cbn; rewrite <- Hy.
      * apply findById_same_members; [done|].
        intros y Hy. rewrite (elem_of_delete_other _ i e y Hnd' Hi).
        split; [tauto|]. intros Hin. split; [done|]. intros ->. congruence.
    + exists w. split. { unfold _deleteLoadedEntity_then. rewrite bind_get. by rewrite Hf. }
      split; [done|]. intros id. case_bool_decide; [by subst|done].
Qed.

(** X11.  Removing an entity that is not selected leaves the selection as it
    is and makes no callback. *)
Theorem remove_unselected_is_silent w id e (i : nat) :
  rendered w → NoDup (_loadedEntities w) →
  findById (_loadedEntities w) id = Some e → _loadedEntities w !! i = Some e →
  e ∉ _selectedEntities w →
  ∃ w', _deleteLoadedEntity_then id w = Returns tt w'
    ∧ _loadedEntities w' = delete i (_loadedEntities w)
    ∧ _selectedEntities w' = _selectedEntities w
    ∧ trace w' = trace w.
Proof.
  intros Hr Hnd Hf Hi Hsel.
  destruct (remove_rendered w id e i Hr Hnd Hf Hi)
    as (w' & sel0 & Hrun & _ & _ & _ & Hl & Hsel0 & Hs & Ht).
  exists w'. split; [done|]. split; [done|].
  destruct Hsel0 as [->|(nxt & Heq & _)].
  - rewrite remove_not_elem_of in Hs, Ht by done. cbn in Hs, Ht.
    by rewrite app_nil_r in Ht.
  - destruct Hsel. rewrite Heq. by left.
Qed.

(** X12.  [scrollToIdAndSelectWhenReceived] for an identifier that is not
    loaded remembers the identifier and changes nothing else.  When an entity
    with that identifier is inserted afterwards it becomes the selection, the
    callback is made and the identifier is forgotten, so that a later insert
    selects nothing.  For a loaded identifier the entity is selected at
    once. *)
Theorem pending_selection_is_made_on_arrival w id :
  rendered w → id ≠ "" →
  (∀ e, getEntity w id = None → elementId e = id →
     ∃ w1 w2,
       scrollToIdAndSelectWhenReceived id w = Returns tt w1
       ∧ w1 = set_idOfEntityToSelectWhenReceived (Some id) w
       ∧ _addToLoadedEntities e w1 = Returns tt w2
       ∧ e ∈ _loadedEntities w2
       ∧ _selectedEntities w2 = [e]
       ∧ _idOfEntityToSelectWhenReceived w2 = None
       ∧ trace w2 = trace w ++ [ElementSelected [e] false
                                  (negb (bool_decide (_selectedEntities w = [e]))) false])
  ∧ (∀ e, getEntity w id = Some e →
       ∃ w1, scrollToIdAndSelectWhenReceived id w = Returns tt w1
         ∧ _selectedEntities w1 = [e]
         ∧ _idOfEntityToSelectWhenReceived w1 = _idOfEntityToSelectWhenReceived w
         ∧ trace w1 = trace w ++ [ElementSelected [e] false
                                    (negb (bool_decide (_selectedEntities w = [e]))) false]).
Proof.
  intros Hr Hne. split.
  - intros e Hget Hid.
    destruct (insert_new_rendered (set_idOfEntityToSelectWhenReceived (Some id) w) e)
      as (w2 & Hrun & _ & _ & _ & Hl & Hpend); [exact Hr| |].
    { apply list_find_id_None. rewrite Hid. by apply findById_None. }
    cbn [_loadedEntities _config _idOfEntityToSelectWhenReceived _selectedEntities trace
         set_idOfEntityToSelectWhenReceived] in Hpend, Hl.
    rewrite bool_decide_eq_true_2 in Hpend by (by rewrite Hid).
    destruct Hpend as (Hs & Hp & Ht).
    exists (set_idOfEntityToSelectWhenReceived (Some id) w), w2. split.
    { unfold scrollToIdAndSelectWhenReceived. rewrite bind_get, Hget. done. }
    split; [done|]. split; [exact Hrun|].
    rewrite Hl, js_sort_perm. split; [apply elem_of_app; right; by left|]. done.
  - intros e Hget.
    destruct (scrollSelect_single w e Hr) as (w1 & Hrun & Hs & _ & _ & Hp & _ & Ht).
    exists w1. unfold scrollToIdAndSelectWhenReceived. rewrite bind_get, Hget. done.
Qed.

End StoreTheorems.

Section RemoveFacts2.
Context {A : Type} `{EqDecision A}.
Implicit Types (l : list A) (x y : A).

Lemma remove_spec l x :
  NoDup l → NoDup (remove l x).2 ∧ ∀ y, y ∈ (remove l x).2 ↔ y ∈ l ∧ y ≠ x.
Proof.
  intros Hnd. destruct (decide (x ∈ l)) as [Hx|Hx].
  - apply list_elem_of_lookup in Hx as [i Hi].
    rewrite (remove_NoDup l i x Hnd Hi). cbn. split.
    + eapply sublist_NoDup; [exact Hnd|apply sublist_delete].
    + intros y. by apply elem_of_delete_other.
  - rewrite (remove_not_elem_of l x Hx). cbn. split; [done|].
    intros y. split; [|tauto]. intros Hy. split; [done|]. by intros ->.
Qed.

Lemma elem_of_insert_inv l (i : nat) x y :
  y ∈ <[i := x]> l → y = x ∨ ∃ j : nat, j ≠ i ∧ l !! j = Some y.
Proof.
  intros [j Hj]%list_elem_of_lookup. destruct (decide (j = i)) as [->|Hne].
  - left. destruct (decide (i < length l)%nat).
    + rewrite list_lookup_insert_eq in Hj by done. congruence.
    + rewrite list_insert_ge in Hj by lia. apply lookup_lt_Some in Hj. lia.
  - right. exists j. split; [done|]. by rewrite list_lookup_insert_ne in Hj.
Qed.

Lemma NoDup_insert_fresh l (i : nat) x :
  NoDup l → (∀ j : nat, j ≠ i → l !! j ≠ Some x) → NoDup (<[i := x]> l).
Proof.
  intros Hnd Hfresh. apply NoDup_alt. intros a b y Ha Hb.
  destruct (decide (i < length l)%nat) as [Hlt|Hge].
  2:{ rewrite list_insert_ge in Ha, Hb by lia. by eapply NoDup_lookup. }
  destruct (decide (a = i)) as [->|Hai], (decide (b = i)) as [->|Hbi]; [done|..].
  - rewrite list_lookup_insert_eq in Ha by done.
    rewrite list_lookup_insert_ne in Hb by done. simplify_eq. by destruct (Hfresh b).
  - rewrite list_lookup_insert_eq in Hb by done.
    rewrite list_lookup_insert_ne in Ha by done. simplify_eq. by destruct (Hfresh a).
  - rewrite list_lookup_insert_ne in Ha, Hb by done. by eapply NoDup_lookup.
Qed.

End RemoveFacts2.

Section SelectionInvariant.
Context {T : Type} `{Entity T}.
Implicit Types (w : World T) (e x y : T) (l : list T).

Lemma same_id_eq l x y :
  NoDup (elementId <$> l) → x ∈ l → y ∈ l → elementId x = elementId y → x = y.
Proof.
  intros Hnd [i Hi]%list_elem_of_lookup [j Hj]%list_elem_of_lookup Hid.
  assert (i = j) as ->; [|congruence].
  apply (NoDup_lookup _ i j (elementId x) Hnd); rewrite list_lookup_fmap.
  - by rewrite Hi.
  - by rewrite Hj; cbn; rewrite Hid.
Qed.

(** One operation of the store on a rendered list. *)
Lemma store_step_invariant w op :
  consistent (sortCompare (_config w)) →
  rendered w → storeOk w → selectionOk w →
  ∃ w', applyOp op w = Returns tt w'
    ∧ _config w' = _config w ∧ rendered w' ∧ storeOk w' ∧ selectionOk w'.
Proof.
  intros Hc Hr Hok [Hsnd Hsub].
  pose proof Hok as [Hsorted Hnd]. pose proof (storeOk_NoDup w Hok) as Hnd'.
  destruct op as [e|e|id0]; cbn [applyOp].
  - destruct (list_find (λ x, elementId e = elementId x) (_loadedEntities w))
      as [[i x]|] eqn:Hf.
    + exists (set_trace (trace w ++ [ConsoleLog "entity already in list" e]) w).
      split. { unfold _addToLoadedEntities. rewrite bind_get, Hf. done. }
      done.
    + destruct (insert_new_rendered w e Hr Hf) as (w' & Hrun & Hcfg & Hr' & _ & Hl & Hsel).
      pose proof (proj1 (list_find_id_None _ _) Hf) as Hnew.
      exists w'. split; [done|]. split; [done|]. split; [done|]. split.
      { eapply storeOk_sorted_perm; [done..|]. by apply NoDup_ids_snoc. }
      unfold selectionOk. rewrite Hl.
      case_bool_decide; destruct Hsel as (-> & _).
      * split; [apply NoDup_singleton|]. intros y ->%list_elem_of_singleton.
        rewrite js_sort_perm. apply elem_of_app. right. by left.
      * split; [done|]. intros y Hy. rewrite js_sort_perm.
        apply elem_of_app. left. by apply Hsub.
  - destruct (replace_rendered w e Hr) as (w' & Hrun & Hcfg & Hr' & _ & _ & Hl & Hsel).
    exists w'. split; [done|]. split; [done|]. split; [done|].
    destruct (list_find (λ x, elementId e = elementId x) (_loadedEntities w))
      as [[i x]|] eqn:Hf.
    + apply list_find_Some in Hf as (Hi & Hid & _).
      pose proof (NoDup_ids_insert _ i x e Hnd Hi Hid) as Hids.
      pose proof (list_elem_of_lookup_2 _ _ _ Hi) as Hxin.
      split. { eapply storeOk_sorted_perm; [done..|]. by rewrite Hids. }
      unfold selectionOk. rewrite Hl, Hsel.
      assert (Hkeep : ∀ y, y ∈ _selectedEntities w → y ≠ x →
                y ∈ js_sort (sortCompare (_config w)) (<[i := e]> (_loadedEntities w))).
      { intros y Hy Hne. rewrite js_sort_perm.
        pose proof (Hsub y Hy) as [k Hk]%list_elem_of_lookup.
        apply list_elem_of_lookup. exists k. rewrite list_lookup_insert_ne; [done|].
        intros ->. congruence. }
      assert (Hein : e ∈ js_sort (sortCompare (_config w)) (<[i := e]> (_loadedEntities w))).
      { rewrite js_sort_perm. apply list_elem_of_insert. by eapply lookup_lt_Some. }
      destruct (list_find (λ x, elementId e = elementId x) (_selectedEntities w))
        as [[j s]|] eqn:Hfs.
      * apply list_find_Some in Hfs as (Hj & Hids' & _).
        assert (s = x) as ->.
        { apply (same_id_eq (_loadedEntities w)); [done| |done|congruence].
          apply Hsub. by eapply list_elem_of_lookup_2. }
        split.
        -- apply NoDup_insert_fresh; [done|]. intros k Hk Hke.
           assert (e = x) as ->.
           { apply (same_id_eq (_loadedEntities w)); [done| |done|done].
             apply Hsub. by eapply list_elem_of_lookup_2. }
           apply Hk. by apply (NoDup_lookup (_selectedEntities w) k j x).
        -- intros y [->|(k & Hk & Hy)]%elem_of_insert_inv; [done|].
           apply Hkeep; [by eapply list_elem_of_lookup_2|].
           intros ->. apply Hk. by apply (NoDup_lookup (_selectedEntities w) k j x).
      * split; [done|]. intros y Hy. apply Hkeep; [done|]. intros ->.
        apply list_find_None in Hfs. rewrite Forall_forall in Hfs. by apply (Hfs x).
    + assert (Hnone : list_find (λ x, elementId e = elementId x) (_selectedEntities w) = None).
      { apply list_find_None, Forall_forall. intros y Hy Hid.
        apply list_find_None in Hf. rewrite Forall_forall in Hf.
        by apply (Hf y (Hsub y Hy)). }
      rewrite Hnone in Hsel. split.
      { unfold storeOk. by rewrite Hcfg, Hl. }
      unfold selectionOk. by rewrite Hl, Hsel.
  - destruct (findById (_loadedEntities w) id0) as [e|] eqn:Hf.
    + pose proof Hf as (i & Hi & Hid)%findById_Some.
      destruct (remove_rendered w id0 e i Hr Hnd' Hf Hi)
        as (w' & sel0 & Hrun & Hcfg & Hr' & _ & Hl & Hsel0 & Hsel & _).
      exists w'. split; [done|]. split; [done|]. split; [done|]. split.
      { unfold storeOk. rewrite Hcfg, Hl. split.
        - by apply StronglySorted_delete.
        - by apply NoDup_ids_delete. }
      unfold selectionOk. rewrite Hl, Hsel.
      assert (Hsel0' : NoDup sel0 ∧ sel0 ⊆ _loadedEntities w).
      { destruct Hsel0 as [->|(nxt & Heq & -> & Hne & Hin)]; [done|]. split.
        - apply NoDup_cons. split; [|apply NoDup_singleton].
          intros ->%list_elem_of_singleton. done.
        - intros y [->|Hy%list_elem_of_singleton]%elem_of_cons.
          + by eapply list_elem_of_lookup_2.
          + by subst. }
      destruct Hsel0' as [Hnd0 Hsub0].
      destruct (remove_spec sel0 e Hnd0) as [Hnd1 Hmem]. split; [done|].
      intros y [Hy Hne]%Hmem. apply (elem_of_delete_other _ i e y Hnd' Hi).
      split; [by apply Hsub0|done].
    + exists w. split. { unfold _deleteLoadedEntity_then. rewrite bind_get. by rewrite Hf. }
      done.
Qed.

(** X13.  On a rendered list whose comparator is a total preorder, every
    operation of the store returns, and the operations keep the list
    rendered, the loaded entities sorted and without a repeated identifier,
    and the selection a set of loaded entities. *)
Theorem store_operations_keep_selection_loaded w :
  consistent (sortCompare (_config w)) →
  rendered w → storeOk w → selectionOk w →
  (∀ op, ∃ w', applyOp op w = Returns tt w'
           ∧ rendered w' ∧ storeOk w' ∧ selectionOk w')
  ∧ (∀ ops, ∃ w', applyOps ops w = Some w'
            ∧ rendered w' ∧ storeOk w' ∧ selectionOk w').
Proof.
  intros Hc Hr Hok Hsel. split.
  - intros op. destruct (store_step_invariant w op Hc Hr Hok Hsel)
      as (w' & ? & _ & ? & ? & ?). eauto.
  - intros ops. revert w Hc Hr Hok Hsel.
    induction ops as [|op ops IH]; intros w Hc Hr Hok Hsel; cbn [applyOps].
    + by exists w.
    + destruct (store_step_invariant w op Hc Hr Hok Hsel)
        as (w1 & -> & Hcfg & Hr1 & Hok1 & Hsel1). cbn [after].
      apply IH; [by rewrite Hcfg|done..].
Qed.

End SelectionInvariant.

(** ** Clicks with a modifier key *)

Section IndexFacts.
Context {A : Type} `{EqDecision A}.
Implicit Types (l : list A) (x : A).

Lemma js_indexOf_absent l x : js_indexOf l x = -1 ↔ x ∉ l.
Proof.
  split.
  - intros Hi Hx. destruct (js_indexOf_elem_of l x Hx) as (i & Hi' & _). lia.
  - intros Hx. unfold js_indexOf. by rewrite list_find_eq_None.
Qed.

End IndexFacts.

Section Clicks.
Context {T : Type} `{Entity T}.
Implicit Types (w : World T) (c e x y : T).

Lemma _elementClicked_end_rendered w (changed multi : bool) :
  rendered w →
  ∃ w', _elementClicked_end changed multi w = Returns tt w'
    ∧ _selectedEntities w'
      = (if changed then js_sort (sortCompare (_config w)) (_selectedEntities w)
         else _selectedEntities w)
    ∧ _loadedEntities w' = _loadedEntities w ∧ _config w' = _config w
    ∧ isMacOS w' = isMacOS w
    ∧ rendered w'
    ∧ trace w' = trace w ++ [ElementSelected (_selectedEntities w') true changed multi].
Proof.
  intros Hr. pose proof Hr as ([scroll Hs] & _).
  unfold _elementClicked_end. munfold. destruct changed.
  - match goal with
    | |- context [_reposition ?W] =>
        destruct (_reposition_rendered W scroll Hs Hr) as (w1 & Hrun & Hrep & _ & Hr1 & _)
    end.
    rewrite Hrun. unfold elementSelected, getSelectedEntities. munfold.
    eexists. split; [done|]. cbn. split_and!; try done; by rewrite Hrep.
  - unfold elementSelected, getSelectedEntities. munfold.
    eexists. split; [done|]. done.
Qed.

Lemma toggle_click w c event :
  multiSelectionAllowed (_config w) = true →
  (if isMacOS w then metaKey event else ctrlKey event) = true →
  rendered w →
  ∃ w', _elementClicked c event w = Returns tt w'
    ∧ _selectedEntities w'
      = js_sort (sortCompare (_config w))
          (if bool_decide (c ∈ _selectedEntities w)
           then (remove (_selectedEntities w) c).2
           else _selectedEntities w ++ [c])
    ∧ _config w' = _config w ∧ isMacOS w' = isMacOS w ∧ rendered w'
    ∧ _loadedEntities w' = _loadedEntities w
    ∧ trace w' = trace w ++ [ElementSelected (_selectedEntities w') true true true].
Proof.
  intros Hmulti Hkey Hr. unfold _elementClicked. rewrite bind_get.
  rewrite Hmulti, Hkey. cbn [andb orb].
  destruct (decide (c ∈ _selectedEntities w)) as [Hin|Hin].
  - rewrite (bool_decide_eq_true_2 (js_indexOf _ _ ≠ -1))
      by (by rewrite js_indexOf_absent; intros ?).
    rewrite (bool_decide_eq_true_2 (c ∈ _)) by done. munfold.
    match goal with
    | |- context [_elementClicked_end true true ?W] =>
        destruct (_elementClicked_end_rendered W true true)
          as (w' & Hrun & Hs & Hl & Hc & Hm & Hr' & Ht); [exact Hr|]
    end.
    exists w'. split; [done|]. split_and!; done.
  - rewrite (bool_decide_eq_false_2 (js_indexOf _ _ ≠ -1))
      by (by rewrite js_indexOf_absent; intros ?).
    rewrite (bool_decide_eq_false_2 (c ∈ _)) by done. munfold.
    match goal with
    | |- context [_elementClicked_end true true ?W] =>
        destruct (_elementClicked_end_rendered W true true)
          as (w' & Hrun & Hs & Hl & Hc & Hm & Hr' & Ht); [exact Hr|]
    end.
    exists w'. split; [done|]. split_and!; done.
Qed.

(** X14.  A click with the toggle key (ctrl, or meta on macOS) in a list
    that allows multi-selection removes the clicked entity from the selection
    when it is selected and adds it otherwise; every other entity stays
    selected or unselected, and the callback is made with explicit = true,
    changed = true, multi = true.  A second such click on the same entity
    restores the selection. *)
Theorem toggle_click_adds_or_removes w c event :
  multiSelectionAllowed (_config w) = true →
  (if isMacOS w then metaKey event else ctrlKey event) = true →
  rendered w → NoDup (_selectedEntities w) →
  ∃ w' w2,
    _elementClicked c event w = Returns tt w'
    ∧ (c ∈ _selectedEntities w' ↔ c ∉ _selectedEntities w)
    ∧ (∀ y, y ≠ c → y ∈ _selectedEntities w' ↔ y ∈ _selectedEntities w)
    ∧ NoDup (_selectedEntities w')
    ∧ trace w' = trace w ++ [ElementSelected (_selectedEntities w') true true true]
    ∧ _elementClicked c event w' = Returns tt w2
    ∧ _selectedEntities w2 ≡ₚ _selectedEntities w.
Proof.
  intros Hmulti Hkey Hr Hnd.
  destruct (toggle_click w c event Hmulti Hkey Hr)
    as (w' & Hrun & Hs & Hc & Hm & Hr' & _ & Ht).
  destruct (toggle_click w' c event) as (w2 & Hrun2 & Hs2 & _);
    [by rewrite Hc|by rewrite Hm|done|].
  exists w', w2. split; [done|].
  destruct (remove_spec (_selectedEntities w) c Hnd) as [Hnd1 Hmem].
  destruct (decide (c ∈ _selectedEntities w)) as [Hin|Hin].
  - rewrite (bool_decide_eq_true_2 _ Hin) in Hs.
    assert (Hnin' : c ∉ _selectedEntities w').
    { rewrite Hs, js_sort_perm, Hmem. tauto. }
    rewrite (bool_decide_eq_false_2 _ Hnin') in Hs2.
    split; [tauto|]. split.
    { intros y Hy. rewrite Hs, js_sort_perm, Hmem. tauto. }
    split; [by rewrite Hs, js_sort_perm|]. split; [done|]. split; [done|].
    apply list_elem_of_lookup in Hin as [k Hk].
    rewrite (remove_NoDup _ k c Hnd Hk) in Hs. cbn [snd] in Hs.
    rewrite Hs2, js_sort_perm, Hs, js_sort_perm, Permutation_app_comm. cbn.
    by rewrite <- (delete_Permutation _ k c Hk).
  - rewrite (bool_decide_eq_false_2 _ Hin) in Hs.
    assert (Hin' : c ∈ _selectedEntities w').
    { rewrite Hs, js_sort_perm. apply elem_of_app. right. by left. }
    assert (Hnd' : NoDup (_selectedEntities w')).
    { rewrite Hs, js_sort_perm. apply NoDup_app. split; [done|]. split.
      - intros y Hy ->%list_elem_of_singleton. done.
      - apply NoDup_singleton. }
    rewrite (bool_decide_eq_true_2 _ Hin') in Hs2.
    split; [tauto|]. split.
    { intros y Hy. rewrite Hs, js_sort_perm, elem_of_app, list_elem_of_singleton. tauto. }
    split; [done|]. split; [done|]. split; [done|].
    apply list_elem_of_lookup in Hin' as [k Hk].
    rewrite (remove_NoDup _ k c Hnd' Hk) in Hs2. cbn [snd] in Hs2.
    rewrite Hs2, js_sort_perm.
    apply (Permutation_cons_inv (a := c)).
    rewrite <- (delete_Permutation _ k c Hk), Hs, js_sort_perm.
    by rewrite Permutation_app_comm.
Qed.

(** X15.  In a list that does not allow multi-selection the modifier keys
    of a click are ignored: the click does what a click without modifiers
    does. *)
Theorem modifiers_need_multi_selection w c event :
  multiSelectionAllowed (_config w) = false →
  _elementClicked c event w
  = _elementClicked c {| metaKey := false; ctrlKey := false; shiftKey := false |} w.
Proof.
  intros Hmulti. unfold _elementClicked. rewrite !bind_get. by rewrite Hmulti.
Qed.

(** X16.  A shift-click with nothing selected selects the clicked entity,
    and the callback is made with changed = true and multi = true.  A
    shift-click on the only selected entity changes nothing but the trace:
    the callback is made with changed = false and multi = true. *)
Theorem shift_click_without_range w c event :
  multiSelectionAllowed (_config w) = true →
  (if isMacOS w then metaKey event else ctrlKey event) = false →
  shiftKey event = true →
  rendered w →
  (_selectedEntities w = [] →
   ∃ w', _elementClicked c event w = Returns tt w'
     ∧ _selectedEntities w' = [c]
     ∧ _loadedEntities w' = _loadedEntities w
     ∧ trace w' = trace w ++ [ElementSelected [c] true true true])
  ∧ (_selectedEntities w = [c] →
     _elementClicked c event w
     = Returns tt (set_trace (trace w ++ [ElementSelected [c] true false true]) w)).
Proof.
  intros Hmulti Hkey Hshift Hr. split.
  - intros Hsel. unfold _elementClicked. rewrite bind_get.
    rewrite Hmulti, Hkey, Hshift. cbn [andb orb]. rewrite Hsel.
    rewrite (bool_decide_eq_true_2 (length _ = 0%nat)) by done. munfold.
    match goal with
    | |- context [_elementClicked_end true true ?W] =>
        destruct (_elementClicked_end_rendered W true true)
          as (w' & Hrun & Hs & Hl & _ & _ & _ & Ht); [exact Hr|]
    end.
    exists w'. split; [done|]. cbn in Hs, Ht, Hl. rewrite Ht, Hs. done.
  - intros Hsel. unfold _elementClicked. rewrite bind_get.
    rewrite Hmulti, Hkey, Hshift. cbn [andb orb]. rewrite Hsel.
    rewrite (bool_decide_eq_false_2 (length _ = 0%nat)) by done.
    rewrite (bool_decide_eq_true_2 (length _ = 1%nat)) by done.
    rewrite (bool_decide_eq_true_2 (_ !! _ = Some c)) by done. cbn [andb].
    unfold _elementClicked_end, elementSelected, getSelectedEntities. munfold.
    by rewrite Hsel.
Qed.

End Clicks.

(** ** The rows of the pool *)

Section Rows.
Context {T : Type} `{Entity T}.
Implicit Types (w : World T) (r : RowRef) (rs : list RowRef) (e x : T).

Lemma _updateVirtualRow_full w r row dom (e : option T) odd :
  rows w !! r = Some row → domElement row = Some dom →
  _updateVirtualRow r e odd w
  = Returns tt
      (set_rows
         (<[r := {| top := top row; entity := e;
                    domElement := Some {| offsetHeight := offsetHeight dom;
                                          oddRow := negb odd;
                                          displayed := bool_decide (is_Some e) |};
                    updated := match e with
                               | Some x => Some (x, isEntitySelected w (elementId x))
                               | None => updated row
                               end |}]> (rows w)) w).
Proof.
  intros Hr Hd. unfold _updateVirtualRow. munfold.
  rewrite (readRow_lookup _ _ _ Hr). rewrite Hd. unfold writeRow. munfold. cbn.
  rewrite list_insert_insert_eq. by destruct w.
Qed.

Lemma _reposition_rows_shows rs : ∀ next w,
  NoDup rs →
  (∀ r, r ∈ rs → ∃ row, rows w !! r = Some row ∧ is_Some (domElement row)) →
  ∃ w', _reposition_rows rs next w = Returns tt w'
        ∧ w' = set_rows (rows w') w
        ∧ (∀ (i : nat) r, rs !! i = Some r →
             ∃ row, rows w' !! r = Some row
                    ∧ top row = next + Z.of_nat i * rowHeightZ w
                    ∧ shows w row)
        ∧ (∀ r, r ∉ rs → rows w' !! r = rows w !! r).
Proof.
  induction rs as [|r rs IH]; intros next w Hnd Hrs.
  - exists w. cbn. split; [done|]. split; [apply world_eta|]. split; [|done].
    intros i r Hi. by rewrite lookup_nil in Hi.
  - apply NoDup_cons in Hnd as [Hr Hnd].
    destruct (Hrs r) as (row & Hrow & dom & Hdom); [left|].
    cbn [_reposition_rows]. munfold.
    rewrite (readRow_lookup _ _ _ Hrow). unfold writeRow at 1. munfold. rewrite Hdom.
    set (w1 := set_rows _ w).
    assert (Hlt : (r < length (rows w))%nat) by (by eapply lookup_lt_Some).
    erewrite (_updateVirtualRow_full w1 r _ dom).
    2:{ subst w1. cbn. by apply list_lookup_insert_eq. }
    2:{ done. }
    set (w2 := set_rows _ w1).
    destruct (IH (next + rowHeightZ w) w2 Hnd) as (w' & Hrun & Heq & Hin & Hout).
    { intros r' Hr'. subst w2 w1. cbn.
      assert (r ≠ r') by (intros ->; done).
      rewrite !list_lookup_insert_ne by done. apply Hrs. by right. }
    exists w'. split; [done|]. split.
    { rewrite Heq. subst w2 w1. by destruct w. }
    split.
    + intros [|i] r' Hi; cbn in Hi.
      * inversion Hi; subst r'. rewrite (Hout _ Hr). subst w2 w1. cbn.
        rewrite list_lookup_insert_eq by (by rewrite length_insert).
        eexists. split; [done|]. cbn. split; [lia|].
        split; [done|]. split; [eauto|]. intros x Hx. cbn in Hx. by rewrite Hx.
      * destruct (Hin i r' Hi) as (row2 & ? & ? & ?).
        exists row2. split; [done|]. split; [|done].
        subst w2 w1. unfold rowHeightZ in *. cbn in *. lia.
    + intros r' Hr'. apply not_elem_of_cons in Hr' as [? ?].
      rewrite (Hout r') by done. subst w2 w1. cbn.
      by rewrite !list_lookup_insert_ne.
Qed.

Lemma startPosition_divisible w scroll :
  (rowHeightZ w | bufferHeight w) → (rowHeightZ w | _visibleElementsHeight w) →
  (rowHeightZ w | startPosition w scroll).
Proof.
  intros [b Hb] [v Hv]. unfold startPosition.
  assert (Hrh : 0 < rowHeightZ w) by (unfold rowHeightZ; lia).
  repeat case_bool_decide.
  - by exists 0.
  - exists (Z.of_nat (length (_loadedEntities w)) - b * 2 - v). lia.
  - exists (Z.quot scroll (rowHeightZ w) - b).
    pose proof (Z.quot_rem' scroll (rowHeightZ w)). lia.
Qed.

Lemma js_div_index_multiple (a : Z) (b : positive) (k : Z) :
  a = k * Z.pos b → js_div_index a b = Some k.
Proof.
  intros ->. unfold js_div_index.
  rewrite Z.rem_mul by lia. rewrite bool_decide_eq_true_2 by done.
  by rewrite Z.quot_mul by lia.
Qed.

(** X17.  After [_reposition] on a rendered list every row of the pool shows
    the loaded entity at the index its offset stands for: the row is bound
    to it, has been updated with it and with whether it is selected, and is
    displayed; a row whose index is outside the loaded entities is bound to
    nothing and hidden.  When the buffer height and the visible height are
    multiples of the row height, the rows show consecutive entities, from
    the index [startPosition / rowHeight]. *)
Theorem reposition_binds_rows_to_entities w scroll :
  scrollTop w = Some scroll → rendered w →
  ∃ w', _reposition w = Returns tt w'
    ∧ (∀ (i : nat) r, _virtualList w !! i = Some r →
         ∃ row, rows w' !! r = Some row
           ∧ top row = startPosition w scroll + Z.of_nat i * rowHeightZ w
           ∧ shows w row)
    ∧ ((rowHeightZ w | bufferHeight w) → (rowHeightZ w | _visibleElementsHeight w) →
       ∃ first, startPosition w scroll = first * rowHeightZ w
         ∧ ∀ (i : nat) r, _virtualList w !! i = Some r →
             ∃ row, rows w' !! r = Some row
               ∧ entity row = js_get (_loadedEntities w) (first + Z.of_nat i)).
Proof.
  intros Hs (_ & Hnd & Hrows).
  pose proof (proj1 (rendered_rows _ _) Hrows) as Hrows'.
  unfold _reposition. munfold. rewrite Hs.
  destruct (_reposition_rows_shows (_virtualList w) (startPosition w scroll)
              (set_currentPosition scroll w) Hnd)
    as (w' & Hrun & Heq & Hin & Hout); [done|].
  rewrite Hrun. eexists. split; [done|]. cbn [rows set_updateLater].
  split; [exact Hin|].
  intros Hb Hv. destruct (startPosition_divisible w scroll Hb Hv) as [first Hfirst].
  exists first. split; [done|]. intros i r Hi.
  destruct (Hin i r Hi) as (row & Hrow & Htop & Hent & _).
  exists row. split; [done|]. rewrite Hent.
  cbn [_config set_currentPosition] in *.
  rewrite (js_div_index_multiple _ _ (first + Z.of_nat i)).
  - done.
  - rewrite Htop, Hfirst. unfold rowHeightZ. cbn. lia.
Qed.

Lemma _reposition_rows_unmounted rs : ∀ next w r,
  r ∈ rs → (∀ r', r' ∈ rs → is_Some (rows w !! r')) →
  rows w !! r ≫= domElement = None →
  ∃ w', _reposition_rows rs next w
        = Throws "undefined dom element for virtual dom element" w'.
Proof.
  induction rs as [|r0 rs IH]; intros next w r Hr Hall Hnone.
  - by apply elem_of_nil in Hr.
  - destruct (Hall r0) as [row0 Hrow0]; [left|].
    cbn [_reposition_rows]. munfold.
    rewrite (readRow_lookup _ _ _ Hrow0). unfold writeRow at 1. munfold.
    destruct (domElement row0) as [dom0|] eqn:Hdom0; [|eauto].
    set (w1 := set_rows _ w).
    assert (Hlt : (r0 < length (rows w))%nat) by (by eapply lookup_lt_Some).
    erewrite (_updateVirtualRow_full w1 r0 _ dom0).
    2:{ subst w1. cbn. by apply list_lookup_insert_eq. }
    2:{ done. }
    assert (r ≠ r0) as Hne.
    { intros ->. rewrite Hrow0 in Hnone. cbn in Hnone. congruence. }
    apply elem_of_cons in Hr as [?|Hr]; [done|].
    apply (IH _ _ r Hr).
    + intros r' Hr'. subst w1. cbn.
      destruct (decide (r' = r0)) as [->|].
      * rewrite list_lookup_insert_eq; [done|]. by rewrite length_insert.
      * rewrite !list_lookup_insert_ne by done. apply Hall. by right.
    + subst w1. cbn. by rewrite !list_lookup_insert_ne.
Qed.

(** X18.  [_reposition] needs the mounted pool.  Before [_init] it throws
    and leaves the world as it is; when a row of the pool has no DOM node it
    throws, and what it has written is confined to the rows and the current
    position.  An unguarded caller fails with it: selecting an entity before
    [_init] throws after the selection has been replaced, and the selection
    callback is not made. *)
Theorem reposition_needs_the_pool w :
  (scrollTop w = None →
   _reposition w = Throws "TypeError: this._domListContainer is undefined" w
   ∧ ∀ e, _selectedEntities w ≠ [e] →
       _entitySelected e false w
       = Throws "TypeError: this._domListContainer is undefined"
           (set_selectedEntities [e] w))
  ∧ (∀ r, is_Some (scrollTop w) → r ∈ _virtualList w →
     Forall (λ r', is_Some (rows w !! r')) (_virtualList w) →
     rows w !! r ≫= domElement = None →
     ∃ w', _reposition w = Throws "undefined dom element for virtual dom element" w'
       ∧ repositioned w w').
Proof.
  split.
  - intros Hs.
    assert (Hrep : ∀ w0, scrollTop w0 = None →
      _reposition w0 = Throws "TypeError: this._domListContainer is undefined" w0).
    { intros w0 Hs0. unfold _reposition. munfold. by rewrite Hs0. }
    split; [by apply Hrep|]. intros e Hsel.
    unfold _entitySelected. munfold.
    assert (bool_decide (length (_selectedEntities w) ≠ 1%nat)
            || bool_decide (_selectedEntities w !! 0%nat ≠ Some e) = true) as ->.
    { destruct (_selectedEntities w) as [|x [|y l]];
        repeat case_bool_decide; simplify_eq/=; try done; congruence. }
    by rewrite Hrep.
  - intros r [scroll Hs] Hr Hall Hnone. rewrite Forall_forall in Hall.
    pose proof (frame__reposition w) as Hframe.
    unfold _reposition in *. munfold. rewrite Hs in *.
    destruct (_reposition_rows_unmounted (_virtualList w) (startPosition w scroll)
                (set_currentPosition scroll w) r Hr Hall Hnone) as (w' & Hrun).
    rewrite Hrun in *. eauto.
Qed.

End Rows.

(** ** Mounting *)

Section Mount.
Context {T : Type} `{Entity T}.
Implicit Types (w : World T) (r : RowRef) (rs : list RowRef).

Lemma ceil_even (ch rh : Z) :
  0 < rh →
  let ve := - ((- ch) `div` (2 * rh)) in
  ch ≤ 2 * ve * rh < ch + 2 * rh.
Proof.
  intros Hrh. cbv zeta.
  pose proof (Z.div_mod (- ch) (2 * rh)) as Hdm.
  pose proof (Z.mod_pos_bound (- ch) (2 * rh)) as Hb. lia.
Qed.

(** [_init] returns, with new rows for the pool. *)
Lemma _init_returns w cw ch :
  ∃ (n : nat) (v : Z),
    _init cw ch w
    = Returns tt
        (set_rows
           (rows w ++ map (λ i : nat, {| top := Z.of_nat i * rowHeightZ w; entity := None;
                                        domElement := None; updated := None |})
                        (seq 0 n))
           (set_visibleElementsHeight v
              (set_virtualList (seq (length (rows w)) n)
                 (set_width cw (set_scrollTop (Some 0) w))))).
Proof.
  exists (Z.to_nat (2 * - ((- ch) `div` (2 * rowHeightZ w)) + ScrollBuffer * 2)),
    (2 * - ((- ch) `div` (2 * rowHeightZ w)) * rowHeightZ w).
  reflexivity.
Qed.

(** X19.  [_init] creates a pool for an even number of visible rows, enough
    to cover the height of the container and less than two rows more, with
    the scroll buffer of 15 rows on both sides.  The rows are new, distinct,
    at the offsets 0, [rowHeight], ... and have no DOM node yet; the
    container is at the top. *)
Theorem init_creates_the_pool w cw ch :
  0 ≤ ch →
  ∃ w' ve, _init cw ch w = Returns tt w'
    ∧ 0 ≤ ve
    ∧ _visibleElementsHeight w' = 2 * ve * rowHeightZ w
    ∧ ch ≤ _visibleElementsHeight w' < ch + 2 * rowHeightZ w
    ∧ Z.of_nat (length (_virtualList w')) = 2 * ve + 2 * ScrollBuffer
    ∧ NoDup (_virtualList w')
    ∧ Forall (λ r, (length (rows w) ≤ r)%nat
                   ∧ ∃ row, rows w' !! r = Some row ∧ domElement row = None
                            ∧ entity row = None)
        (_virtualList w')
    ∧ offsets w' = Some (arithmetic 0 (rowHeightZ w) (length (_virtualList w')))
    ∧ scrollTop w' = Some 0 ∧ _width w' = cw
    ∧ _loadedEntities w' = _loadedEntities w ∧ ready w' = ready w.
Proof.
  intros Hch.
  assert (Hrh : 0 < rowHeightZ w) by (unfold rowHeightZ; lia).
  pose proof (ceil_even ch (rowHeightZ w) Hrh) as Hce. cbv zeta in Hce.
  set (ve := - ((- ch) `div` (2 * rowHeightZ w))) in *.
  assert (Hve : 0 ≤ ve) by nia.
  set (n := Z.to_nat (2 * ve + ScrollBuffer * 2)).
  exists (set_rows
            (rows w ++ map (λ i : nat, {| top := Z.of_nat i * rowHeightZ w; entity := None;
                                         domElement := None; updated := None |})
                         (seq 0 n))
            (set_visibleElementsHeight (2 * ve * rowHeightZ w)
               (set_virtualList (seq (length (rows w)) n)
                  (set_width cw (set_scrollTop (Some 0) w))))), ve.
  split; [reflexivity|].
  assert (Hn : Z.of_nat n = 2 * ve + 2 * ScrollBuffer) by (unfold n, ScrollBuffer; lia).
  clearbody n ve.
  cbn [_visibleElementsHeight _virtualList rows scrollTop _width _loadedEntities ready
       set_rows set_visibleElementsHeight set_virtualList set_width set_scrollTop].
  split; [done|]. split; [done|]. split; [lia|].
  split. { by rewrite length_seq. }
  split; [apply NoDup_seq|].
  split.
  { apply Forall_forall. intros r [Hlo Hhi]%elem_of_seq. split; [lia|].
    rewrite lookup_app_r by lia. rewrite list_lookup_fmap.
    rewrite lookup_seq_lt by lia. cbn. eauto. }
  split; [|done].
  unfold offsets.
  cbn [_visibleElementsHeight _virtualList rows scrollTop _width _loadedEntities ready
       set_rows set_visibleElementsHeight set_virtualList set_width set_scrollTop].
  apply mapM_Some. apply Forall2_same_length_lookup.
  split. { unfold arithmetic. by rewrite length_fmap, !length_seq. }
  intros i r z Hi Hz. apply lookup_seq in Hi as [-> Hi].
  rewrite length_seq in Hz. rewrite arithmetic_lookup in Hz by done.
  injection Hz as <-.
  rewrite lookup_app_r by lia. rewrite list_lookup_fmap.
  replace (length (rows w) + i - length (rows w))%nat with i by lia.
  rewrite lookup_seq_lt by lia. cbn. f_equal.
Qed.

Lemma _initRow_lookup w r row dom :
  rows w !! r = Some row →
  _initRow r dom w
  = Returns tt (set_rows (<[r := {| top := top row; entity := entity row;
                                    domElement := Some dom;
                                    updated := updated row |}]> (rows w)) w).
Proof.
  intros Hr. unfold _initRow. munfold.
  rewrite (readRow_lookup _ _ _ Hr). unfold writeRow. munfold. done.
Qed.

Lemma initRows_run (doms : RowRef → DomElement) rs : ∀ w,
  (∀ r, r ∈ rs → is_Some (rows w !! r)) →
  ∃ w', run ((λ r, E_initRow r (doms r)) <$> rs) w = Some w'
    ∧ w' = set_rows (rows w') w
    ∧ length (rows w') = length (rows w)
    ∧ (∀ r, r ∈ rs → is_Some (rows w' !! r ≫= domElement))
    ∧ (∀ r, is_Some (rows w !! r ≫= domElement) →
            is_Some (rows w' !! r ≫= domElement)).
Proof.
  induction rs as [|r0 rs IH]; intros w Hall; cbn [run fmap list_fmap].
  - exists w. split; [done|]. split; [apply world_eta|]. split; [done|].
    split; [|done]. intros r Hr. by apply elem_of_nil in Hr.
  - destruct (Hall r0) as [row0 Hrow0]; [left|].
    cbn [dispatch]. rewrite (_initRow_lookup _ _ _ _ Hrow0). cbn [after].
    set (w1 := set_rows _ w).
    assert (Hlt : (r0 < length (rows w))%nat) by (by eapply lookup_lt_Some).
    assert (Hkeep : ∀ r, is_Some (rows w !! r ≫= domElement) →
                         is_Some (rows w1 !! r ≫= domElement)).
    { intros r Hr. subst w1. cbn. destruct (decide (r = r0)) as [->|].
      - by rewrite list_lookup_insert_eq.
      - by rewrite list_lookup_insert_ne. }
    destruct (IH w1) as (w' & Hrun & Heq & Hlen & Hin & Hout).
    { intros r Hr. subst w1. cbn. apply lookup_lt_is_Some.
      rewrite length_insert. apply lookup_lt_is_Some. apply Hall. by right. }
    exists w'. split; [done|]. split.
    { rewrite Heq. subst w1. by destruct w. }
    split. { rewrite Hlen. subst w1. cbn. by rewrite length_insert. }
    split.
    + intros r [->|Hr]%elem_of_cons; [|by apply Hin].
      apply Hout. subst w1. cbn. by rewrite list_lookup_insert_eq.
    + intros r Hr. by apply Hout, Hkeep.
Qed.

(** X20.  Mounting renders the list, whatever the size of the container:
    after [_init], the creation of a DOM
    node for every row of the pool, and the second frame of [_init], the
    list is rendered and ready, the second frame has returned, and the
    store and the selection are as before. *)
Theorem mounting_renders_the_list w cw ch (doms : RowRef → DomElement) :
  ∃ w1 w',
    _init cw ch w = Returns tt w1
    ∧ run (mountEvents cw ch (_virtualList w1) doms) w = Some w'
    ∧ rendered w' ∧ ready w' = true
    ∧ _virtualList w' = _virtualList w1
    ∧ currentPosition w' = 0
    ∧ _loadedEntities w' = _loadedEntities w
    ∧ _selectedEntities w' = _selectedEntities w
    ∧ trace w' = trace w.
Proof.
  destruct (_init_returns w cw ch) as (n & v & Hinit).
  set (w1 := set_rows _ _) in Hinit.
  assert (Hnd : NoDup (_virtualList w1)) by apply NoDup_seq.
  assert (Hs : scrollTop w1 = Some 0) by done.
  exists w1.
  destruct (initRows_run doms (_virtualList w1) w1) as (w2 & Hrun & Heq & _ & Hin & _).
  { intros r [Hlo Hhi]%elem_of_seq. apply lookup_lt_is_Some. subst w1. cbn.
    rewrite length_app, length_map, length_seq. lia. }
  assert (Hr2 : rendered w2).
  { rewrite Heq. split; [change (is_Some (scrollTop w1)); by rewrite Hs|].
    split; [done|]. apply Forall_forall. exact Hin. }
  assert (Hs2 : scrollTop w2 = Some 0) by (by rewrite Heq).
  destruct (_reposition_rendered w2 0 Hs2 Hr2) as (w3 & Hrep & Hrepd & Hcur & Hr3 & _).
  exists (set_ready true w3). split; [done|]. split.
  { unfold mountEvents. cbn [app run dispatch]. rewrite Hinit. cbn [after].
    assert (Happ : ∀ evs1 evs2 (wa wb : World T),
              run evs1 wa = Some wb → run (evs1 ++ evs2) wa = run evs2 wb).
    { induction evs1 as [|ev evs1 IH]; intros evs2 wa wb; cbn [run app].
      - by intros [= ->].
      - destruct (after (dispatch ev wa)); [apply IH|done]. }
    rewrite (Happ _ _ _ _ Hrun). cbn [run dispatch]. unfold _init_frame. munfold.
    rewrite Hrep. done. }
  split; [done|]. split; [done|].
  assert (Hw1 : _loadedEntities w1 = _loadedEntities w
                ∧ _selectedEntities w1 = _selectedEntities w ∧ trace w1 = trace w).
  { done. }
  destruct Hw1 as (Hl1 & Hs1 & Ht1).
  cbn. rewrite Hrepd, Heq. cbn. rewrite Hcur. split_and!; done.
Qed.

End Mount.

(** ** The rows a scroll recycles *)

Section ScrollFacts.
Context {T : Type} `{Entity T}.
Implicit Types (w : World T) (r t : RowRef) (rs : list RowRef).

Global Instance scrolled_preorder : PreOrder (scrolled (T := T)).
Proof.
  split.
  - intros w. split; [by destruct w|done].
  - intros w1 w2 w3 [H12 P12] [H23 P23]. split; [|by etrans].
    rewrite H23. rewrite H12. by destruct w1.
Qed.

Lemma repositioned_scrolled w w' : repositioned w w' → scrolled w w'.
Proof. intros Hr. split; rewrite Hr; [by destruct w|done]. Qed.

Lemma rendered_insert w t (row row' : VirtualRow T) :
  rows w !! t = Some row →
  (is_Some (domElement row) → is_Some (domElement row')) →
  rendered w → rendered (set_rows (<[t := row']> (rows w)) w).
Proof.
  intros Hrow Hdom (Hs & Hnd & Hall). split; [done|]. split; [done|].
  cbn. rewrite Forall_forall in *. intros r Hr. specialize (Hall r Hr).
  destruct (decide (r = t)) as [->|Hne].
  - rewrite list_lookup_insert_eq by (by eapply lookup_lt_Some). cbn.
    rewrite Hrow in Hall. cbn in Hall. by apply Hdom.
  - by rewrite list_lookup_insert_ne.
Qed.

Lemma rendered_rotate w rs :
  rs ≡ₚ _virtualList w → rendered w → rendered (set_virtualList rs w).
Proof. intros Hp (Hs & Hnd & Hall). split; [done|]. split; cbn; by rewrite Hp. Qed.

(** A row is moved to [next] and bound anew, whether it has a DOM node or
    not: only this row changes, and it keeps its DOM node. *)
Lemma recycle_any w t (row : VirtualRow T) next (oe : option T) odd :
  rows w !! t = Some row →
  ∃ row',
    (is_Some (domElement row) → is_Some (domElement row'))
    ∧ ((writeRow t {| top := next; entity := entity row; domElement := domElement row;
                      updated := updated row |}
        ≫= λ _, _updateVirtualRow t oe odd) w
       = Returns tt (set_rows (<[t := row']> (rows w)) w)
       ∨ ∃ msg,
         (writeRow t {| top := next; entity := entity row; domElement := domElement row;
                        updated := updated row |}
          ≫= λ _, _updateVirtualRow t oe odd) w
         = Throws msg (set_rows (<[t := row']> (rows w)) w)).
Proof.
  intros Hrow.
  assert (Hlt : (t < length (rows w))%nat) by (by eapply lookup_lt_Some).
  unfold _updateVirtualRow, readRow, writeRow. munfold. cbn.
  rewrite list_lookup_insert_eq by done. cbn.
  destruct (domElement row) as [dom|] eqn:Hdom.
  - exists {| top := next; entity := oe;
              domElement := Some {| offsetHeight := offsetHeight dom; oddRow := negb odd;
                                    displayed := bool_decide (is_Some oe) |};
              updated := match oe with
                         | Some x => Some (x, isEntitySelected w (elementId x))
                         | None => updated row
                         end |}.
    split; [cbn; eauto|]. left. cbn. rewrite !list_insert_insert_eq. reflexivity.
  - exists {| top := next; entity := oe; domElement := None; updated := updated row |}.
    split; [by intros [? ?]|]. right. eexists. cbn.
    rewrite !list_insert_insert_eq. reflexivity.
Qed.

Lemma scrolled_rotate w rs (rws : list (VirtualRow T)) :
  rs ≡ₚ _virtualList w → scrolled w (set_virtualList rs (set_rows rws w)).
Proof. intros Hp. split; [by destruct w|done]. Qed.

Lemma scrolled_rows w (rws : list (VirtualRow T)) : scrolled w (set_rows rws w).
Proof. split; [by destruct w|done]. Qed.

End ScrollFacts.

(** ** What every event keeps *)

Create HintDb steadies.

Ltac steady_modify :=
  apply frame_modify; intros ?; split;
    [ first [ by intros ? | intros ?; by apply rendered_scrolled ]
    | first [ by intros ?
            | intros _; cbn; unfold ActionDistance; repeat case_bool_decide; lia ] ].

Ltac steady_auto :=
  repeat first
    [ solve [eauto 3 with steadies]
    | frame_step
    | steady_modify ].

Section Steady.
Context {T : Type} `{Entity T}.
Implicit Types (w : World T) (r : RowRef) (rs : list RowRef) (e : T).

Global Instance steady_preorder : PreOrder (steady (T := T)).
Proof.
  split.
  - by intros w.
  - intros w1 w2 w3 [? ?] [? ?]. split; auto.
Qed.

Lemma steady_readRow r : frame steady (readRow (T := T) r).
Proof. apply frame_readRow, _. Qed.

Lemma steady__reposition : frame steady (_reposition (T := T)).
Proof.
  intros w. pose proof (frame__reposition w) as Hf.
  destruct (decide (rendered w)) as [Hr|Hr].
  - pose proof Hr as ([scroll Hs] & _).
    destruct (_reposition_rendered w scroll Hs Hr) as (w' & -> & Hrep & _ & Hr' & _).
    split; [done|]. by rewrite Hrep.
  - destruct (_reposition w) as [[] w'|msg w'|]; [| |done];
      (split; [done|]); by rewrite Hf.
Qed.

Lemma steady__initRow r dom : frame steady (_initRow (T := T) r dom).
Proof.
  intros w. unfold _initRow, readRow. munfold.
  destruct (rows w !! r) as [row|] eqn:Hrow; [|reflexivity].
  unfold writeRow. munfold. split; [|done].
  intros (Hs & Hnd & Hall). split; [done|]. split; [done|].
  rewrite Forall_forall in *. intros r' Hr'. cbn.
  destruct (decide (r' = r)) as [->|].
  - rewrite list_lookup_insert_eq by (by eapply lookup_lt_Some). done.
  - rewrite list_lookup_insert_ne by done. by apply Hall.
Qed.

#[local] Hint Resolve steady_readRow steady__reposition steady__initRow : steadies.

Lemma steady_emit eff : frame steady (emit (T := T) eff).
Proof. unfold emit. steady_auto. Qed.

Lemma steady_newPromise k : frame steady (newPromise (T := T) k).
Proof. unfold newPromise. steady_auto. Qed.

Lemma steady_settle p b : frame steady (settle (T := T) p b).
Proof. unfold settle. steady_auto. Qed.

#[local] Hint Resolve steady_emit steady_newPromise steady_settle : steadies.

Lemma steady_elementSelected a b c : frame steady (elementSelected (T := T) a b c).
Proof. unfold elementSelected. steady_auto. Qed.

#[local] Hint Resolve steady_elementSelected : steadies.

Lemma steady__entitySelected e b : frame steady (_entitySelected e b).
Proof. unfold _entitySelected. steady_auto. Qed.

Lemma steady_isVisible rs e : frame steady (isVisible rs e).
Proof. induction rs; cbn [isVisible]; steady_auto. Qed.

#[local] Hint Resolve steady__entitySelected steady_isVisible : steadies.

Lemma steady__scrollToLoadedEntityAndSelect e b :
  frame steady (_scrollToLoadedEntityAndSelect e b).
Proof. unfold _scrollToLoadedEntityAndSelect. steady_auto. Qed.

Lemma steady__elementClicked_end a b : frame steady (_elementClicked_end (T := T) a b).
Proof. unfold _elementClicked_end. steady_auto. Qed.

#[local] Hint Resolve steady__scrollToLoadedEntityAndSelect steady__elementClicked_end
  : steadies.

Lemma steady__elementClicked e event : frame steady (_elementClicked e event).
Proof. unfold _elementClicked. steady_auto. Qed.

Lemma steady__loadMore : frame steady (_loadMore (T := T)).
Proof. unfold _loadMore. steady_auto. Qed.

Lemma steady__loadMore_then start count items :
  frame steady (_loadMore_then (T := T) start count items).
Proof. unfold _loadMore_then, setLoadedCompletely. steady_auto. Qed.

Lemma steady__loadMore_finally : frame steady (_loadMore_finally (T := T)).
Proof. unfold _loadMore_finally. steady_auto. Qed.

#[local] Hint Resolve steady__loadMore steady__loadMore_then steady__loadMore_finally
  : steadies.

Lemma steady__loadMore_settled p page : frame steady (_loadMore_settled (T := T) p page).
Proof. unfold _loadMore_settled. steady_auto. Qed.

Lemma steady__scroll : frame steady (_scroll (T := T)).
Proof. unfold _scroll. steady_auto. Qed.

#[local] Hint Resolve steady__scroll : steadies.

Lemma steady_onScroll scroll : frame steady (onScroll (T := T) scroll).
Proof. unfold onScroll. steady_auto. Qed.

(** The loops of [_scroll] keep the list rendered: a recycled row keeps its
    DOM node, and the pool is rotated. *)
Lemma _scroll_down_steady fuel : ∀ w t,
  match _scroll_down fuel t w with
  | Returns _ w' | Throws _ w' => scrolled w w' ∧ (rendered w → rendered w')
  | Unrepresented => True
  end.
Proof.
  induction fuel as [|fuel IH]; intros w t.
  { cbn. split; [reflexivity|done]. }
  assert (Hstay : scrolled w w ∧ (rendered w → rendered w)) by (split; [reflexivity|done]).
  cbn [_scroll_down]. unfold readRow. munfold.
  destruct (rows w !! t) as [topRow|] eqn:Htop; [|exact Hstay].
  destruct (bool_decide (top topRow + rowHeightZ w < currentPosition w - bufferHeight w));
    [|exact Hstay].
  destruct (last (_virtualList w)) as [l|] eqn:Hlast; [|exact Hstay].
  destruct (rows w !! l) as [lastRow|] eqn:Hl; [|exact Hstay].
  destruct (bool_decide (top lastRow < _)); [|exact Hstay].
  destruct (bool_decide (top lastRow + rowHeightZ w < currentPosition w)).
  - (* _reposition *)
    pose proof (frame__reposition w) as Hf. pose proof (steady__reposition w) as Hs.
    destruct (_reposition w) as [[] w1|msg w1|]; [| |done].
    + specialize (IH w1 t).
      destruct (_scroll_down fuel t w1) as [b w'|msg w'|]; [| |done];
        (destruct IH as [Hsc Hr]; split;
         [etrans; [by apply repositioned_scrolled|done]|intros ?; by apply Hr, Hs]).
    + split; [by apply repositioned_scrolled|by apply Hs].
  - (* the first row goes below the last one *)
    destruct (recycle_any w t topRow (top lastRow + rowHeightZ w)
                (_getListElement w (js_div_index (top lastRow + rowHeightZ w)
                                      (rowHeight (_config w))))
                (js_div_odd (top lastRow + rowHeightZ w) (rowHeight (_config w))) Htop)
      as (row' & Hdom & [Hrun|[msg Hrun]]);
      unfold writeRow in Hrun |- *; munfold; rewrite Hrun.
    2:{ split; [apply scrolled_rows|]. by apply (rendered_insert w t topRow). }
    destruct (_virtualList w) as [|first rest] eqn:Hvl; [done|].
    cbn.
    destruct ((rest ++ [first]) !! 0%nat) as [t'|]; [|done].
    set (w3 := set_virtualList (rest ++ [first]) _).
    assert (Hperm : rest ++ [first] ≡ₚ _virtualList w).
    { rewrite Hvl. by rewrite Permutation_app_comm. }
    assert (Hsc3 : scrolled w w3) by (by apply scrolled_rotate).
    assert (Hr3 : rendered w → rendered w3).
    { intros Hr. apply rendered_rotate; [done|]. by apply (rendered_insert w t topRow). }
    specialize (IH w3 t').
    destruct (_scroll_down fuel t' w3) as [b w'|msg w'|]; [| |done];
      (destruct IH as [Hsc Hr]; split; [by etrans|intros ?; by apply Hr, Hr3]).
Qed.

Lemma _scroll_up_steady fuel : ∀ w t b0,
  match _scroll_up fuel t b0 w with
  | Returns _ w' | Throws _ w' => scrolled w w' ∧ (rendered w → rendered w')
  | Unrepresented => True
  end.
Proof.
  induction fuel as [|fuel IH]; intros w t b0.
  { cbn. split; [reflexivity|done]. }
  assert (Hstay : scrolled w w ∧ (rendered w → rendered w)) by (split; [reflexivity|done]).
  cbn [_scroll_up]. unfold readRow. munfold.
  destruct (rows w !! b0) as [bottomRow|] eqn:Hbottom; [|exact Hstay].
  destruct (bool_decide (top bottomRow > _)); [|exact Hstay].
  destruct (rows w !! t) as [topRow|] eqn:Htop; [|exact Hstay].
  destruct (bool_decide (top topRow > 0)); [|exact Hstay].
  destruct (_virtualList w !! 0%nat) as [f|] eqn:Hfirst; [|exact Hstay].
  destruct (rows w !! f) as [firstRow|] eqn:Hf; [|exact Hstay].
  destruct (bool_decide (top firstRow - rowHeightZ w > currentPosition w)).
  - (* _reposition *)
    pose proof (frame__reposition w) as Hfr. pose proof (steady__reposition w) as Hs.
    destruct (_reposition w) as [[] w1|msg w1|]; [| |done].
    + specialize (IH w1 t b0).
      destruct (_scroll_up fuel t b0 w1) as [b w'|msg w'|]; [| |done];
        (destruct IH as [Hsc Hr]; split;
         [etrans; [by apply repositioned_scrolled|done]|intros ?; by apply Hr, Hs]).
    + split; [by apply repositioned_scrolled|by apply Hs].
  - (* the last row goes above the first one *)
    destruct (recycle_any w b0 bottomRow (top firstRow - rowHeightZ w)
                (_getListElement w (js_div_index (top firstRow - rowHeightZ w)
                                      (rowHeight (_config w))))
                (js_div_odd (top firstRow - rowHeightZ w) (rowHeight (_config w))) Hbottom)
      as (row' & Hdom & [Hrun|[msg Hrun]]);
      unfold writeRow in Hrun |- *; munfold; rewrite Hrun.
    2:{ split; [apply scrolled_rows|]. by apply (rendered_insert w b0 bottomRow). }
    destruct (last (_virtualList w)) as [popped|] eqn:Hlast; [|done].
    cbn.
    set (rotated := popped :: take (length (_virtualList w) - 1) (_virtualList w)).
    destruct (last rotated) as [b1|]; [|done].
    set (w3 := set_virtualList rotated _).
    assert (Hperm : rotated ≡ₚ _virtualList w).
    { subst rotated.
      destruct (_virtualList w) as [|x l] using rev_ind; [done|].
      rewrite last_snoc in Hlast. injection Hlast as ->.
      rewrite length_app. cbn. replace (length l + 1 - 1)%nat with (length l) by lia.
      rewrite take_app_length. by rewrite Permutation_app_comm. }
    assert (Hsc3 : scrolled w w3) by (by apply scrolled_rotate).
    assert (Hr3 : rendered w → rendered w3).
    { intros Hr. apply rendered_rotate; [done|]. by apply (rendered_insert w b0 bottomRow). }
    specialize (IH w3 b0 b1).
    destruct (_scroll_up fuel b0 b1 w3) as [b w'|msg w'|]; [| |done];
      (destruct IH as [Hsc Hr]; split; [by etrans|intros ?; by apply Hr, Hr3]).
Qed.

Lemma scrolled_steady w w' :
  scrolled w w' → (rendered w → rendered w') → steady w w'.
Proof. intros [Heq _] Hr. split; [done|]. by rewrite Heq. Qed.

Lemma steady__scroll_down fuel t : frame steady (_scroll_down (T := T) fuel t).
Proof.
  intros w. pose proof (_scroll_down_steady fuel w t) as Hs.
  destruct (_scroll_down fuel t w); [| |done]; destruct Hs; by apply scrolled_steady.
Qed.

Lemma steady__scroll_up fuel t b0 : frame steady (_scroll_up (T := T) fuel t b0).
Proof.
  intros w. pose proof (_scroll_up_steady fuel w t b0) as Hs.
  destruct (_scroll_up fuel t b0 w); [| |done]; destruct Hs; by apply scrolled_steady.
Qed.

#[local] Hint Resolve steady__scroll_down steady__scroll_up : steadies.

Lemma steady__scroll_all dev fuel : frame steady (_scroll_all (T := T) dev fuel).
Proof. unfold _scroll_all. steady_auto. Qed.

#[local] Hint Resolve steady__scroll_all : steadies.

Lemma steady_onScroll_all dev fuel scroll :
  frame steady (onScroll_all (T := T) dev fuel scroll).
Proof. unfold onScroll_all. steady_auto. Qed.

Lemma steady__addToLoadedEntities e : frame steady (_addToLoadedEntities e).
Proof. unfold _addToLoadedEntities. steady_auto. Qed.

Lemma steady__updateLoadedEntity e : frame steady (_updateLoadedEntity e).
Proof. unfold _updateLoadedEntity. steady_auto. Qed.

Lemma steady__deleteLoadedEntity_then id : frame steady (_deleteLoadedEntity_then (T := T) id).
Proof. unfold _deleteLoadedEntity_then. steady_auto. Qed.

#[local] Hint Resolve steady__addToLoadedEntities steady__updateLoadedEntity
  steady__deleteLoadedEntity_then : steadies.

Lemma steady_entityEventReceived_then op e : frame steady (entityEventReceived_then op e).
Proof. unfold entityEventReceived_then. steady_auto. Qed.

#[local] Hint Resolve steady_entityEventReceived_then : steadies.

Lemma steady_entityEventReceived id op : frame steady (entityEventReceived (T := T) id op).
Proof. unfold entityEventReceived, _deleteLoadedEntity. steady_auto. Qed.

Lemma steady_loadSingle_settled p result :
  frame steady (loadSingle_settled (T := T) p result).
Proof. unfold loadSingle_settled. steady_auto. Qed.

Lemma steady_loading_settled p : frame steady (loading_settled (T := T) p).
Proof. unfold loading_settled. steady_auto. Qed.

Lemma steady__init_frame : frame steady (_init_frame (T := T)).
Proof. unfold _init_frame. steady_auto. Qed.

Lemma steady_reset : frame steady (reset (T := T)).
Proof. unfold reset. steady_auto. Qed.

Lemma steady_finish : frame steady (finish (T := T)).
Proof. unfold finish. steady_auto. Qed.

Lemma steady_findRowAt rs z : frame steady (findRowAt (T := T) rs z).
Proof. induction rs; cbn [findRowAt]; steady_auto. Qed.

#[local] Hint Resolve steady_reset steady_finish steady_findRowAt : steadies.

Lemma steady_getVirtualElement : frame steady (getVirtualElement (T := T)).
Proof. unfold getVirtualElement. steady_auto. Qed.

#[local] Hint Resolve steady_getVirtualElement : steadies.

Lemma steady_move (te : TouchEvent) : frame steady (move (T := T) te).
Proof. unfold move. steady_auto. Qed.

Lemma steady_end_ (te : TouchEvent) : frame steady (end_ (T := T) te).
Proof. unfold end_. steady_auto. Qed.

Lemma steady_swipe_settled p ok : frame steady (swipe_settled (T := T) p ok).
Proof. unfold swipe_settled, redraw. steady_auto. Qed.

Lemma steady_finish_settled p : frame steady (finish_settled (T := T) p).
Proof. unfold finish_settled. steady_auto. Qed.

(** Every event but [_init] keeps the list rendered. *)
Lemma steady_dispatch ev : isInit ev = false → frame steady (dispatch (T := T) ev).
Proof.
  intros Hev. destruct ev; cbn [dispatch]; [done|..].
  - apply steady__initRow.
  - apply steady__init_frame.
  - steady_auto.
  - apply steady__loadMore_settled.
  - apply steady_onScroll.
  - apply steady_onScroll_all.
  - apply steady__elementClicked.
  - unfold redraw. steady_auto.
  - apply frame_bind; [apply _|apply steady_entityEventReceived|intros; steady_auto].
  - apply steady_loadSingle_settled.
  - apply steady_loading_settled.
  - unfold start. steady_auto.
  - apply steady_move.
  - apply steady_end_.
  - unfold cancel. steady_auto.
  - apply steady_swipe_settled.
  - apply steady_finish_settled.
Qed.

(** X21.  Once the list is rendered it stays rendered, whatever events
    follow, scrolls with the whole of [_scroll] among them, as long as
    [_init] is not run again; a redraw then returns. *)
Theorem mounted_list_stays_rendered evs : ∀ w w',
  rendered w → forallb (λ ev, negb (isInit ev)) evs = true →
  run evs w = Some w' →
  rendered w' ∧ ∃ w2, redraw w' = Returns tt w2 ∧ rendered w2.
Proof.
  assert (Hkeep : ∀ evs w w',
    rendered w → forallb (λ ev, negb (isInit ev)) evs = true →
    run evs w = Some w' → rendered w').
  { clear evs. induction evs as [|ev evs IH]; intros w w' Hr Hevs; cbn [run].
    - by intros [= <-].
    - cbn [forallb] in Hevs. apply andb_true_iff in Hevs as [Hev Hevs].
      apply negb_true_iff in Hev.
      pose proof (steady_dispatch ev Hev w) as Hd.
      destruct (dispatch ev w) as [[] w1|msg w1|]; cbn [after]; [| |done];
        intros Hrun; (apply (IH w1); [by apply Hd|done..]). }
  intros w w' Hr Hevs Hrun. pose proof (Hkeep evs w w' Hr Hevs Hrun) as Hr'.
  split; [done|]. pose proof Hr' as ([scroll Hs] & _).
  destruct (_reposition_rendered w' scroll Hs Hr') as (w2 & ? & _ & _ & ? & _).
  exists w2. done.
Qed.

Lemma xoffset_dispatch ev w :
  Z.abs (xoffset w) ≤ ActionDistance →
  match dispatch ev w with
  | Returns _ w' | Throws _ w' => Z.abs (xoffset w') ≤ ActionDistance
  | Unrepresented => True
  end.
Proof.
  intros Hx. destruct (isInit ev) eqn:Hev.
  - destruct ev; done.
  - pose proof (steady_dispatch ev Hev w) as Hd.
    destruct (dispatch ev w); [by apply Hd..|done].
Qed.

(** X22.  The horizontal offset of a swipe never leaves the action distance:
    from the constructor on, whatever events are run, it stays between -150
    and 150. *)
Theorem swipe_offset_stays_within_action_distance config mac touchTop evs w' :
  run evs (newList config mac touchTop) = Some w' →
  - ActionDistance ≤ xoffset w' ≤ ActionDistance.
Proof.
  assert (Hkeep : ∀ evs w w',
    Z.abs (xoffset w) ≤ ActionDistance → run evs w = Some w' →
    Z.abs (xoffset w') ≤ ActionDistance).
  { clear evs w'. induction evs as [|ev evs IH]; intros w w' Hx; cbn [run].
    - by intros [= <-].
    - pose proof (xoffset_dispatch ev w Hx) as Hd.
      destruct (dispatch ev w) as [[] w1|msg w1|]; cbn [after]; [| |done];
        intros Hrun; by apply (IH w1). }
  intros Hrun. apply Hkeep in Hrun; [lia|]. cbn. unfold ActionDistance. lia.
Qed.

End Steady.

(** ** The swipe *)

Section SwipeMore.
Context {T : Type} `{Entity T}.
Implicit Types (w : World T) (r : RowRef) (rs : list RowRef) (e x : T).

(** [reset] with a bound row that exists, or with none. *)
Lemma reset_total w :
  (∀ r, virtualElement w = Some r → is_Some (rows w !! r)) →
  ∃ w', reset w = Returns tt w'
        ∧ xoffset w' = 0 ∧ virtualElement w' = None
        ∧ swipes (trace w') = swipes (trace w)
        ∧ selections (trace w') = selections (trace w)
        ∧ _loadedEntities w' = _loadedEntities w
        ∧ _selectedEntities w' = _selectedEntities w
        ∧ rows w' = rows w.
Proof.
  intros Hv. unfold reset. rewrite bind_get.
  munfold. case_bool_decide; cbn; [|eexists; split; [done|]; done].
  destruct (virtualElement w) as [r|] eqn:Hr; [|eexists; split; [done|]; done].
  destruct (Hv r eq_refl) as [row Hrow]. rewrite (readRow_lookup _ _ _ Hrow).
  destruct (_ && _); cbn; (eexists; split; [done|]); cbn -[swipes selections]; [|done].
  rewrite swipes_snoc. unfold selections. rewrite filter_app. cbn.
  by rewrite !app_nil_r.
Qed.

Lemma findRowAt_spec rs z w :
  (∀ r, r ∈ rs → is_Some (rows w !! r)) →
  ∃ found, findRowAt rs z w = Returns found w
    ∧ match found with
      | Some r => r ∈ rs ∧ ∃ row, rows w !! r = Some row ∧ top row = z
      | None => ∀ r row, r ∈ rs → rows w !! r = Some row → top row ≠ z
      end.
Proof.
  induction rs as [|r rs IH]; intros Hall; cbn [findRowAt].
  - exists None. split; [done|]. intros r row Hr. by apply elem_of_nil in Hr.
  - destruct (Hall r) as [row Hrow]; [left|].
    munfold. rewrite (readRow_lookup _ _ _ Hrow).
    case_bool_decide as Htop.
    + exists (Some r). split; [done|]. split; [left|]. eauto.
    + destruct IH as (found & -> & Hfound); [intros r' Hr'; apply Hall; by right|].
      exists found. split; [done|]. destruct found as [r'|].
      * destruct Hfound as [? ?]. split; [by right|done].
      * intros r' row' [->|Hr']%elem_of_cons Hrow'; [congruence|by eapply Hfound].
Qed.

(** [getVirtualElement] with no row bound looks the row up and keeps it. *)
Lemma getVirtualElement_fresh w :
  Forall (λ r, is_Some (rows w !! r)) (_virtualList w) →
  virtualElement w = None →
  ∃ found, getVirtualElement w = Returns found (set_virtualElement found w).
Proof.
  intros Hall Hv. rewrite Forall_forall in Hall.
  unfold getVirtualElement. rewrite bind_get, Hv.
  match goal with
  | |- context [findRowAt ?rs ?z] =>
      destruct (findRowAt_spec rs z w Hall) as (found & Hrun & _)
  end.
  munfold. rewrite Hrun. by exists found.
Qed.

(** X23.  The row of a swipe is looked up once: the first row of the pool
    whose offset is the row boundary at or above the point where the touch
    started, so that the row contains that point.  It is kept until the
    swipe ends: later calls return it without looking again. *)
Theorem touched_row_is_found_once w :
  Forall (λ r, is_Some (rows w !! r)) (_virtualList w) →
  let y := currentPosition w + (startPos w).2 - touchAreaTop w in
  (virtualElement w = None →
   ∃ found, getVirtualElement w = Returns found (set_virtualElement found w)
     ∧ (∀ r, found = Some r →
          r ∈ _virtualList w
          ∧ ∃ row, rows w !! r = Some row ∧ top row ≤ y < top row + rowHeightZ w)
     ∧ (found = None →
        ∀ r row, r ∈ _virtualList w → rows w !! r = Some row →
                 ¬ (top row ≤ y < top row + rowHeightZ w ∧ (rowHeightZ w | top row))))
  ∧ (∀ r, virtualElement w = Some r → getVirtualElement w = Returns (Some r) w).
Proof.
  intros Hall y. rewrite Forall_forall in Hall.
  assert (Hrh : 0 < rowHeightZ w) by (unfold rowHeightZ; lia).
  split.
  - intros Hv. unfold getVirtualElement. rewrite bind_get, Hv.
    fold y.
    destruct (findRowAt_spec (_virtualList w) (y `div` rowHeightZ w * rowHeightZ w) w Hall)
      as (found & Hrun & Hfound).
    munfold. rewrite Hrun. exists found. split; [done|].
    pose proof (Z.div_mod y (rowHeightZ w)) as Hdm.
    pose proof (Z.mod_pos_bound y (rowHeightZ w) Hrh) as Hb.
    split.
    + intros r ->. destruct Hfound as (Hin & row & Hrow & Htop).
      split; [done|]. exists row. split; [done|]. lia.
    + intros ->. intros r row Hr Hrow [Hy [k Hk]].
      apply (Hfound r row Hr Hrow).
      assert (y `div` rowHeightZ w = k) as ->; [|done].
      symmetry. apply (Z.div_unique_pos y (rowHeightZ w) k (y - top row)); lia.
  - intros r Hv. unfold getVirtualElement. rewrite bind_get, Hv. done.
Qed.

(** X24.  [move]: a vertical displacement of more than 40 pixels gives the
    swipe up (the offset returns to 0 and the row is released, no swipe
    action is called); otherwise a horizontal displacement of more than 10
    pixels that exceeds the vertical one moves the row by the displacement,
    limited to the action distance on both sides; any other movement changes
    nothing. *)
Theorem touch_move_follows_the_finger w te :
  poolExists w →
  let dx := (getDelta w te).1 in
  let dy := (getDelta w te).2 in
  (Z.abs dy > 40 →
   ∃ w', move te w = Returns tt w'
     ∧ xoffset w' = 0 ∧ virtualElement w' = None
     ∧ swipes (trace w') = swipes (trace w))
  ∧ (Z.abs dy ≤ 40 → Z.abs dx > 10 → Z.abs dx > Z.abs dy →
     ∃ w', move te w = Returns tt w'
       ∧ xoffset w' = Z.max (- ActionDistance) (Z.min dx ActionDistance)
       ∧ trace w' = trace w
       ∧ (∀ r, virtualElement w = Some r → virtualElement w' = Some r))
  ∧ (Z.abs dy ≤ 40 → Z.abs dx ≤ 10 ∨ Z.abs dx ≤ Z.abs dy →
     move te w = Returns tt w).
Proof.
  intros [Hall Hv'] dx dy.
  assert (Hv : ∀ r, virtualElement w = Some r → is_Some (rows w !! r)).
  { intros r Hr. by rewrite Hr in Hv'. }
  split; [|split].
  - intros Hy. destruct (reset_total w Hv) as (w' & Hrun & ? & ? & ? & _).
    exists w'. unfold move. rewrite bind_get. fold dy.
    rewrite (bool_decide_eq_true_2 (Z.abs dy > 40)) by done. done.
  - intros Hy Hx Hxy. unfold move. rewrite bind_get. fold dx dy.
    rewrite (bool_decide_eq_false_2 (Z.abs dy > 40)) by lia.
    rewrite (bool_decide_eq_true_2 (Z.abs dx > 10)) by done.
    rewrite (bool_decide_eq_true_2 (Z.abs dx > Z.abs dy)) by done. cbn [andb].
    set (off := if bool_decide (dx < 0) then Z.max dx (- ActionDistance)
                else Z.min dx ActionDistance).
    assert (Hoff : off = Z.max (- ActionDistance) (Z.min dx ActionDistance)).
    { subst off. unfold ActionDistance. case_bool_decide; lia. }
    munfold. destruct (virtualElement w) as [r|] eqn:Hr.
    + unfold getVirtualElement. munfold. cbn. rewrite Hr.
      eexists. split; [done|]. cbn. split; [done|]. split; [done|]. by intros ? [= ->].
    + destruct (getVirtualElement_fresh (set_xoffset off w) Hall Hr) as (found & Hrun).
      rewrite Hrun.
      eexists. split; [done|]. cbn. split; [done|]. split; [done|]. by intros ? [=].
  - intros Hy Hx. unfold move. rewrite bind_get. fold dx dy.
    rewrite (bool_decide_eq_false_2 (Z.abs dy > 40)) by lia.
    destruct Hx as [Hx|Hx].
    + by rewrite (bool_decide_eq_false_2 (Z.abs dx > 10)) by lia.
    + rewrite (bool_decide_eq_false_2 (Z.abs dx > Z.abs dy)) by lia.
      by rewrite andb_false_r.
Qed.

(** X25.  A swipe that is committed with the row moved aside animates the
    row out of the list, to the side the offset points to, and releases the
    row.  When the animation is over the offset is 0 again.  When the swipe
    action fails afterwards the list is redrawn; nothing else is called. *)
Theorem committed_swipe_animates_and_resets w te r row x dom :
  virtualElement w = Some r → rows w !! r = Some row →
  entity row = Some x → domElement row = Some dom →
  Z.abs (getDelta w te).1 > ActionDistance →
  Z.abs (getDelta w te).2 < offsetHeight dom →
  xoffset w ≠ 0 → rendered w →
  let p := length (promises w) in
  ∃ w1 w2 w3,
    end_ te w = Returns tt w1
    ∧ trace w1
      = trace w
        ++ [if bool_decide ((getDelta w te).1 < 0) then SwipeLeft x p else SwipeRight x p;
            AnimateFinish r (xoffset w)
              (if bool_decide (xoffset w < 0) then - _width w else _width w)]
    ∧ virtualElement w1 = None
    ∧ finish_settled (S p) w1 = Returns tt w2
    ∧ xoffset w2 = 0
    ∧ swipe_settled p false w2 = Returns tt w3
    ∧ promises w3 = promises w ++ [Fulfilled; Fulfilled]
    ∧ rendered w3
    ∧ trace w3 = trace w1.
Proof.
  intros Hv Hr He Hd Hx Hy Hoff Hrend p.
  assert (Hend : end_ te w
    = Returns tt
        (set_virtualElement None
           (set_promises (promises w ++ [Pending K_swipe; Pending (K_swipeFinish r)])
              (set_trace
                 (trace w
                  ++ [if bool_decide ((getDelta w te).1 < 0) then SwipeLeft x p
                      else SwipeRight x p;
                      AnimateFinish r (xoffset w)
                        (if bool_decide (xoffset w < 0) then - _width w else _width w)])
                 w)))).
  { unfold end_. rewrite bind_get, Hv.
    munfold. rewrite (readRow_lookup _ _ _ Hr), He. cbv zeta.
    rewrite (bool_decide_eq_true_2 _ Hx), Hd, (bool_decide_eq_true_2 _ Hy).
    unfold finish. unfold newPromise. munfold. cbn -[getDelta]. rewrite Hv.
    rewrite (bool_decide_eq_true_2 (xoffset w ≠ 0)) by done. cbn -[getDelta].
    rewrite <- !app_assoc. cbn -[getDelta]. by destruct w. }
  set (w1 := set_virtualElement None _) in Hend.
  assert (Hfin : finish_settled (S p) w1
    = Returns tt (set_promises (<[S p := Fulfilled]> (promises w1)) (set_xoffset 0 w1))).
  { unfold finish_settled. munfold. subst w1.
    cbn [promises set_virtualElement set_promises set_trace].
    match goal with
    | |- context [?l !! ?i] =>
        assert (Hl1 : l !! i = Some (Pending (K_swipeFinish r)))
    end.
    { rewrite lookup_app_r by (unfold p; lia).
      replace (S p - length (promises w))%nat with 1%nat by (unfold p; lia). done. }
    unfold PromiseRef in *. rewrite Hl1. done. }
  set (w2 := set_promises _ (set_xoffset 0 w1)) in Hfin.
  assert (Hr2 : rendered w2) by exact Hrend.
  pose proof Hr2 as ([scroll Hs] & _).
  destruct (_reposition_rendered w2 scroll Hs Hr2) as (w2' & Hrep & Hrepd & _ & Hr2' & _).
  exists w1, w2, (set_promises (<[p := Fulfilled]> (promises w2')) w2').
  split; [done|]. split; [done|]. split; [done|]. split; [done|]. split; [done|].
  assert (Hp2 : promises w2 = promises w ++ [Pending K_swipe; Fulfilled]).
  { subst w2 w1. cbn.
    replace (S p) with (length (promises w) + 1)%nat by (unfold p; lia).
    by rewrite insert_app_r. }
  split.
  { unfold swipe_settled. munfold. rewrite Hp2.
    rewrite (lookup_app_r (promises w)) by (unfold p; lia).
    replace (p - length (promises w))%nat with 0%nat by (unfold p; lia). cbn.
    unfold redraw. rewrite Hrep. unfold settle. munfold. done. }
  assert (Hp2' : promises w2' = promises w2) by (by rewrite Hrepd).
  split.
  { cbn. rewrite Hp2', Hp2.
    replace p with (length (promises w) + 0)%nat by (unfold p; lia).
    by rewrite insert_app_r. }
  split; [exact Hr2'|].
  cbn. by rewrite Hrepd.
Qed.

End SwipeMore.

(** ** The comparators by identifier *)

Section Comparators.
Context {T : Type} `{Entity T}.
Implicit Types (a b c : T).

(** X26.  For a strict total order [firstBiggerThanSecond] on identifiers,
    [sortCompareById] and [sortCompareByReverseId] are total preorders, each
    the reverse of the other; they return 0 for the entities with the same
    identifier and for no others, and swapping the arguments negates the
    result. *)
Theorem id_comparators_are_consistent (bigger : Id → Id → bool) :
  strictTotal bigger →
  consistent (sortCompareById (T := T) bigger)
  ∧ consistent (sortCompareByReverseId (T := T) bigger)
  ∧ (∀ a b, sortCompareByReverseId bigger a b = - sortCompareById bigger a b)
  ∧ (∀ a b, sortCompareById bigger a b = 0 ↔ elementId a = elementId b)
  ∧ (∀ a b, sortCompareById bigger a b = - sortCompareById bigger b a).
Proof.
  intros (Hirr & Htot & Htrans).
  assert (Hasym : ∀ i j, bigger i j = true → bigger j i = false).
  { intros i j Hij. destruct (bigger j i) eqn:Hji; [|done].
    pose proof (Htrans i j i Hij Hji). by rewrite Hirr in *. }
  assert (Hcases : ∀ a b,
    (elementId a = elementId b ∧ sortCompareById bigger a b = 0
     ∧ sortCompareByReverseId bigger a b = 0)
    ∨ (bigger (elementId a) (elementId b) = true
       ∧ bigger (elementId b) (elementId a) = false
       ∧ elementId a ≠ elementId b ∧ sortCompareById bigger a b = 1
       ∧ sortCompareByReverseId bigger a b = -1)
    ∨ (bigger (elementId b) (elementId a) = true
       ∧ bigger (elementId a) (elementId b) = false
       ∧ elementId a ≠ elementId b ∧ sortCompareById bigger a b = -1
       ∧ sortCompareByReverseId bigger a b = 1)).
  { intros a b. unfold sortCompareById, sortCompareByReverseId.
    destruct (decide (elementId a = elementId b)) as [Heq|Hne].
    - left. by rewrite !bool_decide_eq_true_2.
    - right. rewrite !bool_decide_eq_false_2 by done.
      destruct (Htot _ _ Hne) as [Hab|Hba].
      + left. rewrite Hab. by rewrite (Hasym _ _ Hab).
      + right. rewrite (Hasym _ _ Hba). done. }
  assert (Hrev : ∀ a b, sortCompareByReverseId bigger a b = - sortCompareById bigger a b).
  { intros a b.
    destruct (Hcases a b) as [(_ & -> & ->)|[(_ & _ & _ & -> & ->)|(_ & _ & _ & -> & ->)]];
      done. }
  assert (Hle : ∀ a b, sortCompareById bigger a b ≤ 0
                       ↔ bigger (elementId a) (elementId b) = false).
  { intros a b.
    destruct (Hcases a b) as [(Heq & -> & _)|[(Hab & _ & _ & -> & _)|(_ & Hab & _ & -> & _)]].
    - rewrite Heq, Hirr. split; [done|lia].
    - rewrite Hab. split; [lia|done].
    - rewrite Hab. split; [done|lia]. }
  assert (Hswap : ∀ a b, sortCompareById bigger a b = - sortCompareById bigger b a).
  { intros a b.
    destruct (Hcases a b) as [(Eab & -> & _)|[(Bab & Bba & Nab & -> & _)|(Bba & Bab & Nab & -> & _)]];
      destruct (Hcases b a) as [(Eba & -> & _)|[(Bba' & Bab' & Nba & -> & _)|(Bab' & Bba' & Nba & -> & _)]];
      first [done | congruence]. }
  assert (Hc1 : consistent (sortCompareById (T := T) bigger)).
  { split.
    - intros a b. pose proof (Hswap a b). lia.
    - intros a b c. rewrite !Hle. intros Hab Hbc.
      destruct (bigger (elementId a) (elementId c)) eqn:Hac; [|done].
      destruct (decide (elementId a = elementId b)) as [Heq|Hne].
      + rewrite Heq in Hac. congruence.
      + destruct (Htot _ _ Hne) as [?|Hba]; [congruence|].
        pose proof (Htrans _ _ _ Hba Hac). congruence. }
  split; [done|]. split.
  { destruct Hc1 as [Ht Htr]. split.
    - intros a b. rewrite !Hrev. pose proof (Hswap a b). lia.
    - intros a b c. rewrite !Hrev. intros Hab Hbc.
      pose proof (Htr c b a). pose proof (Hswap a b). pose proof (Hswap b c).
      pose proof (Hswap a c). lia. }
  split; [done|]. split; [|done].
  intros a b.
  destruct (Hcases a b) as [(? & -> & _)|[(_ & _ & ? & -> & _)|(_ & _ & ? & -> & _)]];
    split; done.
Qed.

End Comparators.

(** ** Scrolling *)

Section ScrollProofs.
Context {T : Type} `{Entity T}.
Implicit Types (w : World T) (r t : RowRef) (rs : list RowRef) (a : Z).

Lemma shows_same w1 w2 (row : VirtualRow T) :
  _loadedEntities w2 = _loadedEntities w1 → _config w2 = _config w1 →
  _selectedEntities w2 = _selectedEntities w1 →
  shows w1 row → shows w2 row.
Proof.
  intros Hl Hc Hs. unfold shows, _getListElement, isEntitySelected.
  by rewrite Hl, Hc, Hs.
Qed.

Lemma windowAt_scrolled_rows w w' a :
  scrolled w w' → windowAt w a →
  _virtualList w' = _virtualList w → rows w' = rows w → windowAt w' a.
Proof.
  intros [Heq _] Hw Hvl Hrows i r Hi. rewrite Hvl in Hi.
  destruct (Hw i r Hi) as (row & Hrow & Htop & Hshows).
  exists row. rewrite Hrows. split; [done|]. split.
  - rewrite Htop. by rewrite Heq.
  - eapply shows_same; [..|exact Hshows]; by rewrite Heq.
Qed.

(** [_reposition] on a rendered list leaves a window from [startPosition]. *)
Lemma reposition_window w :
  rendered w →
  ∃ scroll w', scrollTop w = Some scroll
    ∧ _reposition w = Returns tt w'
    ∧ repositioned w w' ∧ rendered w'
    ∧ currentPosition w' = scroll
    ∧ windowAt w' (startPosition w scroll).
Proof.
  intros Hr. pose proof Hr as ([scroll Hs] & Hnd & Hrows).
  pose proof (proj1 (rendered_rows _ _) Hrows) as Hrows'.
  destruct (_reposition_rendered w scroll Hs Hr) as (w' & Hrun & Hrep & Hcur & Hr' & _).
  exists scroll, w'. split; [done|]. split; [done|]. split; [done|]. split; [done|].
  split; [done|].
  pose proof Hrun as Hrun'. unfold _reposition in Hrun'. munfold. rewrite Hs in Hrun'.
  destruct (_reposition_rows_shows (_virtualList w) (startPosition w scroll)
              (set_currentPosition scroll w) Hnd)
    as (w1 & Hrun1 & Heq & Hin & Hout); [done|].
  rewrite Hrun1 in Hrun'. injection Hrun' as <-.
  intros i r Hi. cbn in Hi. rewrite Heq in Hi. cbn in Hi.
  destruct (Hin i r Hi) as (row & Hrow & Htop & Hshows).
  exists row. split; [done|]. split; [rewrite Htop; by rewrite Heq|].
  eapply shows_same; [..|exact Hshows]; by rewrite Heq.
Qed.

Lemma windowAt_rows w a r :
  windowAt w a → r ∈ _virtualList w →
  ∃ row dom, rows w !! r = Some row ∧ domElement row = Some dom.
Proof.
  intros Hw [i Hi]%list_elem_of_lookup.
  destruct (Hw i r Hi) as (row & Hrow & _ & _ & (dom & Hdom & _) & _). eauto.
Qed.

(** A row of the pool is moved to [next] and bound to the entity there. *)
Lemma recycle_row w r row dom next :
  rows w !! r = Some row → domElement row = Some dom →
  ∃ row',
    (writeRow r {| top := next; entity := entity row; domElement := domElement row;
                   updated := updated row |}
     ≫= λ _, _updateVirtualRow r
               (_getListElement w (js_div_index next (rowHeight (_config w))))
               (js_div_odd next (rowHeight (_config w)))) w
    = Returns tt (set_rows (<[r := row']> (rows w)) w)
    ∧ top row' = next ∧ shows w row'.
Proof.
  intros Hrow Hdom. unfold writeRow at 1. munfold.
  assert (Hlt : (r < length (rows w))%nat) by (by eapply lookup_lt_Some).
  erewrite (_updateVirtualRow_full _ r _ dom).
  2:{ cbn. by apply list_lookup_insert_eq. }
  2:{ cbn. exact Hdom. }
  cbn. rewrite list_insert_insert_eq.
  eexists. split; [done|].
  cbn. split; [done|]. split; [done|]. split; [eauto|].
  intros x Hx. cbn in Hx. by rewrite Hx.
Qed.

Lemma windowAt_last w a (n : nat) l :
  windowAt w a → length (_virtualList w) = S n → last (_virtualList w) = Some l →
  ∃ row, rows w !! l = Some row ∧ top row = a + Z.of_nat n * rowHeightZ w.
Proof.
  intros Hw Hn Hl. rewrite last_lookup, Hn in Hl. cbn in Hl.
  destruct (Hw n l Hl) as (row & ? & ? & _). eauto.
Qed.

(** The first row goes below the last one. *)
Lemma recycle_down w a first rest row' :
  rendered w → windowAt w a → _virtualList w = first :: rest →
  top row' = a + Z.of_nat (length (_virtualList w)) * rowHeightZ w → shows w row' →
  let w' := set_virtualList (rest ++ [first]) (set_rows (<[first := row']> (rows w)) w) in
  rendered w' ∧ windowAt w' (a + rowHeightZ w) ∧ scrolled w w'.
Proof.
  intros (Hs & Hnd & Hrows) Hw Hvl Htop Hshows w'. subst w'.
  rewrite Hvl in Hnd. apply NoDup_cons in Hnd as [Hfirst Hnd].
  assert (Hlt : (first < length (rows w))%nat).
  { destruct (Hw 0%nat first) as (row & Hrow & _); [by rewrite Hvl|].
    by eapply lookup_lt_Some. }
  split; [|split].
  - split; [done|]. split.
    + cbn. apply NoDup_app. split; [done|]. split; [|apply NoDup_singleton].
      intros x Hx ->%list_elem_of_singleton. done.
    + cbn. apply Forall_forall. intros r Hr.
      destruct Hshows as (_ & (dom & Hdom & _) & _).
      destruct (decide (r = first)) as [->|Hne].
      * rewrite list_lookup_insert_eq by done. cbn. by rewrite Hdom.
      * rewrite list_lookup_insert_ne by done.
        rewrite Forall_forall in Hrows. apply Hrows. rewrite Hvl.
        apply elem_of_app in Hr as [Hr|Hr%list_elem_of_singleton]; [by right|done].
  - intros i r Hi. cbn in Hi. cbn [rows set_virtualList set_rows].
    rewrite Hvl in Htop. cbn [length] in Htop.
    destruct (decide (i < length rest)%nat) as [Hi'|Hi'].
    + rewrite lookup_app_l in Hi by done.
      destruct (Hw (S i) r) as (row & Hrow & Hrtop & Hrshows); [by rewrite Hvl|].
      assert (r ≠ first).
      { intros ->. apply Hfirst. by eapply list_elem_of_lookup_2. }
      exists row. rewrite list_lookup_insert_ne by done. split; [done|].
      split; [|done]. rewrite Hrtop. unfold rowHeightZ. cbn. lia.
    + rewrite lookup_app_r in Hi by lia.
      apply list_lookup_singleton_Some in Hi as [Hi ->].
      assert (i = length rest) as -> by lia.
      exists row'. rewrite list_lookup_insert_eq by done. split; [done|].
      split; [|done]. rewrite Htop. unfold rowHeightZ. cbn [_config set_rows set_virtualList].
      lia.
  - split; [by destruct w|]. cbn. rewrite Hvl.
    by rewrite Permutation_app_comm.
Qed.

(** The last row goes above the first one. *)
Lemma recycle_up w a popped row' :
  rendered w → windowAt w a → last (_virtualList w) = Some popped →
  top row' = a - rowHeightZ w → shows w row' →
  let w' := set_virtualList (popped :: take (length (_virtualList w) - 1) (_virtualList w))
              (set_rows (<[popped := row']> (rows w)) w) in
  rendered w' ∧ windowAt w' (a - rowHeightZ w) ∧ scrolled w w'.
Proof.
  intros (Hs & Hnd & Hrows) Hw Hlast Htop Hshows w'. subst w'.
  assert (Hsplit : _virtualList w
                   = take (length (_virtualList w) - 1) (_virtualList w) ++ [popped]).
  { destruct (_virtualList w) as [|x l] using rev_ind; [done|].
    rewrite last_snoc in Hlast. injection Hlast as ->.
    rewrite length_app. cbn. replace (length l + 1 - 1)%nat with (length l) by lia.
    by rewrite take_app_length. }
  set (front := take (length (_virtualList w) - 1) (_virtualList w)) in *.
  assert (Hperm : popped :: front ≡ₚ _virtualList w).
  { rewrite Hsplit. by rewrite Permutation_app_comm. }
  assert (Hnd' : NoDup (popped :: front)) by (by rewrite Hperm).
  pose proof Hnd' as [Hpopped Hndf]%NoDup_cons.
  assert (Hlt : (popped < length (rows w))%nat).
  { rewrite Forall_forall in Hrows. destruct (Hrows popped) as [d Hd].
    - rewrite <- Hperm. left.
    - apply bind_Some in Hd as (row & Hrow & _). by eapply lookup_lt_Some. }
  split; [|split].
  - split; [done|]. split; [done|].
    cbn. apply Forall_forall. intros r Hr.
    destruct Hshows as (_ & (dom & Hdom & _) & _).
    destruct (decide (r = popped)) as [->|Hne].
    + rewrite list_lookup_insert_eq by done. cbn. by rewrite Hdom.
    + rewrite list_lookup_insert_ne by done.
      rewrite Forall_forall in Hrows. apply Hrows. by rewrite <- Hperm.
  - intros i r Hi. cbn in Hi. cbn [rows set_virtualList set_rows].
    destruct i as [|i]; cbn in Hi.
    + injection Hi as <-. exists row'. rewrite list_lookup_insert_eq by done.
      split; [done|]. split; [|done]. rewrite Htop. unfold rowHeightZ. cbn. lia.
    + assert (Hi' : _virtualList w !! i = Some r).
      { rewrite Hsplit. rewrite lookup_app_l; [done|]. by eapply lookup_lt_Some. }
      destruct (Hw i r Hi') as (row & Hrow & Hrtop & Hrshows).
      assert (r ≠ popped).
      { intros ->. apply Hpopped. by eapply list_elem_of_lookup_2. }
      exists row. rewrite list_lookup_insert_ne by done. split; [done|].
      split; [|done]. rewrite Hrtop. unfold rowHeightZ. cbn. lia.
  - split; [by destruct w|]. done.
Qed.

End ScrollProofs.

Section ScrollLoops.
Context {T : Type} `{Entity T}.
Implicit Types (w : World T) (r t : RowRef) (rs : list RowRef) (a : Z).

Lemma rem_lt (x : Z) (p : positive) : - Z.pos p < Z.rem x (Z.pos p) < Z.pos p.
Proof. pose proof (Z.rem_bound_abs x (Z.pos p)). lia. Qed.

Lemma poolFits_scrolled w w' : scrolled w w' → poolFits w → poolFits w'.
Proof.
  intros [Heq Hperm] Hfit. unfold poolFits in *. rewrite Hperm.
  rewrite Heq. exact Hfit.
Qed.

(** After [_reposition] the loop for scrolling down has nothing to do. *)
Lemma _scroll_down_settled fuel w t :
  windowAt w (startPosition w (currentPosition w)) → poolFits w →
  _virtualList w !! 0%nat = Some t →
  _scroll_down (S fuel) t w = Returns true w.
Proof.
  intros Hw Hfit Ht.
  destruct (Hw 0%nat t Ht) as (row0 & Hrow0 & Htop0 & _).
  pose proof (rem_lt (currentPosition w) (rowHeight (_config w))) as Hrem.
  cbn [_scroll_down]. munfold. rewrite (readRow_lookup _ _ _ Hrow0).
  case_bool_decide as Hc1; [|done].
  destruct (_virtualList w) as [|first rest] eqn:Hvl; [done|].
  destruct (last (first :: rest)) as [l|] eqn:Hlast.
  2:{ rewrite last_lookup in Hlast. cbn in Hlast.
      apply lookup_ge_None in Hlast. cbn in Hlast. lia. }
  assert (Hl : _virtualList w !! length rest = Some l).
  { rewrite Hvl. by rewrite last_lookup in Hlast. }
  destruct (Hw (length rest) l Hl) as (lrow & Hlrow & Hltop & _).
  rewrite (readRow_lookup _ _ _ Hlrow).
  rewrite bool_decide_eq_false_2; [done|].
  unfold poolFits in Hfit. rewrite Hvl in Hfit. cbn [length] in Hfit.
  rewrite Hltop, Htop0 in *. revert Hc1.
  unfold startPosition, rowHeightZ in *. repeat case_bool_decide; nia.
Qed.

Lemma _scroll_up_settled fuel w t b0 :
  windowAt w (startPosition w (currentPosition w)) → poolFits w →
  _virtualList w !! 0%nat = Some t → last (_virtualList w) = Some b0 →
  _scroll_up (S fuel) t b0 w = Returns true w.
Proof.
  intros Hw Hfit Ht Hlast.
  destruct (Hw 0%nat t Ht) as (row0 & Hrow0 & Htop0 & _).
  pose proof (rem_lt (currentPosition w) (rowHeight (_config w))) as Hrem.
  destruct (_virtualList w) as [|first rest] eqn:Hvl; [done|].
  assert (Hl : _virtualList w !! length rest = Some b0).
  { rewrite Hvl. by rewrite last_lookup in Hlast. }
  destruct (Hw (length rest) b0 Hl) as (lrow & Hlrow & Hltop & _).
  cbn [_scroll_up]. munfold. rewrite (readRow_lookup _ _ _ Hlrow).
  case_bool_decide as Hc1; [|done].
  rewrite (readRow_lookup _ _ _ Hrow0).
  rewrite bool_decide_eq_false_2; [done|].
  unfold poolFits in Hfit. rewrite Hvl in Hfit. cbn [length] in Hfit.
  rewrite Hltop, Htop0 in *. revert Hc1.
  unfold startPosition, rowHeightZ in *. repeat case_bool_decide; nia.
Qed.

Lemma _scroll_down_spec fuel : ∀ w t a,
  rendered w → windowAt w a → _virtualList w !! 0%nat = Some t →
  ∃ b w' a', _scroll_down fuel t w = Returns b w'
    ∧ rendered w' ∧ windowAt w' a' ∧ scrolled w w'
    ∧ (poolFits w → (fuelDown w a ≤ fuel)%nat → b = true).
Proof.
  induction fuel as [|fuel IH]; intros w t a Hr Hw Ht.
  { exists false, w, a. split; [done|]. split; [done|]. split; [done|].
    split; [reflexivity|]. unfold fuelDown. intros _ ?. lia. }
  destruct (Hw 0%nat t Ht) as (row0 & Hrow0 & Htop0 & Hshows0).
  destruct Hshows0 as (_ & (dom0 & Hdom0 & _) & _).
  assert (Hdone : ∃ b w' a', Returns true w = Returns b w'
            ∧ rendered w' ∧ windowAt w' a' ∧ scrolled w w'
            ∧ (poolFits w → (fuelDown w a ≤ S fuel)%nat → b = true)).
  { exists true, w, a. split; [done|]. split; [done|]. split; [done|].
    split; [reflexivity|done]. }
  cbn [_scroll_down]. munfold. rewrite (readRow_lookup _ _ _ Hrow0).
  case_bool_decide as Hc1; [|exact Hdone].
  destruct (_virtualList w) as [|first rest] eqn:Hvl; [done|].
  injection Ht as ->.
  destruct (last (t :: rest)) as [l|] eqn:Hlast.
  2:{ rewrite last_lookup in Hlast. cbn in Hlast.
      apply lookup_ge_None in Hlast. cbn in Hlast. lia. }
  assert (Hl : _virtualList w !! length rest = Some l).
  { rewrite Hvl. by rewrite last_lookup in Hlast. }
  destruct (Hw (length rest) l Hl) as (lrow & Hlrow & Hltop & _).
  rewrite (readRow_lookup _ _ _ Hlrow).
  case_bool_decide as Hc2; [|exact Hdone].
  case_bool_decide as Hc3.
  - (* _reposition *)
    destruct (reposition_window w Hr) as (scroll & w1 & Hs & Hrun & Hrep & Hr1 & Hcur & Hw1).
    rewrite Hrun.
    assert (Hvl1 : _virtualList w1 = t :: rest) by (by rewrite Hrep).
    destruct (IH w1 t (startPosition w scroll) Hr1 Hw1) as (b & w' & a' & Hrun' & Hr' & Hw' & Hsc & Hb).
    { by rewrite Hvl1. }
    exists b, w', a'. split; [done|]. split; [done|]. split; [done|].
    pose proof (repositioned_scrolled w w1 Hrep) as Hsc1.
    split; [by etrans|].
    intros Hfit Hfuel.
    assert (fuel ≠ 0%nat) by (unfold fuelDown in Hfuel; lia).
    destruct fuel as [|fuel']; [done|].
    rewrite (_scroll_down_settled fuel' w1 t) in Hrun'.
    + by injection Hrun' as <- _.
    + rewrite Hcur. by rewrite (startPosition_repositioned w w1).
    + by apply (poolFits_scrolled w w1).
    + by rewrite Hvl1.
  - (* the first row goes below the last one *)
    destruct (recycle_row w t row0 dom0 (top lrow + rowHeightZ w) Hrow0 Hdom0)
      as (row' & Hrun & Htop' & Hshows').
    unfold writeRow in Hrun |- *. munfold. rewrite Hrun.
    destruct (recycle_down w a t rest row' Hr Hw Hvl) as (Hr3 & Hw3 & Hsc3).
    { rewrite Htop', Hltop, Hvl. cbn [length]. lia. }
    { done. }
    cbn.
    set (w3 := set_virtualList (rest ++ [t]) _) in *.
    destruct ((rest ++ [t]) !! 0%nat) as [t'|] eqn:Ht'.
    2:{ destruct rest; done. }
    destruct (IH w3 t' (a + rowHeightZ w) Hr3 Hw3) as (b & w' & a' & Hrun' & Hr' & Hw' & Hsc & Hb).
    { done. }
    exists b, w', a'. split; [done|]. split; [done|]. split; [done|].
    split; [by etrans|].
    intros Hfit Hfuel. apply Hb; [by apply (poolFits_scrolled w w3)|].
    revert Hfuel. unfold fuelDown. subst w3. cbn. rewrite Hvl.
    rewrite length_app. cbn [length].
    rewrite Hltop in Hc2. unfold rowHeightZ in *. cbn in *. lia.
Qed.

Lemma _scroll_up_spec fuel : ∀ w t b0 a,
  rendered w → windowAt w a →
  _virtualList w !! 0%nat = Some t → last (_virtualList w) = Some b0 →
  ∃ b w' a', _scroll_up fuel t b0 w = Returns b w'
    ∧ rendered w' ∧ windowAt w' a' ∧ scrolled w w'
    ∧ (poolFits w → (Z.to_nat a + 2 ≤ fuel)%nat → b = true).
Proof.
  induction fuel as [|fuel IH]; intros w t b0 a Hr Hw Ht Hlast.
  { exists false, w, a. split; [done|]. split; [done|]. split; [done|].
    split; [reflexivity|]. intros _ ?. lia. }
  destruct (Hw 0%nat t Ht) as (row0 & Hrow0 & Htop0 & _).
  assert (Hdone : ∃ b w' a', Returns true w = Returns b w'
            ∧ rendered w' ∧ windowAt w' a' ∧ scrolled w w'
            ∧ (poolFits w → (Z.to_nat a + 2 ≤ S fuel)%nat → b = true)).
  { exists true, w, a. split; [done|]. split; [done|]. split; [done|].
    split; [reflexivity|done]. }
  assert (Hl : _virtualList w !! pred (length (_virtualList w)) = Some b0).
  { by rewrite <- last_lookup. }
  destruct (Hw _ b0 Hl) as (lrow & Hlrow & Hltop & Hlshows).
  destruct Hlshows as (_ & (ldom & Hldom & _) & _).
  cbn [_scroll_up]. munfold. rewrite (readRow_lookup _ _ _ Hlrow).
  case_bool_decide as Hc1; [|exact Hdone].
  rewrite (readRow_lookup _ _ _ Hrow0).
  case_bool_decide as Hc2; [|exact Hdone].
  rewrite Ht. rewrite (readRow_lookup _ _ _ Hrow0).
  case_bool_decide as Hc3.
  - (* _reposition *)
    destruct (reposition_window w Hr) as (scroll & w1 & Hs & Hrun & Hrep & Hr1 & Hcur & Hw1).
    rewrite Hrun.
    assert (Hvl1 : _virtualList w1 = _virtualList w) by (by rewrite Hrep).
    destruct (IH w1 t b0 (startPosition w scroll) Hr1 Hw1)
      as (b & w' & a' & Hrun' & Hr' & Hw' & Hsc & Hb).
    { by rewrite Hvl1. }
    { by rewrite Hvl1. }
    exists b, w', a'. split; [done|]. split; [done|]. split; [done|].
    pose proof (repositioned_scrolled w w1 Hrep) as Hsc1.
    split; [by etrans|].
    intros Hfit Hfuel.
    destruct fuel as [|fuel']; [lia|].
    rewrite (_scroll_up_settled fuel' w1 t b0) in Hrun'.
    + by injection Hrun' as <- _.
    + rewrite Hcur. by rewrite (startPosition_repositioned w w1).
    + by apply (poolFits_scrolled w w1).
    + by rewrite Hvl1.
    + by rewrite Hvl1.
  - (* the last row goes above the first one *)
    destruct (recycle_row w b0 lrow ldom (top row0 - rowHeightZ w) Hlrow Hldom)
      as (row' & Hrun & Htop' & Hshows').
    unfold writeRow in Hrun |- *. munfold. rewrite Hrun.
    destruct (recycle_up w a b0 row' Hr Hw Hlast) as (Hr3 & Hw3 & Hsc3).
    { rewrite Htop', Htop0. lia. }
    { done. }
    cbn. rewrite Hlast. cbn.
    set (rotated := b0 :: take (length (_virtualList w) - 1) (_virtualList w)) in *.
    set (w3 := set_virtualList rotated _) in *.
    destruct (last rotated) as [b1|] eqn:Hb1.
    2:{ subst rotated. rewrite last_lookup in Hb1. cbn in Hb1.
        apply lookup_ge_None in Hb1. cbn in Hb1. lia. }
    destruct (IH w3 b0 b1 (a - rowHeightZ w) Hr3 Hw3)
      as (b & w' & a' & Hrun' & Hr' & Hw' & Hsc & Hb).
    { done. }
    { done. }
    exists b, w', a'. split; [done|]. split; [done|]. split; [done|].
    split; [by etrans|].
    intros Hfit Hfuel. apply Hb; [by apply (poolFits_scrolled w w3)|].
    rewrite Htop0 in Hc2. unfold rowHeightZ in *. cbn in *. lia.
Qed.

End ScrollLoops.

Section ScrollAll.
Context {T : Type} `{Entity T}.
Implicit Types (w : World T) (r t : RowRef) (rs : list RowRef) (a : Z).

Lemma windowAt_same_rows w w' a :
  rows w' = rows w → _virtualList w' = _virtualList w → _config w' = _config w →
  _loadedEntities w' = _loadedEntities w → _selectedEntities w' = _selectedEntities w →
  windowAt w a → windowAt w' a.
Proof.
  intros Hrows Hvl Hc Hl Hs Hw i r Hi. rewrite Hvl in Hi.
  destruct (Hw i r Hi) as (row & Hrow & Htop & Hshows).
  exists row. rewrite Hrows. split; [done|]. split.
  - rewrite Htop. unfold rowHeightZ. by rewrite Hc.
  - by eapply shows_same.
Qed.

(** X27.  [_scroll] on a rendered list whose pool is a window on the loaded
    entities: it returns, and the pool is again a window, with the same rows
    in an order that may be rotated, each row showing the entity of its
    offset.  [lastPosition] becomes the current position, the store and the
    selection are untouched, and [fetch] is called at most once.  When the
    pool is as high as the visible part and the two buffers, the loops that
    recycle rows end: with fuel for the rows between the pool and the end of
    the list, or between the top of the list and the pool, and two more, the
    loop is not cut short. *)
Theorem scroll_keeps_the_window w isDesktopDevice fuel a :
  rendered w → windowAt w a → _virtualList w ≠ [] →
  ∃ b w' a',
    _scroll_all isDesktopDevice fuel w = Returns b w'
    ∧ rendered w' ∧ windowAt w' a'
    ∧ _virtualList w' ≡ₚ _virtualList w
    ∧ lastPosition w' = currentPosition w
    ∧ _loadedEntities w' = _loadedEntities w
    ∧ _selectedEntities w' = _selectedEntities w
    ∧ (trace w' = trace w
       ∨ ∃ startId p, trace w' = trace w ++ [Fetch startId PageSize p])
    ∧ (poolFits w → (fuelDown w a `max` (Z.to_nat a + 2) ≤ fuel)%nat → b = true).
Proof.
  intros Hr Hw Hne.
  destruct (_virtualList w) as [|t rest] eqn:Hvl; [done|]. clear Hne.
  destruct (last (t :: rest)) as [b0|] eqn:Hlast.
  2:{ rewrite last_lookup in Hlast. cbn in Hlast.
      apply lookup_ge_None in Hlast. cbn in Hlast. lia. }
  (* the decision on loading *)
  assert (Hload : ∀ c : bool, ∃ w0,
    (if c then _loadMore ≫= λ _, mret tt else mret tt) w = Returns tt w0
    ∧ w0 = set_loading (_loading w0) (set_trace (trace w0) (set_promises (promises w0) w))
    ∧ (trace w0 = trace w
       ∨ ∃ startId p, trace w0 = trace w ++ [Fetch startId PageSize p])).
  { intros [|].
    - destruct (_loadMore_fetches w) as [startId Hrun]. munfold. rewrite Hrun.
      eexists. split; [done|]. split; [by destruct w|]. right. by eexists _, _.
    - exists w. split; [done|]. split; [by destruct w|]. by left. }
  unfold _scroll_all. rewrite bind_get. rewrite Hvl, Hlast. cbn [lookup list_lookup].
  match goal with
  | |- context [if ?c then _loadMore ≫= _ else _] =>
      destruct (Hload c) as (w0 & Hrun0 & Heq0 & Htr0)
  end.
  munfold. rewrite Hrun0.
  assert (Hr0 : rendered w0) by (rewrite Heq0; exact Hr).
  assert (Hf0 : rows w0 = rows w ∧ _virtualList w0 = _virtualList w
                ∧ _config w0 = _config w ∧ _loadedEntities w0 = _loadedEntities w
                ∧ _selectedEntities w0 = _selectedEntities w).
  { rewrite Heq0. done. }
  destruct Hf0 as (Hf1 & Hf2 & Hf3 & Hf4 & Hf5).
  assert (Hw0 : windowAt w0 a).
  { by apply (windowAt_same_rows w). }
  assert (Hvl0 : _virtualList w0 = t :: rest) by (by rewrite Hf2).
  destruct (Hw0 0%nat t) as (row0 & Hrow0 & Htop0 & _); [by rewrite Hvl0|].
  assert (Hl : _virtualList w0 !! length rest = Some b0).
  { rewrite Hvl0. by rewrite last_lookup in Hlast. }
  destruct (Hw0 _ b0 Hl) as (lrow & Hlrow & Hltop & _).
  rewrite (readRow_lookup _ _ _ Hrow0), (readRow_lookup _ _ _ Hlrow).
  set (w1 := set_lastPosition (currentPosition w) w0).
  assert (Hr1 : rendered w1) by exact Hr0.
  assert (Hw1 : windowAt w1 a).
  { apply (windowAt_same_rows w0); done. }
  assert (Hfit1 : poolFits w → poolFits w1).
  { unfold poolFits, rowHeightZ. subst w1. cbn. by rewrite Hf2, Hf3, Heq0. }
  (* what all branches establish *)
  assert (Hfinish : ∀ b w' a', rendered w' → windowAt w' a' → scrolled w1 w' →
    (poolFits w → (fuelDown w a `max` (Z.to_nat a + 2) ≤ fuel)%nat → b = true) →
    ∃ b1 w2 a2, Returns b w' = Returns b1 w2
      ∧ rendered w2 ∧ windowAt w2 a2
      ∧ _virtualList w2 ≡ₚ t :: rest
      ∧ lastPosition w2 = currentPosition w
      ∧ _loadedEntities w2 = _loadedEntities w
      ∧ _selectedEntities w2 = _selectedEntities w
      ∧ (trace w2 = trace w
         ∨ ∃ startId p, trace w2 = trace w ++ [Fetch startId PageSize p])
      ∧ (poolFits w → (fuelDown w a `max` (Z.to_nat a + 2) ≤ fuel)%nat → b1 = true)).
  { intros b w' a' Hr' Hw' [Heq Hperm] Hb. exists b, w', a'.
    split; [done|]. split; [done|]. split; [done|].
    split. { rewrite Hperm. subst w1. cbn. by rewrite Hvl0. }
    assert (Hfields : lastPosition w' = currentPosition w
                      ∧ _loadedEntities w' = _loadedEntities w0
                      ∧ _selectedEntities w' = _selectedEntities w0
                      ∧ trace w' = trace w0).
    { rewrite Heq. done. }
    destruct Hfields as (-> & -> & -> & ->).
    split; [done|]. split; [done|]. split; [done|].
    split; [exact Htr0|exact Hb]. }
  assert (Hrepos : ∃ b1 w2 a2,
    match _reposition w1 with
    | Returns _ w' => Returns true w'
    | Throws msg w' => Throws msg w'
    | Unrepresented => Unrepresented
    end = Returns b1 w2
    ∧ rendered w2 ∧ windowAt w2 a2
    ∧ _virtualList w2 ≡ₚ t :: rest
    ∧ lastPosition w2 = currentPosition w
    ∧ _loadedEntities w2 = _loadedEntities w
    ∧ _selectedEntities w2 = _selectedEntities w
    ∧ (trace w2 = trace w
       ∨ ∃ startId p, trace w2 = trace w ++ [Fetch startId PageSize p])
    ∧ (poolFits w → (fuelDown w a `max` (Z.to_nat a + 2) ≤ fuel)%nat → b1 = true)).
  { destruct (reposition_window w1 Hr1) as (scroll & w2 & _ & -> & Hrep & Hr2 & _ & Hw2).
    apply (Hfinish true w2 _ Hr2 Hw2); [by apply repositioned_scrolled|done]. }
  assert (Hstay : ∃ b1 w2 a2,
    Returns true w1 = Returns b1 w2
    ∧ rendered w2 ∧ windowAt w2 a2
    ∧ _virtualList w2 ≡ₚ t :: rest
    ∧ lastPosition w2 = currentPosition w
    ∧ _loadedEntities w2 = _loadedEntities w
    ∧ _selectedEntities w2 = _selectedEntities w
    ∧ (trace w2 = trace w
       ∨ ∃ startId p, trace w2 = trace w ++ [Fetch startId PageSize p])
    ∧ (poolFits w → (fuelDown w a `max` (Z.to_nat a + 2) ≤ fuel)%nat → b1 = true)).
  { apply (Hfinish true w1 a Hr1 Hw1); [reflexivity|done]. }
  fold w1.
  destruct (updateLater w).
  { destruct (_ || _ || _); [exact Hrepos|exact Hstay]. }
  destruct (_ && _ || _ && _).
  { destruct isDesktopDevice; [exact Hrepos|].
    apply (Hfinish true (set_updateLater true w1) a); [exact Hr1| | |done].
    - apply (windowAt_same_rows w1); done.
    - split; [by destruct w1|done]. }
  assert (Hvl1 : _virtualList w1 = t :: rest) by exact Hvl0.
  assert (Hfd : fuelDown w1 a = fuelDown w a).
  { unfold fuelDown, rowHeightZ. subst w1. cbn. by rewrite Hf2, Hf3, Hf4. }
  destruct (negb (bool_decide (currentPosition w < lastPosition w))).
  - destruct (_scroll_down_spec fuel w1 t a Hr1 Hw1)
      as (b & w' & a' & -> & Hr' & Hw' & Hsc & Hb); [by rewrite Hvl1|].
    apply (Hfinish b w' a' Hr' Hw' Hsc).
    intros Hfit Hfuel. apply Hb; [by apply Hfit1|]. rewrite Hfd. lia.
  - destruct (_scroll_up_spec fuel w1 t b0 a Hr1 Hw1)
      as (b & w' & a' & -> & Hr' & Hw' & Hsc & Hb); [by rewrite Hvl1|by rewrite Hvl1|].
    apply (Hfinish b w' a' Hr' Hw' Hsc).
    intros Hfit Hfuel. apply Hb; [by apply Hfit1|]. lia.
Qed.

End ScrollAll.

(** ** The pagination of a scroll *)

Section ScrollPagination.
Context {T : Type} `{Entity T}.
Implicit Types (w : World T) (r t : RowRef).

Global Instance samePagination_preorder : PreOrder (samePagination (T := T)).
Proof.
  split.
  - intros w. split; [reflexivity|done].
  - intros w1 w2 w3 (? & ? & ? & ?) (? & ? & ? & ?).
    split; [by etrans|]. split_and!; congruence.
Qed.

Lemma repositioned_samePagination w w' : repositioned w w' → samePagination w w'.
Proof. intros ->. split; [by apply repositioned_sameStore|done]. Qed.

Lemma samePagination__reposition : frame samePagination (_reposition (T := T)).
Proof. eapply frame_weaken; [apply repositioned_samePagination|apply frame__reposition]. Qed.

Lemma samePagination__updateVirtualRow r (oe : option T) odd :
  frame samePagination (_updateVirtualRow r oe odd).
Proof.
  eapply frame_weaken; [apply repositioned_samePagination|apply frame__updateVirtualRow].
Qed.

Lemma samePagination_writeRow r (row : VirtualRow T) :
  frame samePagination (writeRow r row).
Proof. eapply frame_weaken; [apply repositioned_samePagination|apply frame_writeRow]. Qed.

#[local] Hint Resolve samePagination__reposition samePagination__updateVirtualRow
  samePagination_writeRow : frames.

Lemma samePagination__scroll_down fuel : ∀ t,
  frame samePagination (_scroll_down (T := T) fuel t).
Proof. induction fuel as [|fuel IH]; intros t; cbn [_scroll_down]; frame_auto. Qed.

Lemma samePagination__scroll_up fuel : ∀ t b,
  frame samePagination (_scroll_up (T := T) fuel t b).
Proof. induction fuel as [|fuel IH]; intros t b; cbn [_scroll_up]; frame_auto. Qed.

#[local] Hint Resolve samePagination__scroll_down samePagination__scroll_up : frames.

Lemma bind_returns {A B} (m : M T A) (f : A → M T B) w a w2 :
  m w = Returns a w2 → (m ≫= f) w = f a w2.
Proof. intros Hm. munfold. by rewrite Hm. Qed.

(** The whole of [_scroll] does to the pagination what its first
    statements do. *)
Lemma _scroll_all_paginates w isDesktopDevice fuel :
  ∃ w0, _scroll w = Returns tt w0
    ∧ match _scroll_all isDesktopDevice fuel w with
      | Returns _ w' | Throws _ w' => samePagination w0 w'
      | Unrepresented => True
      end.
Proof.
  assert (Hload : ∀ c : bool, ∃ w2,
    (if c then _loadMore ≫= λ _, mret tt else mret tt) w = Returns tt w2).
  { intros [|]; [|by exists w].
    destruct (_loadMore_fetches w) as [startId Hrun].
    eexists. by rewrite (bind_returns _ _ _ _ _ Hrun). }
  unfold _scroll, _scroll_all. rewrite !bind_get. cbv zeta.
  match goal with
  | |- context [if ?c then _loadMore ≫= _ else _] => destruct (Hload c) as (w2 & Hrun)
  end.
  rewrite !(bind_returns _ _ _ _ _ Hrun).
  eexists. split; [reflexivity|].
  match goal with
  | |- match ?tail w2 with _ => _ end =>
      assert (Htail : frame samePagination tail)
  end.
  { frame_auto. }
  specialize (Htail w2).
  match goal with
  | |- match ?o with _ => _ end => destruct o as [b w'|msg w'|]; [| |done..]
  end.
  all: (etrans; [|exact Htail]); split; [done|done].
Qed.

(** X28.  A scroll with the whole of [_scroll] does to the pagination what
    its first statements do: the store, [_loadedCompletely], [_loading],
    the promises and the outbound calls end as the pagination part alone
    leaves them.  So a scroll calls [fetch] at most once, and not at all
    while a fetch is in flight or once the list is completely loaded. *)
Theorem scroll_paginates_as_its_first_part w isDesktopDevice fuel scroll :
  ∃ w0, onScroll scroll w = Returns tt w0
    ∧ match onScroll_all isDesktopDevice fuel scroll w with
      | Returns _ w' | Throws _ w' =>
          samePagination w0 w'
          ∧ (length (fetches (trace w')) ≤ S (length (fetches (trace w))))%nat
          ∧ (isFulfilled w (_loading w) = false ∨ _loadedCompletely w = true →
             trace w' = trace w ∧ _loading w' = _loading w ∧ promises w' = promises w)
      | Unrepresented => True
      end.
Proof.
  destruct (onScroll_fetches_at_most_once w scroll) as (w0 & Hrun0 & Hfetch).
  exists w0. split; [done|].
  assert (Hle : (length (fetches (trace w0)) ≤ S (length (fetches (trace w))))%nat).
  { destruct Hfetch as [->|(startId & p & -> & _)]; [lia|].
    rewrite fetches_snoc, length_app. cbn. lia. }
  assert (Hoff : isFulfilled w (_loading w) = false ∨ _loadedCompletely w = true →
                 trace w0 = trace w ∧ _loading w0 = _loading w ∧ promises w0 = promises w).
  { intros Hw. destruct (onScroll_no_fetch w scroll Hw) as (w0' & Hrun0' & ? & ? & ? & _).
    rewrite Hrun0 in Hrun0'. injection Hrun0' as <-. done. }
  assert (Hdone : ∀ w', samePagination w0 w' →
    samePagination w0 w'
    ∧ (length (fetches (trace w')) ≤ S (length (fetches (trace w))))%nat
    ∧ (isFulfilled w (_loading w) = false ∨ _loadedCompletely w = true →
       trace w' = trace w ∧ _loading w' = _loading w ∧ promises w' = promises w)).
  { intros w' Hs. split; [done|]. destruct Hs as (_ & Hl & Hp & Ht).
    rewrite Ht, Hl, Hp. done. }
  revert Hrun0. unfold onScroll, onScroll_all.
  rewrite !(bind_returns (modify (set_scrollTop (Some scroll))) _ w tt
              (set_scrollTop (Some scroll) w)) by done.
  rewrite !(bind_returns (modify (set_currentPosition scroll)) _ _ tt
              (set_currentPosition scroll (set_scrollTop (Some scroll) w))) by done.
  set (w1 := set_currentPosition scroll (set_scrollTop (Some scroll) w)).
  rewrite !bind_get.
  case_bool_decide.
  - intros Hrun0.
    destruct (_scroll_all_paginates w1 isDesktopDevice fuel) as (w0' & Hrun0' & Hall).
    rewrite Hrun0 in Hrun0'. injection Hrun0' as <-.
    munfold. destruct (_scroll_all isDesktopDevice fuel w1) as [[|] w'|msg w'|];
      [by apply Hdone|done|by apply Hdone|done].
  - munfold. intros [= <-]. by apply Hdone.
Qed.

End ScrollPagination.

(** ** More scenarios, checked *)

Lemma keyboard_moves_single_selection_witness :
  ∃ y w', _loadedEntities scenarioC !! (2 `min` (length (_loadedEntities scenarioC) - 1))%nat
          = Some y
    ∧ selectNext false false scenarioC = Returns tt w'
    ∧ _selectedEntities w' = [y]
    ∧ trace w' = trace scenarioC
                 ++ [ElementSelected [y] false
                       (negb (bool_decide (_selectedEntities scenarioC = [y]))) false]
    ∧ selectNext_keyUp false false scenarioC = false.
Proof.
  refine (proj1 (keyboard_moves_single_selection scenarioC false E2 1%nat _ _ _) _).
  - apply (bool_decide_unpack (rendered scenarioC)). vm_compute. exact I.
  - apply (bool_decide_unpack (NoDup (_loadedEntities scenarioC))). vm_compute. exact I.
  - reflexivity.
  - reflexivity.
Defined.

Lemma next_then_previous_witness :
  ∃ w', (selectNext false false ≫= λ _, selectPrevious false false) scenarioC = Returns tt w'
    ∧ _selectedEntities w' = [E2]
    ∧ _loadedEntities w' = _loadedEntities scenarioC
    ∧ trace w' = trace scenarioC ++ [ElementSelected [E3] false true false;
                                     ElementSelected [E2] false true false].
Proof.
  apply (next_then_previous_restores_selection scenarioC false false E2 E3 1%nat).
  - apply (bool_decide_unpack (rendered scenarioC)). vm_compute. exact I.
  - apply (bool_decide_unpack (NoDup (_loadedEntities scenarioC))). vm_compute. exact I.
  - reflexivity.
  - reflexivity.
  - reflexivity.
Defined.

Lemma keyboard_shrinks_range_witness :
  (∃ w', selectNext true true scenarioB = Returns tt w'
     ∧ _selectedEntities w' = drop 1 (_selectedEntities scenarioB)
     ∧ trace w' = trace scenarioB
                  ++ [ElementSelected (drop 1 (_selectedEntities scenarioB)) false true true]
     ∧ selectNext_keyUp true true scenarioB = true)
  ∧ (∃ w', selectPrevious true false scenarioB = Returns tt w'
       ∧ _selectedEntities w'
         = take (length (_selectedEntities scenarioB) - 1) (_selectedEntities scenarioB)
       ∧ trace w' = trace scenarioB
                    ++ [ElementSelected
                          (take (length (_selectedEntities scenarioB) - 1)
                             (_selectedEntities scenarioB)) false true true]
       ∧ selectPrevious_keyUp true false scenarioB = false).
Proof.
  apply (keyboard_shrinks_range_from_far_end scenarioB).
  - apply (bool_decide_unpack (rendered scenarioB)). vm_compute. exact I.
  - vm_compute. lia.
Defined.

Lemma keyboard_extends_range_witness :
  ∃ w', selectNext true false scenarioC = Returns tt w'
    ∧ _selectedEntities w' ≡ₚ _selectedEntities scenarioC ++ [E3]
    ∧ _loadedEntities w' = _loadedEntities scenarioC
    ∧ trace w' = trace scenarioC ++ [ElementSelected (_selectedEntities w') false true true].
Proof.
  refine (proj1 (keyboard_extends_range scenarioC E2 1%nat _ _ _ _) E3 _ _).
  - apply (bool_decide_unpack (rendered scenarioC)). vm_compute. exact I.
  - apply (bool_decide_unpack (NoDup (_loadedEntities scenarioC))). vm_compute. exact I.
  - reflexivity.
  - reflexivity.
  - reflexivity.
  - apply (bool_decide_unpack (E3 ∉ _selectedEntities scenarioC)). vm_compute. exact I.
Defined.

Lemma keyboard_on_empty_selection_witness :
  ∃ w1 w2, selectNext false false fiveLoaded = Returns tt w1
    ∧ selectPrevious false false fiveLoaded = Returns tt w2
    ∧ _selectedEntities w1 = [E1] ∧ _selectedEntities w2 = [E1]
    ∧ trace w1 = trace fiveLoaded ++ [ElementSelected [E1] false true false]
    ∧ trace w2 = trace fiveLoaded ++ [ElementSelected [E1] false true false].
Proof.
  refine (proj2 (keyboard_on_empty_selection fiveLoaded false _) E1 _ _).
  - reflexivity.
  - apply (bool_decide_unpack (rendered fiveLoaded)). vm_compute. exact I.
  - reflexivity.
Defined.

Lemma page_is_written_witness :
  ∃ w', _loadMore_settled 1%nat (Some (page 30)) loadingFirstPage = Returns tt w'
    ∧ _loadedEntities w' ≡ₚ page 30
    ∧ StronglySorted (cmp_le newestFirst) (_loadedEntities w')
    ∧ promises w' = <[1%nat := Fulfilled]> (promises loadingFirstPage)
    ∧ trace w' = trace loadingFirstPage.
Proof.
  destruct (page_is_written_from_start loadingFirstPage 1%nat 0%nat PageSize (page 30))
    as (w' & Hrun & _ & Hperm & Hsorted & Hp & _ & Ht).
  - reflexivity.
  - vm_compute. lia.
  - intros _. apply (bool_decide_unpack (rendered loadingFirstPage)). vm_compute. exact I.
  - exists w'. split; [exact Hrun|]. split; [exact (Hperm eq_refl)|].
    split; [exact (Hsorted newestFirst_consistent)|]. split; [exact Hp|exact Ht].
Defined.

Lemma failed_fetch_witness :
  ∃ w', _loadMore_settled 1%nat None loadingFirstPage = Returns tt w'
    ∧ promises w' = <[1%nat := Rejected]> (promises loadingFirstPage)
    ∧ ∀ scrolls, ∃ w2, run (E_scroll <$> scrolls) w' = Some w2 ∧ trace w2 = trace w'.
Proof.
  destruct (failed_fetch_stops_pagination loadingFirstPage 1%nat 0%nat PageSize)
    as (w' & Hrun & _ & _ & _ & _ & Hp & Hscroll & _).
  - reflexivity.
  - intros _. apply (bool_decide_unpack (rendered loadingFirstPage)). vm_compute. exact I.
  - exists w'. split; [exact Hrun|]. split; [exact Hp|]. exact (Hscroll eq_refl).
Defined.

Lemma create_is_applied_witness :
  ∃ w', after (entityEventReceived_then CREATE E9 fiveLoaded) = Some w'
    ∧ _loadedEntities w'
      = js_sort (sortCompare (_config fiveLoaded)) (_loadedEntities fiveLoaded ++ [E9])
    ∧ E9 ∈ _loadedEntities w'.
Proof.
  refine (proj1 (create_is_applied_inside_the_loaded_range fiveLoaded E9 _) _).
  - apply (bool_decide_unpack (elementId E9 ∉ (elementId <$> _loadedEntities fiveLoaded))).
    vm_compute. exact I.
  - right. exists E5. split; [reflexivity|]. vm_compute. reflexivity.
Defined.

Lemma unknown_identifier_witness :
  _updateLoadedEntity E9 scenarioC = Returns tt scenarioC
  ∧ _deleteLoadedEntity_then "e9" scenarioC = Returns tt scenarioC
  ∧ ∀ q loading,
      promises scenarioC !! q = Some (Pending (K_afterLoading loading (ApplyDelete "e9"))) →
      promises scenarioC !! loading = Some Fulfilled →
      loading_settled q scenarioC
      = Returns tt (set_promises (<[q := Fulfilled]> (promises scenarioC)) scenarioC).
Proof.
  apply (unknown_identifier_changes_nothing scenarioC E9 "e9").
  - apply (bool_decide_unpack (elementId E9 ∉ (elementId <$> _loadedEntities scenarioC))).
    vm_compute. exact I.
  - apply (bool_decide_unpack (elementId E9 ∉ (elementId <$> _selectedEntities scenarioC))).
    vm_compute. exact I.
  - apply (bool_decide_unpack ("e9" ∉ (elementId <$> _loadedEntities scenarioC))).
    vm_compute. exact I.
Defined.

Lemma store_is_keyed_witness :
  ∃ w', applyOp (Replace (mail "e3" 60)) fiveLoaded = Returns tt w'
    ∧ NoDup (elementId <$> _loadedEntities w')
    ∧ ∀ id, getEntity w' id
        = if bool_decide (id = elementId (mail "e3" 60))
          then (λ _, mail "e3" 60) <$> getEntity fiveLoaded id
          else getEntity fiveLoaded id.
Proof.
  apply (store_is_keyed_by_identifier fiveLoaded (Replace (mail "e3" 60))).
  - apply (bool_decide_unpack (rendered fiveLoaded)). vm_compute. exact I.
  - apply (bool_decide_unpack (NoDup (elementId <$> _loadedEntities fiveLoaded))).
    vm_compute. exact I.
Defined.

Lemma remove_unselected_witness :
  ∃ w', _deleteLoadedEntity_then "e4" scenarioC = Returns tt w'
    ∧ _loadedEntities w' = delete 3%nat (_loadedEntities scenarioC)
    ∧ _selectedEntities w' = _selectedEntities scenarioC
    ∧ trace w' = trace scenarioC.
Proof.
  apply (remove_unselected_is_silent scenarioC "e4" E4 3%nat).
  - apply (bool_decide_unpack (rendered scenarioC)). vm_compute. exact I.
  - apply (bool_decide_unpack (NoDup (_loadedEntities scenarioC))). vm_compute. exact I.
  - reflexivity.
  - reflexivity.
  - apply (bool_decide_unpack (E4 ∉ _selectedEntities scenarioC)). vm_compute. exact I.
Defined.

Lemma pending_selection_witness :
  ∃ w1 w2,
    scrollToIdAndSelectWhenReceived "e9" scenarioC = Returns tt w1
    ∧ w1 = set_idOfEntityToSelectWhenReceived (Some "e9") scenarioC
    ∧ _addToLoadedEntities E9 w1 = Returns tt w2
    ∧ E9 ∈ _loadedEntities w2
    ∧ _selectedEntities w2 = [E9]
    ∧ _idOfEntityToSelectWhenReceived w2 = None
    ∧ trace w2 = trace scenarioC
                 ++ [ElementSelected [E9] false
                       (negb (bool_decide (_selectedEntities scenarioC = [E9]))) false].
Proof.
  refine (proj1 (pending_selection_is_made_on_arrival scenarioC "e9" _ _) E9 _ _).
  - apply (bool_decide_unpack (rendered scenarioC)). vm_compute. exact I.
  - discriminate.
  - reflexivity.
  - reflexivity.
Defined.

Lemma store_operations_witness :
  (∀ op, ∃ w', applyOp op scenarioC = Returns tt w'
           ∧ rendered w' ∧ storeOk w' ∧ selectionOk w')
  ∧ (∀ ops, ∃ w', applyOps ops scenarioC = Some w'
            ∧ rendered w' ∧ storeOk w' ∧ selectionOk w').
Proof.
  apply (store_operations_keep_selection_loaded scenarioC).
  - exact newestFirst_consistent.
  - apply (bool_decide_unpack (rendered scenarioC)). vm_compute. exact I.
  - apply (bool_decide_unpack (storeOk scenarioC)). vm_compute. exact I.
  - apply (bool_decide_unpack (selectionOk scenarioC)). vm_compute. exact I.
Defined.

Lemma toggle_click_witness :
  ∃ w' w2,
    _elementClicked E4 ctrlClick scenarioC = Returns tt w'
    ∧ (E4 ∈ _selectedEntities w' ↔ E4 ∉ _selectedEntities scenarioC)
    ∧ (∀ y, y ≠ E4 → y ∈ _selectedEntities w' ↔ y ∈ _selectedEntities scenarioC)
    ∧ NoDup (_selectedEntities w')
    ∧ trace w' = trace scenarioC ++ [ElementSelected (_selectedEntities w') true true true]
    ∧ _elementClicked E4 ctrlClick w' = Returns tt w2
    ∧ _selectedEntities w2 ≡ₚ _selectedEntities scenarioC.
Proof.
  apply (toggle_click_adds_or_removes scenarioC E4 ctrlClick).
  - reflexivity.
  - reflexivity.
  - apply (bool_decide_unpack (rendered scenarioC)). vm_compute. exact I.
  - apply (bool_decide_unpack (NoDup (_selectedEntities scenarioC))). vm_compute. exact I.
Defined.

Lemma modifiers_need_multi_selection_witness :
  _elementClicked E1 shiftClick singleList
  = _elementClicked E1 {| metaKey := false; ctrlKey := false; shiftKey := false |} singleList.
Proof.
  apply (modifiers_need_multi_selection singleList E1 shiftClick).
  reflexivity.
Defined.

Lemma shift_click_without_range_witness :
  ∃ w', _elementClicked E3 shiftClick fiveLoaded = Returns tt w'
    ∧ _selectedEntities w' = [E3]
    ∧ _loadedEntities w' = _loadedEntities fiveLoaded
    ∧ trace w' = trace fiveLoaded ++ [ElementSelected [E3] true true true].
Proof.
  refine (proj1 (shift_click_without_range fiveLoaded E3 shiftClick _ _ _ _) _).
  - reflexivity.
  - reflexivity.
  - reflexivity.
  - apply (bool_decide_unpack (rendered fiveLoaded)). vm_compute. exact I.
  - reflexivity.
Defined.

Lemma reposition_binds_rows_witness :
  ∃ w', _reposition shortList = Returns tt w'
    ∧ ∃ first, startPosition shortList 160 = first * rowHeightZ shortList
        ∧ ∀ (i : nat) r, _virtualList shortList !! i = Some r →
            ∃ row, rows w' !! r = Some row
              ∧ entity row = js_get (_loadedEntities shortList) (first + Z.of_nat i).
Proof.
  destruct (reposition_binds_rows_to_entities shortList 160) as (w' & Hrun & _ & Hrows).
  - reflexivity.
  - apply (bool_decide_unpack (rendered shortList)). vm_compute. exact I.
  - exists w'. split; [exact Hrun|]. apply Hrows.
    + exists 15. vm_compute. reflexivity.
    + exists 10. vm_compute. reflexivity.
Defined.

Lemma reposition_needs_the_pool_witness :
  (_reposition created = Throws "TypeError: this._domListContainer is undefined" created)
  ∧ (∃ w', _reposition unmountedPool
           = Throws "undefined dom element for virtual dom element" w'
       ∧ repositioned unmountedPool w').
Proof.
  split.
  - apply (proj1 (reposition_needs_the_pool created)). reflexivity.
  - apply (proj2 (reposition_needs_the_pool unmountedPool) 0%nat).
    + eexists. reflexivity.
    + apply (bool_decide_unpack (0%nat ∈ _virtualList unmountedPool)). vm_compute. exact I.
    + apply (bool_decide_unpack
               (Forall (λ r, is_Some (rows unmountedPool !! r)) (_virtualList unmountedPool))).
      vm_compute. exact I.
    + reflexivity.
Defined.

Lemma init_creates_the_pool_witness :
  ∃ w' ve, _init 300 100 created = Returns tt w'
    ∧ 0 ≤ ve
    ∧ _visibleElementsHeight w' = 2 * ve * rowHeightZ created
    ∧ 100 ≤ _visibleElementsHeight w' < 100 + 2 * rowHeightZ created
    ∧ Z.of_nat (length (_virtualList w')) = 2 * ve + 2 * ScrollBuffer
    ∧ NoDup (_virtualList w')
    ∧ Forall (λ r, (length (rows created) ≤ r)%nat
                   ∧ ∃ row, rows w' !! r = Some row ∧ domElement row = None
                            ∧ entity row = None)
        (_virtualList w')
    ∧ offsets w' = Some (arithmetic 0 (rowHeightZ created) (length (_virtualList w')))
    ∧ scrollTop w' = Some 0 ∧ _width w' = 300
    ∧ _loadedEntities w' = _loadedEntities created ∧ ready w' = ready created.
Proof.
  apply (init_creates_the_pool created 300 100). lia.
Defined.

Lemma mounting_renders_the_list_witness :
  ∃ w1 w',
    _init 300 100 created = Returns tt w1
    ∧ run (mountEvents 300 100 (_virtualList w1) (λ _, aRowNode)) created = Some w'
    ∧ rendered w' ∧ ready w' = true
    ∧ _virtualList w' = _virtualList w1
    ∧ currentPosition w' = 0
    ∧ _loadedEntities w' = _loadedEntities created
    ∧ _selectedEntities w' = _selectedEntities created
    ∧ trace w' = trace created.
Proof.
  apply (mounting_renders_the_list created 300 100 (λ _, aRowNode)).
Defined.

(** The slow scrolls of the session recycle six rows of the pool, which
    then starts at the offset 60. *)
Example slow_scrolls_recycle_rows :
  ∃ w', run (take 5 sessionEvents) mounted = Some w'
        ∧ _virtualList w' = seq 6 34 ++ seq 0 6
        ∧ offsets w' = Some (arithmetic 60 10 40)
        ∧ trace w' = [Fetch "zzzzzzzzzzzz" 100 1%nat].
Proof.
  eexists. split; [vm_compute; reflexivity|].
  split; [vm_compute; reflexivity|]. split; vm_compute; reflexivity.
Qed.

Lemma mounted_list_stays_rendered_witness :
  rendered session ∧ ∃ w2, redraw session = Returns tt w2 ∧ rendered w2.
Proof.
  apply (mounted_list_stays_rendered sessionEvents mounted session).
  - apply (bool_decide_unpack (rendered mounted)). vm_compute. exact I.
  - reflexivity.
  - vm_compute. reflexivity.
Defined.

Lemma swipe_offset_witness :
  - ActionDistance ≤ xoffset (default created (run swipeEvents created)) ≤ ActionDistance.
Proof.
  apply (swipe_offset_stays_within_action_distance mailConfig false 0 swipeEvents).
  vm_compute. reflexivity.
Defined.

Lemma touched_row_witness :
  ∃ found, getVirtualElement touching = Returns found (set_virtualElement found touching)
    ∧ (∀ r, found = Some r →
         r ∈ _virtualList touching
         ∧ ∃ row, rows touching !! r = Some row
             ∧ top row ≤ currentPosition touching + (startPos touching).2
                         - touchAreaTop touching
               < top row + rowHeightZ touching)
    ∧ (found = None →
       ∀ r row, r ∈ _virtualList touching → rows touching !! r = Some row →
         ¬ (top row ≤ currentPosition touching + (startPos touching).2
                      - touchAreaTop touching
            < top row + rowHeightZ touching
            ∧ (rowHeightZ touching | top row))).
Proof.
  refine (proj1 (touched_row_is_found_once touching _) _).
  - apply (bool_decide_unpack
             (Forall (λ r, is_Some (rows touching !! r)) (_virtualList touching))).
    vm_compute. exact I.
  - reflexivity.
Defined.

Lemma touch_move_witness :
  ∃ w', move {| clientX := 170; clientY := 30 |} touching = Returns tt w'
    ∧ xoffset w' = 150
    ∧ trace w' = trace touching
    ∧ (∀ r, virtualElement touching = Some r → virtualElement w' = Some r).
Proof.
  refine (proj1 (proj2 (touch_move_follows_the_finger touching
                          {| clientX := 170; clientY := 30 |} _)) _ _ _).
  - apply (bool_decide_unpack (poolExists touching)). vm_compute. exact I.
  - vm_compute. discriminate.
  - vm_compute. reflexivity.
  - vm_compute. reflexivity.
Defined.

Lemma committed_swipe_witness :
  ∃ w1 w2 w3,
    end_ endAt160 swiping = Returns tt w1
    ∧ trace w1
      = trace swiping ++ [SwipeRight (mail "2" 998) 2%nat; AnimateFinish 2%nat 150 300]
    ∧ virtualElement w1 = None
    ∧ finish_settled 3%nat w1 = Returns tt w2
    ∧ xoffset w2 = 0
    ∧ swipe_settled 2%nat false w2 = Returns tt w3
    ∧ promises w3 = promises swiping ++ [Fulfilled; Fulfilled]
    ∧ rendered w3
    ∧ trace w3 = trace w1.
Proof.
  apply (committed_swipe_animates_and_resets swiping endAt160 2%nat
           {| top := 20; entity := Some (mail "2" 998);
              domElement := Some {| offsetHeight := 10; oddRow := true; displayed := true |};
              updated := Some (mail "2" 998, false) |}
           (mail "2" 998)
           {| offsetHeight := 10; oddRow := true; displayed := true |}).
  - reflexivity.
  - vm_compute. reflexivity.
  - reflexivity.
  - reflexivity.
  - vm_compute. reflexivity.
  - vm_compute. reflexivity.
  - vm_compute. discriminate.
  - apply (bool_decide_unpack (rendered swiping)). vm_compute. exact I.
Defined.

Lemma idOrder_strictTotal : strictTotal idOrder.
Proof.
  unfold strictTotal, idOrder. split; [|split].
  - intros a. apply bool_decide_eq_false_2. lia.
  - intros a b Hne.
    assert (encode a ≠ encode b) by (intros ?%(inj encode); done).
    destruct (decide (encode b < encode a)%positive).
    + left. by apply bool_decide_eq_true_2.
    + right. apply bool_decide_eq_true_2. lia.
  - intros a b c Hab%bool_decide_eq_true_1 Hbc%bool_decide_eq_true_1.
    apply bool_decide_eq_true_2. lia.
Qed.

Lemma id_comparators_witness :
  consistent (sortCompareById (T := Mail) idOrder)
  ∧ consistent (sortCompareByReverseId (T := Mail) idOrder)
  ∧ (∀ a b : Mail, sortCompareByReverseId idOrder a b = - sortCompareById idOrder a b)
  ∧ (∀ a b : Mail, sortCompareById idOrder a b = 0 ↔ elementId a = elementId b)
  ∧ (∀ a b : Mail, sortCompareById idOrder a b = - sortCompareById idOrder b a).
Proof.
  apply (id_comparators_are_consistent idOrder). exact idOrder_strictTotal.
Defined.

(** Scrolling down by two rows moves the first row of the pool below the
    last one. *)
Example scroll_down_recycles_first_row :
  ∃ w', _scroll_all false 3 scrolling = Returns true w'
        ∧ offsets w' = Some (arithmetic 460 10 40)
        ∧ _virtualList w' = seq 1 39 ++ [0%nat]
        ∧ lastPosition w' = 620.
Proof.
  eexists. split; [vm_compute; reflexivity|].
  split; [vm_compute; reflexivity|]. split; vm_compute; reflexivity.
Qed.

Lemma scroll_keeps_the_window_witness :
  ∃ b w' a',
    _scroll_all false 452 scrolling = Returns b w'
    ∧ rendered w' ∧ windowAt w' a'
    ∧ _virtualList w' ≡ₚ _virtualList scrolling
    ∧ lastPosition w' = currentPosition scrolling
    ∧ _loadedEntities w' = _loadedEntities scrolling
    ∧ _selectedEntities w' = _selectedEntities scrolling
    ∧ (trace w' = trace scrolling
       ∨ ∃ startId p, trace w' = trace scrolling ++ [Fetch startId PageSize p])
    ∧ (poolFits scrolling →
       (fuelDown scrolling 450 `max` (Z.to_nat 450 + 2) ≤ 452)%nat → b = true).
Proof.
  apply (scroll_keeps_the_window scrolling false 452 450).
  - apply (bool_decide_unpack (rendered scrolling)). vm_compute. exact I.
  - apply (bool_decide_unpack (windowAt scrolling 450)). vm_compute. exact I.
  - vm_compute. discriminate.
Defined.

Lemma scroll_paginates_witness :
  ∃ w0, onScroll 900 longList = Returns tt w0
    ∧ match onScroll_all false 5 900 longList with
      | Returns _ w' | Throws _ w' =>
          samePagination w0 w'
          ∧ (length (fetches (trace w')) ≤ S (length (fetches (trace longList))))%nat
          ∧ (isFulfilled longList (_loading longList) = false
             ∨ _loadedCompletely longList = true →
             trace w' = trace longList ∧ _loading w' = _loading longList
             ∧ promises w' = promises longList)
      | Unrepresented => True
      end.
Proof. apply (scroll_paginates_as_its_first_part longList false 5 900). Defined.
